(** * Schema-driven variable editor: descriptor model, reconciliation,
      state store and serializer

    A shallow embedding of the editor script (the first, most complete
    variant: [defaultFor], [getChoices], [buildSanitizedFromSource],
    [loadExampleAndApply], [resetToDefaults], [prettyPrintJSON],
    [updatePreview], [renderControlsForVariables], [makeControl] and the
    [input] handler of a number array) and the properties of it that the
    specification states.  The last part of the file goes on to the rest
    of the script: [loadConfig], [init], the listeners of the controls, of
    the buttons and of the search field, [matchesSearch],
    [updateModifiedStatus] and the choice of the entry that the pack
    upload writes.

    Modelling conventions.
    - JSON documents (the configuration, the example, the persisted
      snapshots) are immutable trees [json].  An object is the list of its
      own enumerable properties in the order of enumeration (the array
      indices first, in increasing order, then the other names as they
      were created), with distinct keys; a lookup takes the first binding.
    - Every object the script handles is a plain one, whose prototype is
      [Object.prototype].  A read of a property the object does not own
      finds the members of the prototype ([prop_get]); an assignment to
      the name [__proto__] that the object does not own reaches the
      setter of the prototype ([own_set]).  [JSON.parse] and
      [structuredClone] define own properties, that name included.
    - JS numbers are modelled by the integers [Z] that are numbers of the
      language: every number the core computes with (the [0] defaults,
      element counts, indices, choice suffixes) is integral.  A literal
      or a suffix converts to the nearest such number ([round53]).
      Fractions, NaN and the infinities are outside the model, and the
      text of a number is modelled by its decimal digits, which is what
      the language prints for the safe integers.
    - Strings are sequences of 8-bit code units.
    - Run-time values are primitives or references into a heap of arrays
      and objects, so that two state objects sharing one array are told
      apart from two state objects holding equal arrays.  A heap cell
      holds the whole tree of its array or object: the script never keeps
      a reference to a value nested in another one.
    - The script's globals and the parts of the browser it writes to (the
      session storage, the status line, the preview) form the record
      [app]; a function of the script is a function from [app] to a
      result and a new [app].
    - A thrown exception is an explicit [Throw] result; the state reached
      when it was thrown is kept, as in JS.  The result [Throw OutOfModel]
      is no exception of the script: it marks a step whose effect the
      model does not describe (a prototype replaced, the text of a
      number beyond the safe integers or of a built-in function, a text
      used as a loop bound), and no statement is made about a run that
      reaches it.
    - Of the document tree only the writes that reach the state, and the
      conversions to text that can throw, are modelled: building
      elements, setting attributes and toggling classes leave [app]
      alone. *)

From Stdlib Require Import ZArith String Ascii List Bool Lia Permutation Sorted.
From stdpp Require Import base option list strings pretty.

Local Open Scope string_scope.
Local Open Scope list_scope.

(** ** JSON trees *)

Inductive prim : Type :=
| PUndef
| PNull
| PBool (b : bool)
| PNum (n : Z)
| PStr (s : string).

#[warnings="-register-all"]
Inductive json : Type :=
| TPrim (p : prim)
| TArr (elems : list json)
| TObj (props : list (string * json)).

Abbreviation undefined := (TPrim PUndef).
Abbreviation jnull := (TPrim PNull).
Abbreviation jnum n := (TPrim (PNum n)).
Abbreviation jstr s := (TPrim (PStr s)).
Abbreviation jbool b := (TPrim (PBool b)).

(** ** Objects as property lists

    A property list holds the own enumerable properties of an object in
    the order in which [Object.keys], [JSON.stringify] and
    [structuredClone] go through them: the array indices first, in
    increasing order, then the other names in the order of their
    creation. *)

Definition is_digit (c : ascii) : bool :=
  let n := nat_of_ascii c in (48 <=? n)%nat && (n <=? 57)%nat.

(** The value of a string of decimal digits, most significant first;
    [None] when a character is not a digit. *)
Fixpoint digits_value (acc : Z) (s : string) : option Z :=
  match s with
  | EmptyString => Some acc
  | String c s' =>
      if is_digit c
      then digits_value (10 * acc + Z.of_nat (nat_of_ascii c - 48)) s'
      else None
  end.

(** The array index a property name writes: the decimal digits, without
    a leading zero, of a number below [2^32 - 1]. *)
Definition array_index (k : string) : option Z :=
  match digits_value 0 k with
  | Some n =>
      if String.eqb (pretty n) k && (n <? 2 ^ 32 - 1)%Z then Some n else None
  | None => None
  end.

Section Props.
Context {A : Type}.

(** [o[k]] for an own property, first binding wins. *)
Fixpoint assoc_get (k : string) (o : list (string * A)) : option A :=
  match o with
  | [] => None
  | (k', v) :: o' => if String.eqb k k' then Some v else assoc_get k o'
  end.

(** [Object.prototype.hasOwnProperty.call(o, k)]. *)
Definition assoc_has (k : string) (o : list (string * A)) : bool :=
  match assoc_get k o with Some _ => true | None => false end.

(** An existing property keeps its place, a new one is appended. *)
Fixpoint assoc_put (k : string) (v : A) (o : list (string * A))
  : list (string * A) :=
  match o with
  | [] => [(k, v)]
  | (k', v') :: o' =>
      if String.eqb k k' then (k', v) :: o' else (k', v') :: assoc_put k v o'
  end.

(** The place of a new property whose name is the array index [n]:
    after the smaller indices. *)
Fixpoint insert_index (k : string) (n : Z) (v : A) (o : list (string * A))
  : list (string * A) :=
  match o with
  | [] => [(k, v)]
  | (k', v') :: o' =>
      match array_index k' with
      | Some n' =>
          if (n' <? n)%Z then (k', v') :: insert_index k n v o'
          else (k, v) :: o
      | None => (k, v) :: o
      end
  end.

(** The data property [k] of [o] set to [v] (what [JSON.parse] does for
    a member, and [o[k] = v] wherever the assignment reaches no setter):
    an existing property keeps its place, a new one takes its place in
    the order of enumeration. *)
Definition assoc_set (k : string) (v : A) (o : list (string * A))
  : list (string * A) :=
  match array_index k with
  | Some n => if assoc_has k o then assoc_put k v o else insert_index k n v o
  | None => assoc_put k v o
  end.

(** [Object.keys(o)]. *)
Definition keys (o : list (string * A)) : list string := map fst o.
End Props.

(** ** Outcomes *)

(** What a run can end with instead of a value: the three exceptions the
    script can raise, and [OutOfModel], which is no exception of the
    language: it marks a run that leaves what this model covers (a write
    that replaces the prototype of an object or reaches a built-in
    object, the text of a function, a number that is not a safe integer).
    No handler catches it, and nothing is claimed about what the script
    does from there. *)
Inductive exn : Type := RangeError | TypeError | Error | OutOfModel.

Inductive res (A : Type) : Type :=
| Ok (a : A)
| Throw (e : exn).
Arguments Ok {A} a.
Arguments Throw {A} e.

(** Sequencing of outcomes: the first exception ends the computation. *)
Definition res_bind {A B} (r : res A) (f : A -> res B) : res B :=
  match r with
  | Ok a => f a
  | Throw e => Throw e
  end.

Definition res_map {A B} (f : A -> B) (r : res A) : res B :=
  res_bind r (fun a => Ok (f a)).

(** ** Coercions of the language *)

(** [!!x]. *)
Definition truthy (j : json) : bool :=
  match j with
  | TPrim PUndef | TPrim PNull => false
  | TPrim (PBool b) => b
  | TPrim (PNum n) => negb (Z.eqb n 0)
  | TPrim (PStr s) => negb (String.eqb s "")
  | TArr _ | TObj _ => true
  end.

(** [x !== undefined]. *)
Definition is_defined (j : json) : bool :=
  match j with TPrim PUndef => false | _ => true end.

(** [a || b]. *)
Definition or_else (a b : json) : json := if truthy a then a else b.

(** The numbers the model prints and compares exactly: the safe integers
    of the language. *)
Definition safe_int (n : Z) : bool :=
  ((- (2 ^ 53 - 1) <=? n) && (n <=? 2 ^ 53 - 1))%Z.

(** [String(x)]: an array joins its elements with commas, [null] and
    [undefined] elements contributing the empty string, the others
    converted in turn; an object gives [[object Object]] through the
    [toString] it inherits, and a [TypeError] when it has a [toString]
    property of its own, which in a parsed document is never a function.
    A number that is not a safe integer leaves the model. *)
Fixpoint String_ (j : json) : res string :=
  match j with
  | TPrim PUndef => Ok "undefined"
  | TPrim PNull => Ok "null"
  | TPrim (PBool b) => Ok (if b then "true" else "false")
  | TPrim (PNum n) => if safe_int n then Ok (pretty n) else Throw OutOfModel
  | TPrim (PStr s) => Ok s
  | TArr l =>
      res_map (String.concat ",")
        ((fix texts (l : list json) : res (list string) :=
            match l with
            | [] => Ok []
            | e :: l' =>
                res_bind
                  (match e with
                   | TPrim PUndef | TPrim PNull => Ok ""
                   | _ => String_ e
                   end)
                  (fun s => res_bind (texts l') (fun ss => Ok (s :: ss)))
            end) l)
  | TObj ps =>
      if assoc_has "toString" ps then Throw TypeError
      else Ok "[object Object]"
  end.

(** [l.map(String)]. *)
Fixpoint map_String (l : list json) : res (list string) :=
  match l with
  | [] => Ok []
  | e :: l' =>
      res_bind (String_ e)
               (fun s => res_bind (map_String l') (fun ss => Ok (s :: ss)))
  end.

(** Whether the conversion of [j] to a string (or to a number) throws:
    a value read from a JSON text has no callable [toString], so an
    object that owns a property of that name has no primitive value, nor
    has an array that holds one, the elements being joined. *)
Fixpoint unprintable (j : json) : bool :=
  match j with
  | TPrim _ => false
  | TArr l => existsb unprintable l
  | TObj ps => assoc_has "toString" ps
  end.

(** [a ?? b]. *)
Definition coalesce (a b : json) : json :=
  match a with
  | TPrim PUndef | TPrim PNull => b
  | _ => a
  end.

(** The own enumerable properties of any value: those of an object, the
    index properties of an array or of a string, none for the other
    primitives. *)
Definition index_keys (n : nat) : list string :=
  map (fun i : nat => pretty i) (seq 0 n).

Definition own_props (j : json) : list (string * json) :=
  match j with
  | TObj ps => ps
  | TArr l => combine (index_keys (length l)) l
  | TPrim (PStr s) =>
      combine (index_keys (String.length s))
              (map (fun c => jstr (String c "")) (list_ascii_of_string s))
  | TPrim _ => []
  end.

(** [Object.keys(d)]. *)
Definition object_keys (j : json) : list string := keys (own_props j).

(** [d.name] and [d[name]] for the property names the script reads
    ([default], [type], [count], [choices], [label], [help], [choice_N]):
    none is an inherited or built-in property, so a missing own property
    reads as [undefined]. *)
Definition field (d : json) (name : string) : json :=
  match assoc_get name (own_props d) with
  | Some v => v
  | None => undefined
  end.

(** [d.type === tag]. *)
Definition type_is (d : json) (tag : string) : bool :=
  match field d "type" with
  | TPrim (PStr s) => String.eqb s tag
  | _ => false
  end.

(** ** Descriptor model: choices *)

(** [Some rest] when [s] starts with [word]. *)
Fixpoint strip_prefix (word s : string) : option string :=
  match word, s with
  | EmptyString, _ => Some s
  | String a w, String b r => if Ascii.eqb a b then strip_prefix w r else None
  | String _ _, EmptyString => None
  end.

(** The key pattern of [getChoices] (the prefix choice_ followed by one
    or more decimal digits, and nothing else): the integer that the
    digits of [m[1]] write. *)
Definition match_choice_key (k : string) : option Z :=
  match strip_prefix "choice_" k with
  | Some (String c ds) => digits_value 0 (String c ds)
  | _ => None
  end.

(** The number of the language nearest to the natural number [n]: [n]
    itself up to 53 bits, else its 53 leading bits, rounded to nearest
    with ties to the even one. *)
Definition round53 (n : Z) : Z :=
  let e := Z.log2 n in
  if (e <? 53)%Z then n
  else
    let sh := (e - 52)%Z in
    let q := Z.shiftr n sh in
    let r := (n mod 2 ^ sh)%Z in
    let half := (2 ^ (sh - 1))%Z in
    let q' := if (half <? r)%Z || ((r =? half)%Z && Z.odd q)
              then (q + 1)%Z else q in
    (q' * 2 ^ sh)%Z.

(** [Number(m[1])] for the integer [n] that the digits write; from
    [2^1023] on (where the numbers of the language end) the model stops. *)
Definition Number_digits (n : Z) : res Z :=
  if (n <? 2 ^ 1023)%Z then Ok (round53 n) else Throw OutOfModel.

(** [choices.sort((a,b) => a.idx - b.idx)]: the sort of the language is
    stable, so with this comparator its result is the one stable
    arrangement by ascending [idx]; insertion at the first entry that is
    not smaller computes it. *)
Fixpoint insert_by_idx (c : Z * string) (l : list (Z * string))
  : list (Z * string) :=
  match l with
  | [] => [c]
  | d :: l' =>
      if (fst c <=? fst d)%Z then c :: l else d :: insert_by_idx c l'
  end.

Fixpoint sort_by_idx (l : list (Z * string)) : list (Z * string) :=
  match l with
  | [] => []
  | c :: l' => insert_by_idx c (sort_by_idx l')
  end.

(** The [{idx, val}] records pushed by the key scan of [getChoices]; the
    scan ends at the first conversion that throws. *)
Fixpoint numbered_choices (desc : json) (ks : list string)
  : res (list (Z * string)) :=
  match ks with
  | [] => Ok []
  | k :: ks' =>
      match match_choice_key k with
      | Some n =>
          res_bind (Number_digits n) (fun idx =>
          res_bind (String_ (field desc k)) (fun val =>
          res_map (cons (idx, val)) (numbered_choices desc ks')))
      | None => numbered_choices desc ks'
      end
  end.

Definition getChoices (desc : json) : res (list string) :=
  if negb (truthy desc) then Ok []
  else
    match field desc "choices" with
    | TArr l => map_String l
    | _ =>
        res_map (fun choices =>
                   match choices with
                   | [] => []
                   | _ :: _ => map snd (sort_by_idx choices)
                   end)
                (numbered_choices desc (object_keys desc))
    end.

(** ** Run-time values, heap and application state *)

Definition loc := nat.

(** A value the script holds: a primitive, a reference to an array or
    object of the heap, or what a read finds on the prototype chain of a
    plain object: the member [name] of [Object.prototype] (a built-in
    function, and for [__proto__] that prototype itself).  A property of a
    state object or of a parsed document holds one of the first two. *)
Inductive value : Type :=
| VPrim (p : prim)
| VRef (l : loc)
| VBuiltin (name : string).

(** A state object ([variables], [defaults], [out], a parsed document). *)
Definition obj := list (string * value).

(** The globals of the script and the browser state it touches.
    [config_variables] is [config.variables || {}], the only part of the
    configuration the core reads.  [storage_user] and [storage_defaults] are the two session-storage
    entries, held as the documents their texts denote: the script only
    writes [JSON.stringify] of a state object there, and an absent, empty
    or unparseable entry reads as [None].  [storage_writable] is false
    when [sessionStorage.setItem] throws (quota, private mode). *)
Record app : Type := mkApp {
  config_variables : list (string * json);
  variables : obj;
  defaults : obj;
  heap : list json;
  storage_user : option (list (string * json));
  storage_defaults : option (list (string * json));
  storage_writable : bool;
  status : string;
  jsonPreview : string;
  currentSearchTerm : string
}.

Definition M (A : Type) : Type := app -> res A * app.

Definition ret {A} (a : A) : M A := fun st => (Ok a, st).

Definition bind {A B} (m : M A) (f : A -> M B) : M B :=
  fun st =>
    match m st with
    | (Ok a, st') => f a st'
    | (Throw e, st') => (Throw e, st')
    end.

Definition throw {A} (e : exn) : M A := fun st => (Throw e, st).

(** [try { body } catch(e) { handler }]. *)
Definition try_catch {A} (body : M A) (handler : M A) : M A :=
  fun st =>
    match body st with
    | (Ok a, st') => (Ok a, st')
    | (Throw OutOfModel, st') => (Throw OutOfModel, st')
    | (Throw _, st') => handler st'
    end.

Definition gets {A} (f : app -> A) : M A := fun st => (Ok (f st), st).
Definition modify (f : app -> app) : M unit := fun st => (Ok tt, f st).
Definition lift {A} (r : res A) : M A := fun st => (r, st).

Notation "'let*' x ':=' m 'in' k" := (bind m (fun x => k))
  (at level 10, x name, m at level 100, k at level 200).
Notation "m '>>' k" := (bind m (fun _ => k))
  (at level 62, right associativity).

Definition set_variables (o : obj) (st : app) : app :=
  mkApp (config_variables st) o (defaults st) (heap st) (storage_user st)
        (storage_defaults st) (storage_writable st) (status st)
        (jsonPreview st) (currentSearchTerm st).
Definition set_defaults (o : obj) (st : app) : app :=
  mkApp (config_variables st) (variables st) o (heap st) (storage_user st)
        (storage_defaults st) (storage_writable st) (status st)
        (jsonPreview st) (currentSearchTerm st).
Definition set_heap (h : list json) (st : app) : app :=
  mkApp (config_variables st) (variables st) (defaults st) h (storage_user st)
        (storage_defaults st) (storage_writable st) (status st)
        (jsonPreview st) (currentSearchTerm st).
Definition set_storage_user (d : option (list (string * json))) (st : app)
  : app :=
  mkApp (config_variables st) (variables st) (defaults st) (heap st) d
        (storage_defaults st) (storage_writable st) (status st)
        (jsonPreview st) (currentSearchTerm st).
Definition set_storage_defaults (d : option (list (string * json)))
  (st : app) : app :=
  mkApp (config_variables st) (variables st) (defaults st) (heap st)
        (storage_user st) d (storage_writable st) (status st)
        (jsonPreview st) (currentSearchTerm st).
Definition set_status (s : string) (st : app) : app :=
  mkApp (config_variables st) (variables st) (defaults st) (heap st)
        (storage_user st) (storage_defaults st) (storage_writable st) s
        (jsonPreview st) (currentSearchTerm st).
Definition set_jsonPreview (s : string) (st : app) : app :=
  mkApp (config_variables st) (variables st) (defaults st) (heap st)
        (storage_user st) (storage_defaults st) (storage_writable st)
        (status st) s (currentSearchTerm st).

(** [o[k] = v] on a state object, whose prototype is [Object.prototype].
    The name [__proto__], unless [o] owns it (as an object read by
    [JSON.parse] can), reaches the setter of the prototype: it ignores a
    primitive other than [null], and any other value would replace the
    prototype of [o], where the model stops. *)
Definition own_set (k : string) (v : value) (o : obj) : res obj :=
  if String.eqb k "__proto__" && negb (assoc_has k o) then
    match v with
    | VPrim PNull => Throw OutOfModel
    | VPrim _ => Ok o
    | _ => Throw OutOfModel
    end
  else Ok (assoc_set k v o).

(** The same assignment on an object under construction whose values
    are trees. *)
Definition own_set_tree (k : string) (t : json) (o : list (string * json))
  : res (list (string * json)) :=
  if String.eqb k "__proto__" && negb (assoc_has k o) then
    match t with
    | TPrim PNull => Throw OutOfModel
    | TPrim _ => Ok o
    | _ => Throw OutOfModel
    end
  else Ok (assoc_set k t o).

(** A new array or object: the next free location. *)
Definition alloc (t : json) : M value :=
  fun st => (Ok (VRef (length (heap st))), set_heap (heap st ++ [t]) st).

(** A fresh run-time copy of a tree: [structuredClone(t)], and what
    [JSON.parse] builds for a value of a document. *)
Definition fresh (t : json) : M value :=
  match t with
  | TPrim p => ret (VPrim p)
  | _ => alloc t
  end.

(** The tree a value stands for in a heap.  [Object.prototype] has no
    enumerable property of its own; a built-in function has no tree, and
    [JSON.stringify] treats it like [undefined]. *)
Definition deref (h : list json) (v : value) : json :=
  match v with
  | VPrim p => TPrim p
  | VRef l => match h !! l with Some t => t | None => undefined end
  | VBuiltin name => if String.eqb name "__proto__" then TObj [] else undefined
  end.

(** [Array.isArray(v)]. *)
Definition isArray (h : list json) (v : value) : bool :=
  match deref h v with TArr _ => true | _ => false end.

(** ** Descriptor model: defaults *)

Definition zero : json := jnum 0.

(** [Array(c).fill(0)]: a number must be an array length (an integer in
    [0, 2^32)), else [RangeError]; any other argument becomes the single
    element of the array, which [fill] then overwrites. *)
Definition Array_fill0 (c : json) : M value :=
  match c with
  | TPrim (PNum n) =>
      if ((0 <=? n) && (n <? 2 ^ 32))%Z
      then alloc (TArr (replicate (Z.to_nat n) zero))
      else throw RangeError
  | _ => alloc (TArr [zero])
  end.

Definition defaultFor (desc : json) : M value :=
  if negb (truthy desc) then ret (VPrim PNull)
  else if is_defined (field desc "default") then fresh (field desc "default")
  else if type_is desc "boolean" then ret (VPrim (PBool false))
  else if type_is desc "number" then ret (VPrim (PNum 0))
  else if type_is desc "number_array"
       then Array_fill0 (or_else (field desc "count") (jnum 2))
  else if type_is desc "string" then ret (VPrim (PStr ""))
  else if type_is desc "choice" then
         match getChoices desc with
         | Ok (c :: _) => ret (VPrim (PStr c))
         | Ok [] => ret (VPrim (PStr ""))
         | Throw e => throw e
         end
  else ret (VPrim PNull).

(** ** Reconciliation engine *)

(** [vars[k]]. *)
Definition descriptor (vars : list (string * json)) (k : string) : json :=
  match assoc_get k vars with Some d => d | None => undefined end.

(** [desc && desc.type === 'section']. *)
Definition is_section (desc : json) : bool :=
  truthy desc && type_is desc "section".

(** The body of the [forEach] of [buildSanitizedFromSource]; [source] is
    [None] for [null]. *)
Definition sanitize_key (vars : list (string * json)) (source : option obj)
  (out : obj) (k : string) : M obj :=
  let desc := descriptor vars k in
  if is_section desc then ret out
  else
    match source with
    | Some src =>
        match assoc_get k src with
        | Some v => lift (own_set k v out)
        | None =>
            let* v := defaultFor (descriptor vars k) in lift (own_set k v out)
        end
    | None =>
        let* v := defaultFor (descriptor vars k) in lift (own_set k v out)
    end.

Fixpoint forEach {A B} (f : B -> A -> M B) (acc : B) (l : list A) : M B :=
  match l with
  | [] => ret acc
  | x :: l' => let* acc' := f acc x in forEach f acc' l'
  end.

Definition buildSanitizedFromSource (source : option obj) : M obj :=
  let* vars := gets config_variables in
  forEach (sanitize_key vars source) [] (keys vars).

(** ** Serializer *)

Definition nl : string := String "010"%char "".
Definition dquote : string := String "034"%char "".
Definition backslash : string := String "092"%char "".

Definition hex_digit (n : nat) : ascii :=
  if (n <? 10)%nat then ascii_of_nat (48 + n) else ascii_of_nat (87 + n).

(** The escape [JSON.stringify] writes for one code unit of a string. *)
Definition escape_char (c : ascii) : string :=
  let n := nat_of_ascii c in
  if (n =? 34)%nat then backslash +:+ dquote
  else if (n =? 92)%nat then backslash +:+ backslash
  else if (n =? 8)%nat then backslash +:+ "b"
  else if (n =? 9)%nat then backslash +:+ "t"
  else if (n =? 10)%nat then backslash +:+ "n"
  else if (n =? 12)%nat then backslash +:+ "f"
  else if (n =? 13)%nat then backslash +:+ "r"
  else if (n <? 32)%nat
       then backslash +:+ "u00"
            +:+ String (hex_digit (n / 16)) (String (hex_digit (n mod 16)) "")
  else String c "".

Fixpoint escape (s : string) : string :=
  match s with
  | EmptyString => ""
  | String c s' => escape_char c +:+ escape s'
  end.

Definition quote (s : string) : string := dquote +:+ escape s +:+ dquote.

(** The value [JSON.stringify] serialises: an [undefined] property is
    left out, an [undefined] array element becomes [null]. *)
Fixpoint to_json (j : json) : json :=
  match j with
  | TPrim PUndef => jnull
  | TPrim p => TPrim p
  | TArr l => TArr (map to_json l)
  | TObj ps =>
      TObj ((fix props (ps : list (string * json)) : list (string * json) :=
               match ps with
               | [] => []
               | (k, v) :: r =>
                   match v with
                   | TPrim PUndef => props r
                   | _ => (k, to_json v) :: props r
                   end
               end) ps)
  end.

(** [JSON.stringify(j, null, 2)] of a value without [undefined], at the
    indentation [ind]. *)
Fixpoint stringify (ind : string) (j : json) : string :=
  let ind' := ind +:+ "  " in
  match j with
  | TPrim PUndef | TPrim PNull => "null"
  | TPrim (PBool b) => if b then "true" else "false"
  | TPrim (PNum n) => pretty n
  | TPrim (PStr s) => quote s
  | TArr [] => "[]"
  | TArr l =>
      "[" +:+ nl
      +:+ String.concat ("," +:+ nl) (map (fun e => ind' +:+ stringify ind' e) l)
      +:+ nl +:+ ind +:+ "]"
  | TObj [] => "{}"
  | TObj ps =>
      "{" +:+ nl
      +:+ String.concat ("," +:+ nl)
            (map (fun kv : string * json =>
                    ind' +:+ quote (fst kv) +:+ ": " +:+ stringify ind' (snd kv))
                 ps)
      +:+ nl +:+ ind +:+ "}"
  end.

Definition JSON_stringify_2 (j : json) : string := stringify "" (to_json j).

(** *** The array-collapsing replacement of [prettyPrintJSON] *)

(** The space class of regular expressions, which is also what [trim]
    removes, over 8-bit code units. *)
Definition is_space (c : ascii) : bool :=
  let n := nat_of_ascii c in
  ((9 <=? n) && (n <=? 13) || (n =? 32) || (n =? 160))%nat.

Definition is_bracket (c : ascii) : bool :=
  let n := nat_of_ascii c in
  ((n =? 91) || (n =? 93) || (n =? 123) || (n =? 125))%nat.

Fixpoint skip_spaces (s : string) : string :=
  match s with
  | String c s' => if is_space c then skip_spaces s' else s
  | EmptyString => s
  end.

(** The closing part of the pattern at the head of [s]: a newline, any
    run of spaces, a closing square bracket.  The result is the text after
    it. *)
Definition match_close (s : string) : option string :=
  match s with
  | String c r =>
      if (nat_of_ascii c =? 10)%nat
      then match skip_spaces r with
           | String d r' => if (nat_of_ascii d =? 93)%nat then Some r' else None
           | EmptyString => None
           end
      else None
  | EmptyString => None
  end.

(** The lazy second group (characters other than square brackets and
    braces) followed by the closing part: the shortest bracket-free prefix
    after which [match_close] succeeds. *)
Fixpoint match_inner (s : string) : option (string * string) :=
  match match_close s with
  | Some r => Some ("", r)
  | None =>
      match s with
      | String c s' =>
          if is_bracket c then None
          else match match_inner s' with
               | Some (inner, r) => Some (String c inner, r)
               | None => None
               end
      | EmptyString => None
      end
  end.

(** The greedy first group (a run of spaces) followed by the rest of the
    pattern: the longest run is tried first, shorter ones on failure.  The
    result is (indent, inner, rest). *)
Fixpoint match_body (s : string) : option (string * string * string) :=
  let here :=
    match match_inner s with
    | Some (inner, r) => Some ("", inner, r)
    | None => None
    end in
  match s with
  | String c s' =>
      if is_space c
      then match match_body s' with
           | Some (indent, inner, r) => Some (String c indent, inner, r)
           | None => here
           end
      else here
  | EmptyString => here
  end.

(** The whole pattern at the head of [s]: an opening square bracket and a
    newline, then the two groups and the closing part. *)
Definition match_array (s : string) : option (string * string * string) :=
  match s with
  | String c (String d r) =>
      if ((nat_of_ascii c =? 91) && (nat_of_ascii d =? 10))%nat
      then match_body r else None
  | _ => None
  end.

(** The first replacement of the callback: every newline with the spaces
    after it becomes one blank.  [skipping] holds inside the spaces of a
    match. *)
Fixpoint join_lines (skipping : bool) (s : string) : string :=
  match s with
  | EmptyString => ""
  | String c s' =>
      if skipping && is_space c then join_lines true s'
      else if (nat_of_ascii c =? 10)%nat then String " " (join_lines true s')
      else String c (join_lines false s')
  end.

(** The second replacement of the callback: every comma with the spaces
    after it becomes a comma and one blank. *)
Fixpoint space_commas (skipping : bool) (s : string) : string :=
  match s with
  | EmptyString => ""
  | String c s' =>
      if skipping && is_space c then space_commas true s'
      else if (nat_of_ascii c =? 44)%nat
           then String "," (String " " (space_commas true s'))
      else String c (space_commas false s')
  end.

Fixpoint trim_end (s : string) : string :=
  match s with
  | EmptyString => ""
  | String c s' =>
      match trim_end s' with
      | EmptyString => if is_space c then "" else String c ""
      | t => String c t
      end
  end.

(** [.trim()]. *)
Definition trim (s : string) : string := trim_end (skip_spaces s).

(** The replacement callback. *)
Definition one_line (inner : string) : string :=
  let oneLine := trim (space_commas false (join_lines false inner)) in
  if String.eqb oneLine "" then "[]" else "[" +:+ oneLine +:+ "]".

(** The global replacement: matches are taken left to right and do not
    overlap; [skip] counts the characters of the current match still to be
    passed over. *)
Fixpoint collapse_arrays (skip : nat) (s : string) : string :=
  match s with
  | EmptyString => ""
  | String c s' =>
      match skip with
      | S n => collapse_arrays n s'
      | O =>
          match match_array s with
          | Some (_, inner, r) =>
              one_line inner
              +:+ collapse_arrays (String.length s' - String.length r) s'
          | None => String c (collapse_arrays 0 s')
          end
      end
  end.

Definition prettyPrintJSON (j : json) : string :=
  collapse_arrays 0 (JSON_stringify_2 j).

(** *** [JSON.parse]

    The reader of the language for the texts above: objects, arrays,
    strings with their escapes, integers, [true], [false], [null].  A text
    that is not JSON, or holds a number that is not an integer literal
    below [2^1023], or an escape above the 8-bit range, gives [None].  The
    members of an object are its own properties, a repeated name keeping
    its first place and its last value.  [fuel] bounds the nesting
    depth and the number of members, and the length of the text is
    always enough. *)

Definition is_json_space (c : ascii) : bool :=
  let n := nat_of_ascii c in
  ((n =? 9) || (n =? 10) || (n =? 13) || (n =? 32))%nat.

Fixpoint skip_json_spaces (s : string) : string :=
  match s with
  | String c s' => if is_json_space c then skip_json_spaces s' else s
  | EmptyString => s
  end.

Definition hex_value (c : ascii) : option nat :=
  let n := nat_of_ascii c in
  if ((48 <=? n) && (n <=? 57))%nat then Some (n - 48)%nat
  else if ((97 <=? n) && (n <=? 102))%nat then Some (n - 87)%nat
  else if ((65 <=? n) && (n <=? 70))%nat then Some (n - 55)%nat
  else None.

(** The characters of a string literal after its opening quote, up to the
    closing quote; the result is (contents, rest). *)
Fixpoint parse_string_body (s : string) : option (string * string) :=
  let cons (c : ascii) (r : option (string * string)) :=
    match r with
    | Some (t, rest) => Some (String c t, rest)
    | None => None
    end in
  match s with
  | EmptyString => None
  | String c r =>
      let n := nat_of_ascii c in
      if (n =? 34)%nat then Some ("", r)
      else if (n =? 92)%nat then
        match r with
        | String e r' =>
            let m := nat_of_ascii e in
            if (m =? 34)%nat then cons "034"%char (parse_string_body r')
            else if (m =? 92)%nat then cons "092"%char (parse_string_body r')
            else if (m =? 47)%nat then cons "/"%char (parse_string_body r')
            else if (m =? 98)%nat then cons "008"%char (parse_string_body r')
            else if (m =? 102)%nat then cons "012"%char (parse_string_body r')
            else if (m =? 110)%nat then cons "010"%char (parse_string_body r')
            else if (m =? 114)%nat then cons "013"%char (parse_string_body r')
            else if (m =? 116)%nat then cons "009"%char (parse_string_body r')
            else if (m =? 117)%nat then
              match r' with
              | String h1 (String h2 (String h3 (String h4 r''))) =>
                  match hex_value h1, hex_value h2, hex_value h3, hex_value h4 with
                  | Some 0%nat, Some 0%nat, Some a, Some b =>
                      cons (ascii_of_nat (16 * a + b)) (parse_string_body r'')
                  | _, _, _, _ => None
                  end
              | _ => None
              end
            else None
        | EmptyString => None
        end
      else if (n <? 32)%nat then None
      else cons c (parse_string_body r)
  end.

(** A run of decimal digits; the result is (value, rest). *)
Fixpoint parse_digits (acc : Z) (s : string) : Z * string :=
  match s with
  | String c s' =>
      if is_digit c
      then parse_digits (10 * acc + Z.of_nat (nat_of_ascii c - 48)) s'
      else (acc, s)
  | EmptyString => (acc, s)
  end.

(** An integer literal: an optional minus sign, then [0] or a run of
    digits without a leading zero; a fraction or an exponent after it is
    refused, and so is a literal from [2^1023] on.  The value is the
    number of the language nearest to the literal. *)
Definition parse_number (s : string) : option (Z * string) :=
  let unsigned (s : string) : option (Z * string) :=
    match s with
    | String c r =>
        if (nat_of_ascii c =? 48)%nat then Some (0%Z, r)
        else if is_digit c then Some (parse_digits 0 s)
        else None
    | EmptyString => None
    end in
  let checked (sign : Z) (r : option (Z * string)) : option (Z * string) :=
    match r with
    | Some (n, String c rest) =>
        let m := nat_of_ascii c in
        if (is_digit c || (m =? 46) || (m =? 101) || (m =? 69))%nat
           || negb (n <? 2 ^ 1023)%Z
        then None
        else Some ((sign * round53 n)%Z, String c rest)
    | Some (n, EmptyString) =>
        if (n <? 2 ^ 1023)%Z then Some ((sign * round53 n)%Z, "") else None
    | None => None
    end in
  match s with
  | String c r =>
      if (nat_of_ascii c =? 45)%nat then checked (-1)%Z (unsigned r)
      else checked 1%Z (unsigned s)
  | EmptyString => None
  end.

Fixpoint parse_value (fuel : nat) (s : string) : option (json * string) :=
  match fuel with
  | O => None
  | S f =>
      match skip_json_spaces s with
      | EmptyString => None
      | String c r as s0 =>
          let n := nat_of_ascii c in
          if (n =? 34)%nat then
            match parse_string_body r with
            | Some (t, rest) => Some (jstr t, rest)
            | None => None
            end
          else if (n =? 91)%nat then
            match skip_json_spaces r with
            | String d r' =>
                if (nat_of_ascii d =? 93)%nat then Some (TArr [], r')
                else
                  (fix elements (m : nat) (s : string)
                     : option (json * string) :=
                     match m with
                     | O => None
                     | S m' =>
                         match parse_value f s with
                         | Some (v, rest) =>
                             match skip_json_spaces rest with
                             | String e rest' =>
                                 if (nat_of_ascii e =? 93)%nat
                                 then Some (TArr [v], rest')
                                 else if (nat_of_ascii e =? 44)%nat then
                                   match elements m' rest' with
                                   | Some (TArr vs, rest'') =>
                                       Some (TArr (v :: vs), rest'')
                                   | _ => None
                                   end
                                 else None
                             | EmptyString => None
                             end
                         | None => None
                         end
                     end) f (String d r')
            | EmptyString => None
            end
          else if (n =? 123)%nat then
            match skip_json_spaces r with
            | String d r' =>
                if (nat_of_ascii d =? 125)%nat then Some (TObj [], r')
                else
                  (fix members (m : nat) (acc : list (string * json))
                     (s : string) : option (json * string) :=
                     match m with
                     | O => None
                     | S m' =>
                         match skip_json_spaces s with
                         | String q s1 =>
                             if (nat_of_ascii q =? 34)%nat then
                               match parse_string_body s1 with
                               | Some (k, s2) =>
                                   match skip_json_spaces s2 with
                                   | String colon s3 =>
                                       if (nat_of_ascii colon =? 58)%nat then
                                         match parse_value f s3 with
                                         | Some (v, rest) =>
                                             let acc' := assoc_set k v acc in
                                             match skip_json_spaces rest with
                                             | String e rest' =>
                                                 if (nat_of_ascii e =? 125)%nat
                                                 then Some (TObj acc', rest')
                                                 else if (nat_of_ascii e =? 44)%nat
                                                 then members m' acc' rest'
                                                 else None
                                             | EmptyString => None
                                             end
                                         | None => None
                                         end
                                       else None
                                   | EmptyString => None
                                   end
                               | None => None
                               end
                             else None
                         | EmptyString => None
                         end
                     end) f [] (String d r')
            | EmptyString => None
            end
          else
            match strip_prefix "null" s0, strip_prefix "true" s0,
                  strip_prefix "false" s0 with
            | Some rest, _, _ => Some (jnull, rest)
            | _, Some rest, _ => Some (jbool true, rest)
            | _, _, Some rest => Some (jbool false, rest)
            | None, None, None =>
                match parse_number s0 with
                | Some (z, rest) => Some (jnum z, rest)
                | None => None
                end
            end
      end
  end.

Definition JSON_parse (s : string) : option json :=
  match parse_value (S (String.length s)) s with
  | Some (j, rest) =>
      match skip_json_spaces rest with
      | EmptyString => Some j
      | String _ _ => None
      end
  | None => None
  end.

(** ** State store *)

(** The tree of a whole state object in a heap. *)
Definition reify (h : list json) (o : obj) : json :=
  TObj (map (fun kv : string * value => (fst kv, deref h (snd kv))) o).

(** The document [JSON.stringify(o)] denotes. *)
Definition snapshot (h : list json) (o : obj) : list (string * json) :=
  match to_json (reify h o) with
  | TObj ps => ps
  | _ => []
  end.

(** The names every plain object inherits from [Object.prototype]. *)
Definition inherited_names : list string :=
  ["constructor"; "__defineGetter__"; "__defineSetter__"; "hasOwnProperty";
   "__lookupGetter__"; "__lookupSetter__"; "isPrototypeOf";
   "propertyIsEnumerable"; "toString"; "valueOf"; "__proto__";
   "toLocaleString"].

Definition inherited (k : string) : bool :=
  existsb (String.eqb k) inherited_names.

(** [o[k]] for a state object [o], whose prototype is [Object.prototype]:
    the own property if there is one, else the inherited member, else
    [undefined]. *)
Definition prop_get (k : string) (o : obj) : value :=
  match assoc_get k o with
  | Some v => v
  | None => if inherited k then VBuiltin k else VPrim PUndef
  end.

Definition saveUserState : M unit :=
  fun st =>
    if storage_writable st
    then (Ok tt, set_storage_user (Some (snapshot (heap st) (variables st))) st)
    else (Ok tt, st).

Definition loadUserState : M (option (list (string * json))) :=
  gets storage_user.

Definition saveDefaultsToStorage : M unit :=
  fun st =>
    if storage_writable st
    then (Ok tt,
          set_storage_defaults (Some (snapshot (heap st) (defaults st))) st)
    else (Ok tt, st).

Definition updatePreview : M unit :=
  (fun st =>
     (Ok tt,
      set_jsonPreview (prettyPrintJSON (reify (heap st) (variables st))) st))
  >> saveUserState.

(** The run-time object [JSON.parse] builds for a document, and
    [structuredClone] of it: every array or object value is a new one. *)
Fixpoint materialize (doc : list (string * json)) : M obj :=
  match doc with
  | [] => ret []
  | (k, t) :: doc' =>
      let* v := fresh t in
      let* o := materialize doc' in
      ret ((k, v) :: o)
  end.

(** [structuredClone(o)] of a state object. *)
Fixpoint structuredClone (o : obj) : M obj :=
  match o with
  | [] => ret []
  | (k, v) :: o' =>
      let* h := gets heap in
      let* v' := fresh (deref h v) in
      let* c := structuredClone o' in
      ret ((k, v') :: c)
  end.

(** *** Rendering: the writes and exceptions of the control builders *)

Definition lower_char (c : ascii) : ascii :=
  let n := nat_of_ascii c in
  if ((65 <=? n) && (n <=? 90)
      || (192 <=? n) && (n <=? 222) && negb (n =? 215))%nat
  then ascii_of_nat (n + 32) else c.

(** [s.toLowerCase()]. *)
Fixpoint toLowerCase (s : string) : string :=
  match s with
  | EmptyString => ""
  | String c s' => String (lower_char c) (toLowerCase s')
  end.

(** [s.includes(t)]. *)
Fixpoint includes (s t : string) : bool :=
  match strip_prefix t s with
  | Some _ => true
  | None =>
      match s with
      | EmptyString => false
      | String _ s' => includes s' t
      end
  end.

(** [x && x.toLowerCase().includes(term)] for a field [x] of a
    descriptor: a truthy value that is not a string has no
    [toLowerCase]. *)
Definition text_match (x : json) (term : string) : M bool :=
  match x with
  | TPrim (PStr t) =>
      ret (negb (String.eqb t "") && includes (toLowerCase t) term)
  | _ => if truthy x then throw TypeError else ret false
  end.

Definition matchesSearch (key : string) (desc : json) (searchTerm : string)
  : M bool :=
  if String.eqb searchTerm "" then ret true
  else if is_section desc then ret false
  else
    let term := toLowerCase searchTerm in
    let keyMatch := includes (toLowerCase key) term in
    let* labelMatch :=
      (if truthy desc then text_match (field desc "label") term
       else ret false) in
    let* helpMatch :=
      (if truthy desc then text_match (field desc "help") term
       else ret false) in
    ret (keyMatch || labelMatch || helpMatch).

(** What a [select] element reports after [select.value = initial]: the
    value of the first option equal to [initial], and the empty string
    when there is none. *)
Definition select_value (options : list string) (initial : string) : string :=
  if existsb (String.eqb initial) options then initial else "".

(** A conversion to a string made for a property of an element
    ([textContent], [value], [min], a template literal): only whether it
    throws matters to the state. *)
Definition to_text (j : json) : M unit :=
  if unprintable j then throw TypeError else ret tt.

(** The same for a run-time value, and [Number(v)] as well: a built-in
    object converts without an exception. *)
Definition to_text_value (v : value) : M unit :=
  match v with
  | VRef _ => let* h := gets heap in to_text (deref h v)
  | _ => ret tt
  end.

(** [String(v)] for a run-time value; the text of a built-in function is
    not modelled. *)
Definition String_value (v : value) : M string :=
  match v with
  | VBuiltin name =>
      if String.eqb name "__proto__" then ret "[object Object]"
      else throw OutOfModel
  | _ => let* h := gets heap in lift (String_ (deref h v))
  end.

(** The element count captured by the inputs of a number array:
    [desc.count || (Array.isArray(value) ? value.length : 2)]. *)
Definition array_count (h : list json) (desc : json) (value : value) : json :=
  or_else (field desc "count")
          (match deref h value with
           | TArr l => jnum (Z.of_nat (length l))
           | _ => jnum 2
           end).

(** The number of times [for(let i=0;i<count;i++)] runs its body.  The
    comparison converts [count] to a number; the numbers a text or an
    array convert to are not modelled. *)
Definition loop_count (count : json) : res nat :=
  match count with
  | TPrim (PNum n) => Ok (Z.to_nat n)
  | TPrim (PBool b) => Ok (if b then 1%nat else 0%nat)
  | TPrim PUndef => Ok 0%nat
  | TPrim PNull => Ok 0%nat
  | TPrim (PStr s) => if String.eqb s "" then Ok 0%nat else Throw OutOfModel
  | TArr l => if unprintable count then Throw TypeError else Throw OutOfModel
  | TObj _ => if unprintable count then Throw TypeError else Ok 0%nat
  end.

(** The initial value of the [select] of a choice whose first option is
    [first]: the text of [value] unless [value] is [undefined], [null] or
    has the empty text, else the text of [desc.default] when that is
    defined, else the first option. *)
Definition initial_value (value : value) (desc : json) (first : string)
  : M string :=
  let from_default : M string :=
    if is_defined (field desc "default")
    then lift (String_ (field desc "default")) else ret first in
  match value with
  | VPrim PUndef | VPrim PNull => from_default
  | _ =>
      let* text := String_value value in
      if negb (String.eqb text "") then String_value value
      else from_default
  end.

(** [makeControl(key, value, desc)]: the conversions that can throw, in
    the order of the source, and the one write to the state, by the
    branch for a choice with resolved options (the initial value of its
    [select]).  The rest builds elements and registers handlers; the
    closing [updateModifiedStatus] only toggles a class of the row. *)
Definition makeControl (key : string) (value : value) (desc : json) : M unit :=
  (if truthy desc && truthy (field desc "label")
   then to_text (field desc "label") else ret tt) >>
  (if truthy desc && truthy (field desc "help")
   then to_text (field desc "help") else ret tt) >>
  if truthy desc && type_is desc "boolean" then ret tt
  else if truthy desc && type_is desc "choice" then
    let* choices := lift (getChoices desc) in
    match choices with
    | [] => to_text_value value
    | first :: rest =>
        let* initial := initial_value value desc first in
        let* vs := gets variables in
        let* vs' :=
          lift (own_set key
                  (VPrim (PStr (select_value (first :: rest) initial))) vs) in
        modify (set_variables vs')
    end
  else if truthy desc && type_is desc "number"
          && (match field desc "input" with
              | TPrim (PStr s) => String.eqb s "slider"
              | _ => false
              end) then
    to_text (coalesce (field desc "min") (jnum 0)) >>
    to_text (coalesce (field desc "max") (jnum 100)) >>
    to_text (coalesce (field desc "step") (jnum 1)) >>
    (match value with
     | VPrim PUndef | VPrim PNull =>
         to_text (coalesce (field desc "min") (jnum 0))
     | _ => to_text_value value
     end)
  else if truthy desc && type_is desc "number_array" then
    let* h := gets heap in
    let* n := lift (loop_count (array_count h desc value)) in
    forEach (fun _ (i : nat) =>
               to_text (coalesce (field desc "step") (jnum 1)) >>
               to_text (coalesce (field desc "min") (jstr "")) >>
               to_text (coalesce (field desc "max") (jstr "")) >>
               match deref h value with
               | TArr a =>
                   match a !! i with Some x => to_text x | None => ret tt end
               | _ => ret tt
               end)
            tt (seq 0 n)
  else ret tt.

(** The body of the [forEach] of [renderControlsForVariables].  A section
    is built (its title and help converted to text) only when no search
    is active; a row the search hides is not built. *)
Definition render_key (vars : list (string * json)) (k : string) : M unit :=
  let desc := or_else (descriptor vars k) (TObj []) in
  let* term := gets currentSearchTerm in
  if type_is desc "section" then
    if String.eqb term "" then
      to_text (or_else (field desc "label") (jstr "Section")) >>
      (if truthy (field desc "help") then to_text (field desc "help")
       else ret tt)
    else ret tt
  else
    let* shown := matchesSearch k desc term in
    if negb shown then ret tt
    else
      let* vs := gets variables in
      let* val :=
        (match prop_get k vs with
         | VPrim PUndef => defaultFor desc
         | v => ret v
         end) in
      makeControl k val desc.

Definition renderControlsForVariables : M unit :=
  let* vars := gets config_variables in
  forEach (fun _ k => render_key vars k) tt (keys vars).

(** *** Editing one element of a number array *)

(** [variables[key] = v]. *)
Definition set_variable (key : string) (v : value) : M unit :=
  let* vs := gets variables in
  let* vs' := lift (own_set key v vs) in
  modify (set_variables vs').

(** [a[idx] = x] on an array: a write past the end extends the array,
    the positions in between being empty. *)
Definition write_index (a : list json) (idx : nat) (x : json) : list json :=
  if (idx <? length a)%nat then <[idx := x]> a
  else a ++ replicate (idx - length a) undefined ++ [x].

(** [v[idx] = x] for any value [v]: a [TypeError] on [undefined] and
    [null], nothing on another primitive (the script is not in strict
    mode); a write on a built-in object leaves the model. *)
Definition store_index (v : value) (idx : nat) (x : json) : M unit :=
  match v with
  | VPrim PUndef | VPrim PNull => throw TypeError
  | VPrim _ => ret tt
  | VBuiltin _ => throw OutOfModel
  | VRef l =>
      let* h := gets heap in
      match h !! l with
      | Some (TArr a) => modify (set_heap (<[l := TArr (write_index a idx x)]> h))
      | Some (TObj ps) =>
          modify (set_heap (<[l := TObj (assoc_set (pretty idx) x ps)]> h))
      | _ => ret tt
      end
  end.

(** The [input] handler of the input at index [idx] of the number array
    [key], whose builder captured [count]; [text] is [None] for an empty
    field and the number typed otherwise.  The handler ends with
    [updateModifiedStatus], which only toggles a class of the row. *)
Definition array_input (key : string) (count : json) (idx : nat)
  (text : option Z) : M unit :=
  match text with
  | None => ret tt
  | Some n =>
      let* h := gets heap in
      let* vs := gets variables in
      (if negb (isArray h (prop_get key vs))
       then let* a := Array_fill0 count in set_variable key a
       else ret tt) >>
      let* vs' := gets variables in
      store_index (prop_get key vs') idx (jnum n) >>
      updatePreview
  end.

(** ** Loading the example and resetting *)

(** The outcome of fetching the example: a failure (rejected fetch, a
    status that is not ok, a body that is not JSON), or the parsed
    document, [None] for [null]. *)
Inductive fetched : Type :=
| FetchFailed
| FetchOk (doc : option (list (string * json))).

Definition loadExampleAndApply (r : fetched) : M unit :=
  try_catch
    (match r with
     | FetchFailed => throw Error
     | FetchOk doc =>
         let* src :=
           (match doc with
            | Some d => let* o := materialize d in ret (Some o)
            | None => ret None
            end) in
         let* v := buildSanitizedFromSource src in
         modify (set_variables v) >>
         let* d := buildSanitizedFromSource src in
         modify (set_defaults d) >>
         saveDefaultsToStorage >>
         updatePreview >>
         renderControlsForVariables >>
         modify (set_status "Example loaded (sanitized to configured keys).")
     end)
    (let* v := buildSanitizedFromSource None in
     modify (set_variables v) >>
     let* d := buildSanitizedFromSource None in
     modify (set_defaults d) >>
     saveDefaultsToStorage >>
     updatePreview >>
     renderControlsForVariables >>
     modify (set_status "Example loaded.")).

Definition resetToDefaults : M unit :=
  let* saved := loadUserState in
  (match saved with
   | Some doc =>
       let* o := materialize doc in
       modify (set_variables o) >>
       modify (set_status "Restored last used state (from this tab).")
   | None =>
       let* d := gets defaults in
       let* o := structuredClone d in
       modify (set_variables o) >>
       modify (set_status "Reset to defaults.")
   end) >>
  updatePreview >>
  renderControlsForVariables.

(** ** Notions used by the statements *)


(** [st'] is [st] with new cells at the end of the heap and nothing else
    changed. *)
Definition extends (st st' : app) : Prop :=
  exists cells, st' = set_heap (heap st ++ cells) st.

(** A value whose reference, if any, points into the heap. *)
Definition valid (h : list json) (v : value) : Prop :=
  match v with
  | VPrim _ => True
  | VRef l => (l < length h)%nat
  | VBuiltin _ => True
  end.

(** The tree of the value [defaultFor] returns, or the exception it
    throws ([defaultFor_tree] below relates the two). *)
Definition default_tree (desc : json) : res json :=
  if negb (truthy desc) then Ok jnull
  else if is_defined (field desc "default") then Ok (field desc "default")
  else if type_is desc "boolean" then Ok (jbool false)
  else if type_is desc "number" then Ok (jnum 0)
  else if type_is desc "number_array" then
         match or_else (field desc "count") (jnum 2) with
         | TPrim (PNum n) =>
             if ((0 <=? n) && (n <? 2 ^ 32))%Z
             then Ok (TArr (replicate (Z.to_nat n) zero))
             else Throw RangeError
         | _ => Ok (TArr [zero])
         end
  else if type_is desc "string" then Ok (jstr "")
  else if type_is desc "choice" then
         match getChoices desc with
         | Ok (c :: _) => Ok (jstr c)
         | Ok [] => Ok (jstr "")
         | Throw e => Throw e
         end
  else Ok jnull.

(** [source && hasOwnProperty.call(source, k)], then [source[k]]. *)
Definition source_get (source : option obj) (k : string) : option value :=
  match source with
  | Some src => assoc_get k src
  | None => None
  end.

(** The state right after [loadConfig]: the configuration read, the two
    state objects and the heap empty, the session storage as found. *)
Definition loaded (vars : list (string * json))
  (user defs : option (list (string * json))) : app :=
  mkApp vars [] [] [] user defs true "" "" "".

(** [o] with every value replaced by the value [O] holds under the same
    key. *)
Definition retag (O o : obj) : obj :=
  map (fun kv : string * value => (fst kv, prop_get (fst kv) O)) o.

(** A configuration with one number array of two elements, an example
    document giving it the value [1, 2], the state after the example is
    loaded, and the state after 9 is then typed in the first input. *)
Definition demo_config : list (string * json) :=
  [("a", TObj [("type", jstr "number_array"); ("count", jnum 2)])].

Definition demo_example : list (string * json) :=
  [("a", TArr [jnum 1; jnum 2])].

Definition demo_loaded : app :=
  snd (loadExampleAndApply (FetchOk (Some demo_example))
         (loaded demo_config None None)).

Definition demo_edited : app :=
  snd (array_input "a"
         (array_count (heap demo_loaded) (descriptor demo_config "a")
                      (prop_get "a" (variables demo_loaded)))
         0 (Some 9%Z) demo_loaded).

(** A configuration that lists the name [__proto__] as a variable, as
    the text of a configuration file can; and one that gives it an
    element count that is not an array length. *)
Definition proto_config : list (string * json) :=
  [("__proto__", TObj [("type", jstr "number")]);
   ("n", TObj [("type", jstr "number")])].

Definition proto_array_config : list (string * json) :=
  [("__proto__", TObj [("type", jstr "number_array"); ("count", jnum (-1))])].

(** A number array for which the example document gives [null], and the
    state after that example is loaded. *)
Definition null_array_config : list (string * json) :=
  [("a", TObj [("type", jstr "number_array")])].

Definition null_array_loaded : app :=
  snd (loadExampleAndApply (FetchOk (Some [("a", jnull)]))
         (loaded null_array_config None None)).

(** [doc[k]] for a document. *)
Definition doc_get (k : string) (doc : list (string * json)) : json :=
  match assoc_get k doc with Some t => t | None => undefined end.


(** A tree that rendering leaves alone under the key [k]: any tree when
    the descriptor of [k] is not a choice, and for a choice a non-empty
    string that is one of its resolved choices. *)
Definition settled (vars : list (string * json)) (k : string) (t : json)
  : Prop :=
  type_is (descriptor vars k) "choice" = false
  \/ exists s l, t = jstr s /\ s <> ""
                 /\ getChoices (descriptor vars k) = Ok l /\ In s l.

(** The tree of a primitive value; a reference has none. *)
Definition immediate (v : value) : json :=
  match v with
  | VPrim p => TPrim p
  | VRef _ => undefined
  | VBuiltin _ => undefined
  end.

(** A value a state object or a document can hold: not a member of the
    prototype. *)
Definition plain (v : value) : Prop :=
  match v with
  | VBuiltin _ => False
  | _ => True
  end.

(** A computation that leaves the state alone, whatever it returns. *)
Definition stateless {A} (m : M A) : Prop := forall st, snd (m st) = st.

(** What rendering may change: new cells on the heap, and the variables
    that are not settled. *)
Definition render_frame (vars : list (string * json)) (st st' : app) : Prop :=
  (exists cells, heap st' = heap st ++ cells)
  /\ defaults st' = defaults st
  /\ status st' = status st
  /\ config_variables st' = config_variables st
  /\ currentSearchTerm st' = currentSearchTerm st
  /\ forall k, settled vars k (immediate (prop_get k (variables st))) ->
               prop_get k (variables st') = prop_get k (variables st).





(** ** Patching a pack: the entry to write *)

(** [s.endsWith(suffix)]. *)
Fixpoint endsWith (s suffix : string) : bool :=
  if String.eqb s suffix then true
  else
    match s with
    | String _ s' => endsWith s' suffix
    | EmptyString => false
    end.

(** [s.startsWith(prefix)]. *)
Definition startsWith (s prefix : string) : bool :=
  match strip_prefix prefix s with
  | Some _ => true
  | None => false
  end.

(** [s.split(sep)[0]] for a separator that is not empty: the text before
    the first occurrence of [sep], all of [s] when there is none. *)
Fixpoint before_first (sep s : string) : string :=
  match strip_prefix sep s with
  | Some _ => ""
  | None =>
      match s with
      | String c s' => String c (before_first sep s')
      | EmptyString => ""
      end
  end.

Definition pack_entry : string := "ui/_global_variables.json".

(** The test of the second loop of the upload handler. *)
Definition in_ui_folder (path : string) : bool :=
  includes path "/ui/" || startsWith path "ui/".

(** The two loops of the upload handler over [Object.keys(loadedZip.files)]:
    the first path that ends with the entry name; failing that, the entry
    name under the folder of the first path inside a [ui] folder; [None]
    when the handler throws for want of a [ui] folder. *)
Definition findTargetPath (files : list string) : option string :=
  match List.find (fun path => endsWith path pack_entry) files with
  | Some path => Some path
  | None =>
      match List.find in_ui_folder files with
      | Some path =>
          let first := before_first "/ui/" path in
          Some (first +:+ (if String.eqb first "" then "" else "/")
                +:+ pack_entry)
      | None => None
      end
  end.

(** ** Loading the configuration *)

(** The global [config]: its page name and its [variables], whatever
    values the file gave them. *)
Record config : Type := mkConfig {
  pageName : json;
  cfg_variables : json
}.

(** The outcome of fetching the configuration: a failure, or the parsed
    document. *)
Inductive fetched_config : Type :=
| ConfigFailed
| ConfigOk (raw : json).

(** The loop over [Object.keys(raw)] for the old flat shape: [pn] is
    [copy.pageName] and [vars] is [copy.variables]. *)
Fixpoint flat_copy (raw : json) (ks : list string) (pn : json)
  (vars : list (string * json)) : res (json * list (string * json)) :=
  match ks with
  | [] => Ok (pn, vars)
  | k :: ks' =>
      if String.eqb k "pageName"
      then flat_copy raw ks' (field raw "pageName") vars
      else res_bind (own_set_tree k (field raw k) vars)
                    (flat_copy raw ks' pn)
  end.

(** [pageTitle.textContent = config.pageName || pageTitle.textContent]
    ends the [try] block: when the conversion of the page name throws,
    the [catch] keeps the page name just assigned and empties the
    variables. *)
Definition titled (c : config) : config :=
  if truthy (pageName c) && unprintable (pageName c)
  then mkConfig (pageName c) (TObj []) else c.

(** [loadConfig], as a function of the fetch and of the configuration in
    place.  [raw.variables] throws on [null], which the [catch] turns into
    the empty configuration, like a failed fetch. *)
Definition loadConfig (r : fetched_config) (current : config)
  : res config :=
  match r with
  | ConfigFailed => Ok (mkConfig (pageName current) (TObj []))
  | ConfigOk (TPrim PUndef) | ConfigOk (TPrim PNull) =>
      Ok (mkConfig (pageName current) (TObj []))
  | ConfigOk raw =>
      if truthy (field raw "variables")
      then Ok (titled (mkConfig (field raw "pageName")
                                (field raw "variables")))
      else
        res_map (fun copy =>
                   titled (mkConfig (or_else (fst copy) (pageName current))
                                    (TObj (snd copy))))
                (flat_copy raw (object_keys raw) undefined [])
  end.

(** A document whose top-level names are ordinary: none is [__proto__],
    and none is written as an array index (the names the enumeration
    moves to the front). *)
Definition plain_names (ps : list (string * json)) : Prop :=
  forall k, In k (keys ps) -> k <> "__proto__" /\ array_index k = None.

(** The test of the loop of the flat shape. *)
Definition not_pageName (kv : string * json) : bool :=
  negb (String.eqb (fst kv) "pageName").

(** [config.variables || {}] as the property list the rest of the script
    walks. *)
Definition variables_of (c : config) : list (string * json) :=
  own_props (or_else (cfg_variables c) (TObj [])).

(** ** Modified rows *)

(** [JSON.stringify(j)] of a value without [undefined]. *)
Fixpoint stringify_compact (j : json) : string :=
  match j with
  | TPrim PUndef | TPrim PNull => "null"
  | TPrim (PBool b) => if b then "true" else "false"
  | TPrim (PNum n) => pretty n
  | TPrim (PStr s) => quote s
  | TArr l => "[" +:+ String.concat "," (map stringify_compact l) +:+ "]"
  | TObj ps =>
      "{" +:+ String.concat ","
                (map (fun kv : string * json =>
                        quote (fst kv) +:+ ":" +:+ stringify_compact (snd kv))
                     ps)
      +:+ "}"
  end.

(** [JSON.stringify(j)]: [undefined] has no text. *)
Definition JSON_stringify (j : json) : option string :=
  match j with
  | TPrim PUndef => None
  | _ => Some (stringify_compact (to_json j))
  end.

(** [a !== b] on what [JSON.stringify] returns. *)
Definition text_differs (a b : option string) : bool :=
  match a, b with
  | Some s, Some t => negb (String.eqb s t)
  | None, None => false
  | _, _ => true
  end.

(** The test of [updateModifiedStatus(key, value, row)]. *)
Definition isModified (st : app) (key : string) (value : value) : bool :=
  text_differs (JSON_stringify (deref (heap st) value))
               (JSON_stringify (deref (heap st) (prop_get key (defaults st)))).

(** ** The handlers of the controls *)

(** [v[idx]] for any value [v]. *)
Definition load_index (v : value) (idx : nat) : M json :=
  match v with
  | VPrim PUndef | VPrim PNull => throw TypeError
  | VPrim (PStr s) =>
      ret (match String.get idx s with
           | Some c => jstr (String c "")
           | None => undefined
           end)
  | VPrim _ => ret undefined
  | VBuiltin _ => ret undefined
  | VRef l =>
      let* h := gets heap in
      ret (match h !! l with
           | Some (TArr a) =>
               match a !! idx with Some x => x | None => undefined end
           | Some t => field t (pretty idx)
           | None => undefined
           end)
  end.

(** One event of a control.  [text] is [None] for an empty field and the
    number typed otherwise; [desc] and [count] are what the builder of the
    control captured. *)
Inductive edit : Type :=
| BooleanChange (key : string) (checked : bool)
| SelectChange (key : string) (selected : string)
| TextInput (key : string) (text : string)
| RangeInput (key : string) (n : Z)
| NumberInput (key : string) (text : option Z)
| NumberBlur (key : string) (desc : json) (text : option Z)
| ArrayInput (key : string) (count : json) (idx : nat) (text : option Z)
| ArrayBlur (key : string) (desc : json) (idx : nat) (text : option Z).

(** The listeners [makeControl] registers.  A value put back into a
    field is converted to text.  Each listener ends with
    [updateModifiedStatus], which only toggles a class of the row. *)
Definition handle (e : edit) : M unit :=
  match e with
  | BooleanChange key checked =>
      set_variable key (VPrim (PBool checked)) >> updatePreview
  | SelectChange key selected =>
      set_variable key (VPrim (PStr selected)) >> updatePreview
  | TextInput key text =>
      set_variable key (VPrim (PStr text)) >> updatePreview
  | RangeInput key n =>
      set_variable key (VPrim (PNum n)) >> updatePreview
  | NumberInput key None => ret tt
  | NumberInput key (Some n) =>
      set_variable key (VPrim (PNum n)) >> updatePreview
  | NumberBlur key desc None =>
      let* resetVal := defaultFor desc in
      set_variable key resetVal >>
      to_text_value resetVal >>
      updatePreview
  | NumberBlur key desc (Some _) => ret tt
  | ArrayInput key count idx text => array_input key count idx text
  | ArrayBlur key desc idx None =>
      let* defArr := defaultFor desc in
      let* resetVal := load_index defArr idx in
      let* vs := gets variables in
      store_index (prop_get key vs) idx resetVal >>
      to_text resetVal >>
      updatePreview
  | ArrayBlur key desc idx (Some _) => ret tt
  end.

(** An event that leaves its handler at once: a number field emptied, or
    a field that loses focus with a number in it. *)
Definition ignored (e : edit) : bool :=
  match e with
  | NumberInput _ None | ArrayInput _ _ _ None => true
  | NumberBlur _ _ (Some _) | ArrayBlur _ _ _ (Some _) => true
  | _ => false
  end.

(** ** Start-up *)

Definition set_config_variables (vars : list (string * json)) (st : app)
  : app :=
  mkApp vars (variables st) (defaults st) (heap st) (storage_user st)
        (storage_defaults st) (storage_writable st) (status st)
        (jsonPreview st) (currentSearchTerm st).

(** [cleanSectionKeys(obj)] for an object that is not [null]: the keys the
    configuration now lists as sections are deleted. *)
Fixpoint cleanSectionKeys (vars : list (string * json))
  (doc : list (string * json)) : list (string * json) :=
  match doc with
  | [] => []
  | (k, v) :: doc' =>
      if is_section (descriptor vars k) then cleanSectionKeys vars doc'
      else (k, v) :: cleanSectionKeys vars doc'
  end.

(** [init], given the outcome of the two fetches and the configuration in
    place when the script starts. *)
Definition init (cfg : fetched_config) (current : config) (example : fetched)
  : M unit :=
  let* c := lift (loadConfig cfg current) in
  modify (set_config_variables (variables_of c)) >>
  let* vars := gets config_variables in
  let* saved := loadUserState in
  (match saved with
   | Some doc =>
       let* d := gets storage_defaults in
       (match d with
        | Some dd => let* o := materialize dd in modify (set_defaults o)
        | None => ret tt
        end) >>
       let* o := materialize (cleanSectionKeys vars doc) in
       modify (set_variables o) >>
       let* v := buildSanitizedFromSource (Some o) in
       modify (set_variables v) >>
       let* defs := gets defaults in
       (match keys defs with
        | [] => loadExampleAndApply example
        | _ :: _ =>
            updatePreview >>
            renderControlsForVariables >>
            modify (set_status "Restored last used state.")
        end)
   | None => loadExampleAndApply example
   end) >>
  modify (set_status "Ready.").

(** The preview and the persisted user state show the current
    [variables]. *)
Definition synced (st : app) : Prop :=
  jsonPreview st = prettyPrintJSON (reify (heap st) (variables st))
  /\ (storage_writable st = true ->
      storage_user st = Some (snapshot (heap st) (variables st))).

(** ** Notions used by the further statements *)

(** The statements that the two branches of [loadExampleAndApply] share,
    for the source [src] and the message [msg]. *)
Definition apply_source (src : option obj) (msg : string) : M unit :=
  let* v := buildSanitizedFromSource src in
  modify (set_variables v) >>
  let* d := buildSanitizedFromSource src in
  modify (set_defaults d) >>
  saveDefaultsToStorage >>
  updatePreview >>
  renderControlsForVariables >>
  modify (set_status msg).

(** [variables] holds exactly the keys of the configuration that are not
    sections, each once; the name [__proto__] apart, which no sanitized
    state owns. *)
Definition schema_keys (st : app) : Prop :=
  NoDup (keys (variables st))
  /\ forall k,
       In k (keys (variables st))
       <-> In k (keys (config_variables st))
           /\ is_section (descriptor (config_variables st) k) = false
           /\ k <> "__proto__".

(** The value [v] stands for the tree [t] in the heap [h], in a cell at
    [lo] or later when it is a reference. *)
Definition holds (lo : nat) (h : list json) (v : value) (t : json) : Prop :=
  valid h v /\ deref h v = t
  /\ (forall l, v = VRef l -> (lo <= l)%nat)
  /\ (forall p, t = TPrim p -> v = VPrim p).

(** [st'] has the configuration and the search term of [st], and its
    heap with new cells at the end. *)
Definition carries (st st' : app) : Prop :=
  config_variables st' = config_variables st
  /\ currentSearchTerm st' = currentSearchTerm st
  /\ exists cells, heap st' = heap st ++ cells.

(** ** The events of a session *)

Definition set_currentSearchTerm (t : string) (st : app) : app :=
  mkApp (config_variables st) (variables st) (defaults st) (heap st)
        (storage_user st) (storage_defaults st) (storage_writable st)
        (status st) (jsonPreview st) t.

(** What the user can do once the editor runs: an event of a control, the
    two buttons, and the search field ([term] is the trimmed text). *)
Inductive action : Type :=
| Edit (e : edit)
| LoadExample (r : fetched)
| Reset
| Search (term : string).

Definition perform (a : action) : M unit :=
  match a with
  | Edit e => handle e
  | LoadExample r => loadExampleAndApply r
  | Reset => resetToDefaults
  | Search term =>
      modify (set_currentSearchTerm term) >> renderControlsForVariables
  end.

(** The state after a sequence of events; a listener that throws ends,
    and the next event finds the state it left.  Events are taken one at
    a time: the fetch of [loadExampleAndApply] is over before its first
    write, and no event is taken while [init] waits for its fetches.  A
    sequence with an event that leaves the model has no state here. *)
Fixpoint run (acts : list action) (st : app) : option app :=
  match acts with
  | [] => Some st
  | a :: acts' =>
      match perform a st with
      | (Throw OutOfModel, _) => None
      | (_, st') => run acts' st'
      end
  end.

(** From [st] to [st'] the storage stays as writable as it was, and a
    persisted user state is still there. *)
Definition session_kept (st st' : app) : Prop :=
  storage_writable st' = storage_writable st
  /\ ((exists d, storage_user st = Some d) ->
      exists d, storage_user st' = Some d).

(** ** Sample data of the further statements *)

(** A configuration file in the wrapped shape around [demo_config], the
    configuration in place when the script starts, and a saved session for
    it. *)
Definition demo_fetched_config : fetched_config :=
  ConfigOk (TObj [("pageName", jstr "Demo"); ("variables", TObj demo_config)]).

Definition demo_current : config := mkConfig (jstr "Editor") (TObj []).

Definition demo_session : list (string * json) :=
  [("a", TArr [jnum 7; jnum 8])].

(** ** The invariant of a session *)

(** The key list [ks] is that of a sanitized object: the keys of the
    configuration that are not sections, each once, the name [__proto__]
    apart. *)
Definition schema_list (vars : list (string * json)) (ks : list string)
  : Prop :=
  NoDup ks
  /\ forall k, In k ks
               <-> In k (keys vars)
                   /\ is_section (descriptor vars k) = false
                   /\ k <> "__proto__".

(** The value is not [undefined] (nor a reference to nothing). *)
Definition defined_in (h : list json) (v : value) : Prop :=
  is_defined (deref h v) = true.

(** No variable is [undefined], so that [JSON.stringify] keeps every
    key. *)
Definition vars_defined (st : app) : Prop :=
  forall k, In k (keys (variables st)) ->
            defined_in (heap st) (prop_get k (variables st)).

(** No property of the document is [undefined], as in any document that
    [JSON.parse] returns. *)
Definition doc_defined (doc : list (string * json)) : Prop :=
  forall k, In k (keys doc) -> is_defined (doc_get k doc) = true.

(** The persisted user state has the keys of a sanitized object. *)
Definition saved_ok (st : app) : Prop :=
  exists doc,
    storage_user st = Some doc
    /\ schema_list (config_variables st) (keys doc)
    /\ doc_defined doc.

(** The invariant: the configuration is [vars], the storage accepts
    writes, and both [variables] and the persisted user state have exactly
    the keys of the configuration that are not sections. *)
Definition sound (vars : list (string * json)) (st : app) : Prop :=
  config_variables st = vars
  /\ storage_writable st = true
  /\ schema_list vars (keys (variables st))
  /\ vars_defined st
  /\ saved_ok st.

(** The key an event of a control writes to. *)
Definition edit_key (e : edit) : string :=
  match e with
  | BooleanChange key _ | SelectChange key _ | TextInput key _
  | RangeInput key _ | NumberInput key _ | NumberBlur key _ _
  | ArrayInput key _ _ _ | ArrayBlur key _ _ _ => key
  end.

(** The events that can happen: a control exists only for a key of the
    configuration that is not a section, and a fetched example is a parsed
    JSON document. *)
Definition proper (vars : list (string * json)) (a : action) : Prop :=
  match a with
  | Edit e =>
      In (edit_key e) (keys vars)
      /\ is_section (descriptor vars (edit_key e)) = false
  | LoadExample (FetchOk (Some doc)) => doc_defined doc
  | _ => True
  end.

(** Every value the source can give is defined in the heap [h]. *)
Definition source_defined (h : list json) (source : option obj) : Prop :=
  forall k v, source_get source k = Some v -> defined_in h v.

(** The part of the invariant that an update of the preview needs. *)
Definition presound (vars : list (string * json)) (st : app) : Prop :=
  config_variables st = vars
  /\ storage_writable st = true
  /\ schema_list vars (keys (variables st))
  /\ vars_defined st.

(** * Properties *)

(** ** Worked examples of the model *)

Example getChoices_numbered :
  getChoices (TObj [("choice_2", jstr "B"); ("choice_1", jstr "A")])
  = Ok ["A"; "B"].
Proof. reflexivity. Qed.

Example getChoices_array_first :
  getChoices (TObj [("choice_1", jstr "A");
                    ("choices", TArr [jstr "X"; jnum 7])])
  = Ok ["X"; "7"].
Proof. vm_compute. reflexivity. Qed.

Example prettyPrintJSON_display :
  prettyPrintJSON (TObj [("a", TArr [jnum 0; jnum 1; jnum (-5)]);
                         ("b", jbool true); ("c", TArr [])])
  = "{" +:+ nl +:+ "  " +:+ dquote +:+ "a" +:+ dquote +:+ ": [0, 1, -5],"
    +:+ nl +:+ "  " +:+ dquote +:+ "b" +:+ dquote +:+ ": true,"
    +:+ nl +:+ "  " +:+ dquote +:+ "c" +:+ dquote +:+ ": []"
    +:+ nl +:+ "}".
Proof. vm_compute. reflexivity. Qed.

(** The members of a text are read into the order of enumeration. *)
Example JSON_parse_enumeration :
  JSON_parse ("{" +:+ dquote +:+ "b" +:+ dquote +:+ ":1,"
              +:+ dquote +:+ "1" +:+ dquote +:+ ":2}")
  = Some (TObj [("1", jnum 2); ("b", jnum 1)]).
Proof. vm_compute. reflexivity. Qed.

(** ** Property lists *)

Section AssocFacts.
Context {A : Type}.
Implicit Types (o : list (string * A)) (k : string) (v : A).

Lemma assoc_get_keys k o : In k (keys o) <-> exists v, assoc_get k o = Some v.
Proof.
  induction o as [|[k' v'] o IH]; simpl.
  - split; [tauto | intros [v Hv]; discriminate].
  - destruct (String.eqb_spec k k') as [->|Hne].
    + split; eauto.
    + rewrite IH. split; [intros [Heq|H]; [congruence | exact H] | auto].
Qed.


Lemma assoc_has_keys k o : assoc_has k o = true <-> In k (keys o).
Proof.
  rewrite assoc_get_keys. unfold assoc_has.
  destruct (assoc_get k o); split; eauto; try discriminate.
  intros [v Hv]; discriminate.
Qed.

Lemma assoc_has_not_keys k o : assoc_has k o = false <-> ~ In k (keys o).
Proof.
  rewrite <- assoc_has_keys. destruct (assoc_has k o); split; congruence.
Qed.

Lemma assoc_get_put_eq k v o : assoc_get k (assoc_put k v o) = Some v.
Proof.
  induction o as [|[k' v'] o IH]; simpl.
  - now rewrite String.eqb_refl.
  - destruct (String.eqb_spec k k') as [->|Hne]; simpl.
    + now rewrite String.eqb_refl.
    + destruct (String.eqb_spec k k'); [contradiction | exact IH].
Qed.

Lemma assoc_get_put_ne k k' v o :
  k <> k' -> assoc_get k' (assoc_put k v o) = assoc_get k' o.
Proof.
  intros Hne. induction o as [|[k0 v0] o IH]; simpl.
  - destruct (String.eqb_spec k' k); [congruence | reflexivity].
  - destruct (String.eqb_spec k k0) as [->|Hk]; simpl.
    + destruct (String.eqb_spec k' k0); [congruence | reflexivity].
    + now rewrite IH.
Qed.

(** Assignment of a name that is not an array index changes the key list
    only by appending a new key. *)
Lemma keys_assoc_put k v o :
  keys (assoc_put k v o) = if assoc_has k o then keys o else keys o ++ [k].
Proof.
  unfold assoc_has. induction o as [|[k' v'] o IH]; simpl; [reflexivity|].
  destruct (String.eqb_spec k k') as [->|Hne]; simpl; [reflexivity|].
  rewrite IH. now destruct (assoc_get k o).
Qed.

Lemma assoc_put_new k v o :
  assoc_get k o = None -> assoc_put k v o = o ++ [(k, v)].
Proof.
  induction o as [|[k' v'] o IH]; simpl; [reflexivity|].
  destruct (String.eqb_spec k k'); [discriminate|].
  intros H. now rewrite IH.
Qed.

Lemma assoc_get_insert_eq k n v o :
  array_index k = Some n -> assoc_get k (insert_index k n v o) = Some v.
Proof.
  intros Hk. induction o as [|[k' v'] o IH]; simpl.
  - now rewrite String.eqb_refl.
  - destruct (array_index k') as [n'|] eqn:Hk'; simpl.
    + destruct (Z.ltb_spec n' n) as [Hlt|Hge]; simpl.
      * destruct (String.eqb_spec k k') as [->|Hne]; [|exact IH].
        rewrite Hk in Hk'. injection Hk' as ->. lia.
      * now rewrite String.eqb_refl.
    + now rewrite String.eqb_refl.
Qed.

Lemma assoc_get_insert_ne k k' n v o :
  k <> k' -> assoc_get k' (insert_index k n v o) = assoc_get k' o.
Proof.
  intros Hne.
  assert (Hhead : forall o, assoc_get k' ((k, v) :: o) = assoc_get k' o).
  { intros o'. simpl. destruct (String.eqb_spec k' k); [congruence|reflexivity]. }
  induction o as [|[k0 v0] o IH]; [apply Hhead|].
  cbn [insert_index].
  destruct (array_index k0) as [n'|]; [|apply Hhead].
  destruct (n' <? n)%Z; [|apply Hhead].
  simpl. now rewrite IH.
Qed.

Lemma keys_insert_index k n v o :
  Permutation (keys (insert_index k n v o)) (k :: keys o).
Proof.
  induction o as [|[k0 v0] o IH]; simpl; [reflexivity|].
  destruct (array_index k0) as [n'|]; [|reflexivity].
  destruct (n' <? n)%Z; [|reflexivity].
  simpl. unfold keys in IH. rewrite IH. apply perm_swap.
Qed.

Lemma assoc_get_set_eq k v o : assoc_get k (assoc_set k v o) = Some v.
Proof.
  unfold assoc_set. destruct (array_index k) as [n|] eqn:Hk.
  - destruct (assoc_has k o).
    + apply assoc_get_put_eq.
    + now apply assoc_get_insert_eq.
  - apply assoc_get_put_eq.
Qed.

Lemma assoc_get_set_ne k k' v o :
  k <> k' -> assoc_get k' (assoc_set k v o) = assoc_get k' o.
Proof.
  intros Hne. unfold assoc_set. destruct (array_index k) as [n|].
  - destruct (assoc_has k o).
    + now apply assoc_get_put_ne.
    + now apply assoc_get_insert_ne.
  - now apply assoc_get_put_ne.
Qed.

Lemma keys_assoc_set k v o k' :
  In k' (keys (assoc_set k v o)) <-> k' = k \/ In k' (keys o).
Proof.
  rewrite !assoc_get_keys.
  destruct (String.eqb_spec k k') as [->|Hne].
  - rewrite assoc_get_set_eq. split; eauto.
  - rewrite assoc_get_set_ne by assumption.
    split; [auto | intros [Heq|H]; [congruence | exact H]].
Qed.

Lemma assoc_has_set k k' v o :
  assoc_has k' (assoc_set k v o) = String.eqb k' k || assoc_has k' o.
Proof.
  unfold assoc_has. destruct (String.eqb_spec k' k) as [->|Hne].
  - now rewrite assoc_get_set_eq.
  - rewrite assoc_get_set_ne by congruence. reflexivity.
Qed.

(** A name that is not an array index is appended. *)
Lemma assoc_set_new k v o :
  array_index k = None -> assoc_get k o = None ->
  assoc_set k v o = o ++ [(k, v)].
Proof.
  intros Hk Hget. unfold assoc_set. rewrite Hk. now apply assoc_put_new.
Qed.

Lemma NoDup_keys_assoc_set k v o :
  NoDup (keys o) -> NoDup (keys (assoc_set k v o)).
Proof.
  intros Hnd.
  assert (Hput : NoDup (keys (assoc_put k v o))).
  { rewrite keys_assoc_put.
    destruct (assoc_has k o) eqn:Hhas; [exact Hnd|].
    apply NoDup_app; repeat split.
    - exact Hnd.
    - intros x Hx Hin. apply list_elem_of_In in Hx, Hin.
      destruct Hin as [->|[]].
      apply assoc_has_keys in Hx. congruence.
    - apply NoDup_singleton. }
  unfold assoc_set. destruct (array_index k) as [n|]; [|exact Hput].
  destruct (assoc_has k o) eqn:Hhas; [exact Hput|].
  rewrite keys_insert_index.
  apply NoDup_cons. split; [|exact Hnd].
  intros Hin. apply list_elem_of_In, assoc_has_keys in Hin. congruence.
Qed.
End AssocFacts.

(** ** Conversions to text *)




(** ** Choices *)











Lemma strip_prefix_spec w s r : strip_prefix w s = Some r <-> s = w +:+ r.
Proof.
  revert s. induction w as [|a w IH]; intros s; simpl.
  - split; [intros [= ->]; reflexivity | intros ->; reflexivity].
  - destruct s as [|b s]; [split; discriminate|].
    destruct (Ascii.eqb_spec a b) as [->|Hne].
    + rewrite IH. split; [intros ->; reflexivity | intros [= ->]; reflexivity].
    + split; [discriminate | intros [= Hab _]; congruence].
Qed.

(** The keys [getChoices] picks up are the prefix followed by a
    non-empty run of digits, read as a decimal number. *)
Lemma match_choice_key_spec k n :
  match_choice_key k = Some n <->
  exists ds, k = "choice_" +:+ ds /\ ds <> "" /\ digits_value 0 ds = Some n.
Proof.
  unfold match_choice_key. split.
  - destruct (strip_prefix "choice_" k) as [[|c ds]|] eqn:Hp; try discriminate.
    intros Hd. apply strip_prefix_spec in Hp.
    exists (String c ds). repeat split; [exact Hp | discriminate | exact Hd].
  - intros (ds & -> & Hne & Hd).
    assert (Hp : strip_prefix "choice_" ("choice_" +:+ ds) = Some ds)
      by now apply strip_prefix_spec.
    rewrite Hp. destruct ds; [contradiction | exact Hd].
Qed.


Lemma falsy_no_props desc : truthy desc = false -> own_props desc = [].
Proof.
  destruct desc as [[| |b|n|s]| |]; simpl; try discriminate; try reflexivity.
  destruct s; [reflexivity | discriminate].
Qed.

Lemma falsy_field desc name : truthy desc = false -> field desc name = undefined.
Proof. intros H. unfold field. now rewrite falsy_no_props. Qed.

Lemma type_is_truthy desc tag : type_is desc tag = true -> truthy desc = true.
Proof.
  intros H. destruct (truthy desc) eqn:Ht; [reflexivity|].
  unfold type_is in H. now rewrite falsy_field in H.
Qed.

(** A descriptor has one type tag. *)
Lemma type_is_other desc a b :
  type_is desc a = true -> a <> b -> type_is desc b = false.
Proof.
  unfold type_is. destruct (field desc "type") as [[| | | |s]| |];
    try discriminate.
  intros Ha Hne. apply String.eqb_eq in Ha. subst s.
  now apply String.eqb_neq.
Qed.



(** ** The heap under allocation *)

Lemma extends_refl st : extends st st.
Proof. exists []. destruct st; unfold set_heap; simpl. now rewrite app_nil_r. Qed.

Lemma extends_trans st1 st2 st3 :
  extends st1 st2 -> extends st2 st3 -> extends st1 st3.
Proof.
  intros [c1 ->] [c2 ->]. exists (c1 ++ c2).
  unfold set_heap; simpl. now rewrite <- app_assoc.
Qed.

Lemma extends_config st st' :
  extends st st' -> config_variables st' = config_variables st.
Proof. now intros [c ->]. Qed.

Lemma extends_deref st st' v :
  extends st st' -> valid (heap st) v ->
  deref (heap st') v = deref (heap st) v.
Proof.
  intros [c ->] Hv. destruct v as [p|l|b]; simpl in *; [reflexivity| |reflexivity].
  now rewrite lookup_app_l.
Qed.

Lemma extends_valid st st' v :
  extends st st' -> valid (heap st) v -> valid (heap st') v.
Proof.
  intros [c ->] Hv. destruct v as [p|l|b]; simpl in *; [exact I| |exact I].
  rewrite length_app. lia.
Qed.

Lemma alloc_spec t st :
  alloc t st = (Ok (VRef (length (heap st))), set_heap (heap st ++ [t]) st).
Proof. reflexivity. Qed.

(** A fresh copy: the value returned stands for the tree copied, it is
    valid, and the state is only extended. *)
Lemma fresh_spec t st :
  exists v st',
    fresh t st = (Ok v, st') /\ extends st st'
    /\ valid (heap st') v /\ deref (heap st') v = t
    /\ (forall l, v = VRef l -> l = length (heap st)).
Proof.
  assert (Halloc : forall t', (forall p, t' <> TPrim p) ->
    exists v st', alloc t' st = (Ok v, st') /\ extends st st'
      /\ valid (heap st') v /\ deref (heap st') v = t'
      /\ (forall l, v = VRef l -> l = length (heap st))).
  { intros t' _. eexists _, _. split; [apply alloc_spec|].
    split; [now exists [t']|]. simpl. rewrite length_app; simpl.
    split; [lia|]. split; [|congruence].
    now rewrite lookup_app_r, Nat.sub_diag by lia. }
  destruct t as [p| |]; simpl.
  - exists (VPrim p), st. repeat split; auto using extends_refl. discriminate.
  - apply Halloc. discriminate.
  - apply Halloc. discriminate.
Qed.

(** ** Defaults *)

Lemma defaultFor_tree desc st :
  defaultFor desc st =
  match default_tree desc with
  | Ok t => fresh t st
  | Throw e => (Throw e, st)
  end.
Proof.
  unfold defaultFor, default_tree.
  destruct (negb (truthy desc)); [reflexivity|].
  destruct (is_defined (field desc "default")); [reflexivity|].
  destruct (type_is desc "boolean"); [reflexivity|].
  destruct (type_is desc "number"); [reflexivity|].
  destruct (type_is desc "number_array").
  { unfold Array_fill0.
    destruct (or_else (field desc "count") (jnum 2)) as [[| | |n|]| |];
      try reflexivity.
    now destruct ((0 <=? n) && (n <? 2 ^ 32))%Z. }
  destruct (type_is desc "string"); [reflexivity|].
  destruct (type_is desc "choice"); [|reflexivity].
  destruct (getChoices desc) as [[|c l]|e]; reflexivity.
Qed.

(** ** Sanitization *)

(** The two outcomes of an assignment that returns: the write the
    prototype ignores, and the data property set. *)
Lemma own_set_ok k v (o o' : obj) :
  own_set k v o = Ok o' ->
  (k = "__proto__" /\ assoc_has k o = false /\ o' = o)
  \/ ((k <> "__proto__" \/ assoc_has k o = true) /\ o' = assoc_set k v o).
Proof.
  unfold own_set. destruct (String.eqb_spec k "__proto__") as [->|Hne]; simpl.
  - destruct (assoc_has "__proto__" o) eqn:Hhas; simpl.
    + intros [= <-]. right. auto.
    + destruct v as [[| | | |]| |]; try discriminate;
        intros [= <-]; left; auto.
  - intros [= <-]. right. auto.
Qed.

Lemma own_set_other k v (o : obj) :
  k <> "__proto__" -> own_set k v o = Ok (assoc_set k v o).
Proof.
  intros Hne. unfold own_set.
  now destruct (String.eqb_spec k "__proto__").
Qed.

Lemma own_set_own k v (o : obj) :
  assoc_has k o = true -> own_set k v o = Ok (assoc_set k v o).
Proof. intros Hhas. unfold own_set. rewrite Hhas. now rewrite andb_false_r. Qed.

Lemma prop_get_set_eq k v (o : obj) : prop_get k (assoc_set k v o) = v.
Proof. unfold prop_get. now rewrite assoc_get_set_eq. Qed.

Lemma prop_get_set_ne k k' v (o : obj) :
  k <> k' -> prop_get k' (assoc_set k v o) = prop_get k' o.
Proof. intros H. unfold prop_get. now rewrite assoc_get_set_ne. Qed.

(** An assignment that returns leaves the other properties alone. *)
Lemma own_set_get_ne k k' v (o o' : obj) :
  own_set k v o = Ok o' -> k <> k' -> assoc_get k' o' = assoc_get k' o.
Proof.
  intros Hset Hne. apply own_set_ok in Hset.
  destruct Hset as [(_ & _ & ->)|(_ & ->)]; [reflexivity|].
  now apply assoc_get_set_ne.
Qed.

Lemma own_set_prop_ne k k' v (o o' : obj) :
  own_set k v o = Ok o' -> k <> k' -> prop_get k' o' = prop_get k' o.
Proof.
  intros Hset Hne. unfold prop_get. now rewrite (own_set_get_ne _ _ _ _ _ Hset).
Qed.

Lemma sanitize_key_eq vars source out k :
  sanitize_key vars source out k =
  if is_section (descriptor vars k) then ret out
  else match source_get source k with
       | Some v => lift (own_set k v out)
       | None =>
           let* v := defaultFor (descriptor vars k) in lift (own_set k v out)
       end.
Proof. unfold sanitize_key. now destruct source. Qed.

(** What one round of the loop does when it does not throw. *)
Lemma sanitize_key_ok vars source out k st out' st' :
  sanitize_key vars source out k st = (Ok out', st') ->
  (is_section (descriptor vars k) = true /\ out' = out /\ st' = st)
  \/ (is_section (descriptor vars k) = false
      /\ exists v, own_set k v out = Ok out'
         /\ ((source_get source k = Some v /\ st' = st)
             \/ (source_get source k = None
                 /\ exists t, default_tree (descriptor vars k) = Ok t
                              /\ fresh t st = (Ok v, st')))).
Proof.
  rewrite sanitize_key_eq. intros Hrun.
  destruct (is_section (descriptor vars k)).
  { injection Hrun as <- <-. now left. }
  right. split; [reflexivity|].
  destruct (source_get source k) as [v|].
  { unfold lift in Hrun. injection Hrun as Hset <-.
    exists v. split; [exact Hset|]. now left. }
  unfold bind in Hrun. rewrite defaultFor_tree in Hrun.
  destruct (default_tree (descriptor vars k)) as [t|e]; [|discriminate].
  destruct (fresh t st) as [[v|e] st1] eqn:Hf; [|discriminate].
  unfold lift in Hrun. injection Hrun as Hset <-.
  exists v. split; [exact Hset|]. right.
  split; [reflexivity|]. now exists t.
Qed.

Lemma sanitize_key_extends vars source out k st out' st' :
  sanitize_key vars source out k st = (Ok out', st') -> extends st st'.
Proof.
  intros H. apply sanitize_key_ok in H.
  destruct H as [(_ & _ & ->)|(_ & v & _ & [[_ ->]|(_ & t & _ & Hf)])];
    try apply extends_refl.
  destruct (fresh_spec t st) as (v' & st1 & Hf' & Hext & _).
  congruence.
Qed.

Lemma forEach_cons {A B} (f : B -> A -> M B) acc x l st :
  forEach f acc (x :: l) st =
  match f acc x st with
  | (Ok acc', st') => forEach f acc' l st'
  | (Throw e, st') => (Throw e, st')
  end.
Proof. reflexivity. Qed.

(** The keys of the output: those the loop starts with, and the keys it
    goes through that are not sections, the name [__proto__] apart, which
    an output that does not own it never gets. *)
Lemma forEach_sanitize_keys vars source ks :
  forall out st out' st',
    forEach (sanitize_key vars source) out ks st = (Ok out', st') ->
    ~ In "__proto__" (keys out) ->
    ~ In "__proto__" (keys out')
    /\ forall k, In k (keys out') <->
                 In k (keys out)
                 \/ (In k ks /\ is_section (descriptor vars k) = false
                     /\ k <> "__proto__").
Proof.
  induction ks as [|k0 ks IH]; intros out st out' st' Hrun Hproto.
  - injection Hrun as <- <-. split; [exact Hproto|]. simpl. tauto.
  - rewrite forEach_cons in Hrun.
    destruct (sanitize_key vars source out k0 st) as [[out1|e] st1] eqn:Hstep;
      [|discriminate].
    apply sanitize_key_ok in Hstep.
    assert (Hout1 : ~ In "__proto__" (keys out1)
                    /\ forall k, In k (keys out1) <->
                         In k (keys out)
                         \/ (k = k0 /\ is_section (descriptor vars k) = false
                             /\ k <> "__proto__")).
    { destruct Hstep as [(Hsec & -> & _)|(Hsec & v & Hset & _)].
      - split; [exact Hproto|]. intros k. split; [tauto|].
        intros [H|(-> & Hns & _)]; [exact H | congruence].
      - apply own_set_ok in Hset.
        destruct Hset as [(-> & _ & ->)|([Hne|Hhas] & ->)].
        + split; [exact Hproto|]. intros k. split; [tauto|].
          intros [H|(-> & _ & Hne)]; [exact H | congruence].
        + split.
          * rewrite keys_assoc_set. intros [Heq|H]; [congruence | tauto].
          * intros k. rewrite keys_assoc_set. split.
            -- intros [->|H]; auto.
            -- intros [H|(-> & _)]; auto.
        + apply assoc_has_keys in Hhas. split.
          * rewrite keys_assoc_set. intros [<-|H]; tauto.
          * intros k. rewrite keys_assoc_set. split.
            -- intros [->|H]; auto.
            -- intros [H|(-> & _)]; auto. }
    destruct Hout1 as [Hproto1 Hkeys1].
    destruct (IH _ _ _ _ Hrun Hproto1) as [Hproto' Hkeys'].
    split; [exact Hproto'|].
    intros k. rewrite Hkeys', Hkeys1. simpl. split.
    + intros [[H|(-> & Hns & Hne)]|(Hin & Hns & Hne)]; auto.
    + intros [H|([->|Hin] & Hns & Hne)]; auto.
Qed.

Lemma forEach_sanitize_NoDup vars source ks :
  forall out st out' st',
    forEach (sanitize_key vars source) out ks st = (Ok out', st') ->
    NoDup (keys out) -> NoDup (keys out').
Proof.
  induction ks as [|k0 ks IH]; intros out st out' st' Hrun Hnd.
  - now injection Hrun as <- <-.
  - rewrite forEach_cons in Hrun.
    destruct (sanitize_key vars source out k0 st) as [[out1|e] st1] eqn:Hstep;
      [|discriminate].
    apply (IH _ _ _ _ Hrun).
    apply sanitize_key_ok in Hstep.
    destruct Hstep as [(_ & -> & _)|(_ & v0 & Hset & _)]; [exact Hnd|].
    apply own_set_ok in Hset.
    destruct Hset as [(_ & _ & ->)|(_ & ->)]; [exact Hnd|].
    now apply NoDup_keys_assoc_set.
Qed.

Lemma buildSanitizedFromSource_eq source st :
  buildSanitizedFromSource source st =
  forEach (sanitize_key (config_variables st) source) []
          (keys (config_variables st)) st.
Proof. reflexivity. Qed.

(** The keys of a sanitized state: each once, and exactly the keys of
    the configuration that are not sections, the name [__proto__]
    apart. *)
Lemma sanitize_keys source st out st' :
  buildSanitizedFromSource source st = (Ok out, st') ->
  NoDup (keys out)
  /\ forall k, In k (keys out) <->
               In k (keys (config_variables st))
               /\ is_section (descriptor (config_variables st) k) = false
               /\ k <> "__proto__".
Proof.
  rewrite buildSanitizedFromSource_eq. intros Hrun. split.
  - apply (forEach_sanitize_NoDup _ _ _ _ _ _ _ Hrun). constructor.
  - intros k.
    destruct (forEach_sanitize_keys _ _ _ _ _ _ _ Hrun) as [_ Hkeys];
      [intros []|].
    rewrite Hkeys. simpl. tauto.
Qed.

(** C1. A configuration that lists the name [__proto__] as a variable:
    the assignment [out[k] = ...] reaches the setter of the prototype,
    which ignores the number, and the state returned lacks that key of
    the configuration. *)
Theorem sanitize_misses_proto_key :
  In "__proto__" (keys proto_config)
  /\ is_section (descriptor proto_config "__proto__") = false
  /\ buildSanitizedFromSource None (loaded proto_config None None)
     = (Ok [("n", VPrim (PNum 0))], loaded proto_config None None)
  /\ ~ In "__proto__" (keys [("n", VPrim (PNum 0))])
  /\ buildSanitizedFromSource (Some [("__proto__", VPrim (PNum 7))])
                              (loaded proto_config None None)
     = (Ok [("n", VPrim (PNum 0))], loaded proto_config None None).
Proof.
  split; [now left|]. split; [reflexivity|]. split; [reflexivity|].
  split; [|reflexivity].
  simpl. intros [H|[]]. discriminate.
Qed.

Lemma forEach_sanitize_extends vars source ks :
  forall out st out' st',
    forEach (sanitize_key vars source) out ks st = (Ok out', st') ->
    extends st st'.
Proof.
  induction ks as [|k0 ks IH]; intros out st out' st' Hrun.
  - injection Hrun as <- <-. apply extends_refl.
  - rewrite forEach_cons in Hrun.
    destruct (sanitize_key vars source out k0 st) as [[out1|e] st1] eqn:Hstep;
      [|discriminate].
    eapply extends_trans; [eapply sanitize_key_extends; exact Hstep|].
    eapply IH; exact Hrun.
Qed.

(** Values found in the source reach the output unchanged. *)
Lemma forEach_sanitize_source vars source ks :
  forall out st out' st',
    forEach (sanitize_key vars source) out ks st = (Ok out', st') ->
    (forall k v, source_get source k = Some v -> In k (keys out) ->
                 assoc_get k out = Some v) ->
    forall k v, source_get source k = Some v -> In k (keys out') ->
                assoc_get k out' = Some v.
Proof.
  induction ks as [|k0 ks IH]; intros out st out' st' Hrun Hinv.
  - now injection Hrun as <- <-.
  - rewrite forEach_cons in Hrun.
    destruct (sanitize_key vars source out k0 st) as [[out1|e] st1] eqn:Hstep;
      [|discriminate].
    apply (IH _ _ _ _ Hrun). clear IH Hrun.
    apply sanitize_key_ok in Hstep.
    destruct Hstep as [(_ & -> & _)|(_ & v0 & Hset & Hv0)]; [exact Hinv|].
    apply own_set_ok in Hset.
    destruct Hset as [(_ & _ & ->)|(_ & ->)]; [exact Hinv|].
    intros k v Hsrc Hin.
    destruct (String.eqb_spec k0 k) as [->|Hne].
    + rewrite assoc_get_set_eq.
      destruct Hv0 as [[Hs _]|[Hs _]]; congruence.
    + rewrite assoc_get_set_ne by assumption.
      apply Hinv; [exact Hsrc|].
      apply keys_assoc_set in Hin. destruct Hin as [->|Hin]; [congruence|].
      exact Hin.
Qed.

Lemma sanitize_copies_values (src : obj) (st : app) (out : obj) (st' : app) :
  buildSanitizedFromSource (Some src) st = (Ok out, st') ->
  forall k v,
    k <> "__proto__" ->
    assoc_get k src = Some v ->
    In k (keys (config_variables st)) ->
    is_section (descriptor (config_variables st) k) = false ->
    assoc_get k out = Some v /\ prop_get k out = v.
Proof.
  intros Hrun k v Hne Hsrc Hin Hns.
  destruct (sanitize_keys _ _ _ _ Hrun) as [_ Hkeys].
  assert (Hget : assoc_get k out = Some v).
  { rewrite buildSanitizedFromSource_eq in Hrun.
    eapply forEach_sanitize_source; [exact Hrun | | exact Hsrc |].
    - intros k' v' _ [].
    - apply Hkeys. auto. }
  split; [exact Hget|]. unfold prop_get. now rewrite Hget.
Qed.

(** C2, as amended.  For a source that is not [null], every key other
    than [__proto__] that is both a non-section key of the configuration
    and an own property of the source holds in the output the very value
    it holds in the source, the same primitive or the same reference; and
    an own key of the source that the configuration does not list, or
    lists as a section, is not an own property of the output. *)
Theorem sanitize_copies_source (src : obj) (st : app) (out : obj) (st' : app) :
  buildSanitizedFromSource (Some src) st = (Ok out, st') ->
  (forall k v,
     k <> "__proto__" ->
     assoc_get k src = Some v ->
     In k (keys (config_variables st)) ->
     is_section (descriptor (config_variables st) k) = false ->
     assoc_get k out = Some v /\ prop_get k out = v)
  /\ (forall k,
        In k (keys src) ->
        ~ (In k (keys (config_variables st))
           /\ is_section (descriptor (config_variables st) k) = false) ->
        assoc_has k out = false).
Proof.
  intros Hrun.
  destruct (sanitize_keys _ _ _ _ Hrun) as [_ Hkeys]. split.
  - now apply (sanitize_copies_values src st out st').
  - intros k _ Hnot. apply assoc_has_not_keys. rewrite Hkeys. tauto.
Qed.

Lemma sanitize_copies_source_witness :
  (assoc_get "x" [("x", VPrim (PNum 9))] = Some (VPrim (PNum 9))
   /\ prop_get "x" [("x", VPrim (PNum 9))] = VPrim (PNum 9))
  /\ assoc_has "z" ([("x", VPrim (PNum 9))] : obj) = false.
Proof.
  destruct (sanitize_copies_source
              [("x", VPrim (PNum 9)); ("z", VPrim (PNum 5))]
              (loaded [("x", TObj [("type", jstr "number")])] None None)
              [("x", VPrim (PNum 9))]
              (loaded [("x", TObj [("type", jstr "number")])] None None)
              eq_refl) as [Hcopy Hdrop].
  split.
  - apply Hcopy.
    + discriminate.
    + reflexivity.
    + simpl. left. reflexivity.
    + reflexivity.
  - apply Hdrop.
    + simpl. right. left. reflexivity.
    + simpl. intros [[H|[]] _]. discriminate.
Defined.

(** C2, as stated, fails: a key the source owns but the configuration does
    not list is dropped, so the output does not hold the source's value
    under it. *)
Lemma sanitize_copies_source_counterexample :
  assoc_get "z" [("z", VPrim (PNum 5))] = Some (VPrim (PNum 5))
  /\ buildSanitizedFromSource (Some [("z", VPrim (PNum 5))])
                              (loaded [] None None)
     = (Ok [], loaded [] None None)
  /\ prop_get "z" ([] : obj) = VPrim PUndef
  /\ prop_get "z" ([] : obj) <> VPrim (PNum 5).
Proof. repeat split; discriminate. Qed.

(** *** Idempotence *)

Lemma retag_keys O o : keys (retag O o) = keys o.
Proof. unfold retag, keys. rewrite map_map. now apply map_ext. Qed.

Lemma retag_assoc_has O k o : assoc_has k (retag O o) = assoc_has k o.
Proof.
  destruct (assoc_has k o) eqn:Hhas.
  - apply assoc_has_keys. rewrite retag_keys. now apply assoc_has_keys.
  - apply assoc_has_not_keys. rewrite retag_keys.
    now apply assoc_has_not_keys.
Qed.

Lemma retag_assoc_put O k v o :
  assoc_put k (prop_get k O) (retag O o) = retag O (assoc_put k v o).
Proof.
  induction o as [|[k' v'] o IH]; simpl; [reflexivity|].
  destruct (String.eqb_spec k k') as [->|Hne]; simpl; [reflexivity|].
  now rewrite IH.
Qed.

Lemma retag_insert_index O k n v o :
  insert_index k n (prop_get k O) (retag O o)
  = retag O (insert_index k n v o).
Proof.
  induction o as [|[k' v'] o IH]; simpl; [reflexivity|].
  destruct (array_index k') as [n'|]; [|reflexivity].
  destruct (n' <? n)%Z; [|reflexivity].
  simpl. now rewrite IH.
Qed.

Lemma retag_assoc_set O k v o :
  assoc_set k (prop_get k O) (retag O o) = retag O (assoc_set k v o).
Proof.
  unfold assoc_set. rewrite retag_assoc_has.
  destruct (array_index k) as [n|]; [|apply retag_assoc_put].
  destruct (assoc_has k o); [apply retag_assoc_put|apply retag_insert_index].
Qed.

Lemma retag_fixed O o :
  (forall k v, In (k, v) o -> assoc_get k O = Some v) -> retag O o = o.
Proof.
  induction o as [|[k v] o IH]; intros Hall; simpl; [reflexivity|].
  unfold prop_get at 1. simpl. rewrite (Hall k v) by now left.
  f_equal. apply IH. intros k' v' Hin. apply Hall. now right.
Qed.

Lemma NoDup_keys_lookup (o : obj) :
  NoDup (keys o) -> forall k v, In (k, v) o -> assoc_get k o = Some v.
Proof.
  induction o as [|[k0 v0] o IH]; intros Hnd k v Hin; [destruct Hin|].
  simpl in Hnd. apply NoDup_cons in Hnd. destruct Hnd as [Hnotin Hnd].
  simpl. destruct Hin as [[= -> ->]|Hin].
  - now rewrite String.eqb_refl.
  - destruct (String.eqb_spec k k0) as [->|Hne]; [|now apply IH].
    exfalso. apply Hnotin. apply list_elem_of_In.
    change (In k0 (map fst o)). apply in_map_iff. now exists (k0, v).
Qed.

(** A second pass whose source [O] owns every key the loop keeps rebuilds
    the output of the first pass, with the values of [O], and leaves the
    state alone. *)
Lemma forEach_sanitize_again vars source O ks :
  (forall k, In k ks -> is_section (descriptor vars k) = false ->
             k <> "__proto__" /\ In k (keys O)) ->
  forall out st out' st' st2,
    forEach (sanitize_key vars source) out ks st = (Ok out', st') ->
    forEach (sanitize_key vars (Some O)) (retag O out) ks st2
    = (Ok (retag O out'), st2).
Proof.
  induction ks as [|k0 ks IH]; intros Hown out st out' st' st2 Hrun.
  - now injection Hrun as <- <-.
  - rewrite forEach_cons in Hrun. rewrite forEach_cons.
    destruct (sanitize_key vars source out k0 st) as [[out1|e] st1] eqn:Hstep;
      [|discriminate].
    assert (Hown' : forall k, In k ks ->
                      is_section (descriptor vars k) = false ->
                      k <> "__proto__" /\ In k (keys O))
      by (intros k Hk; apply Hown; now right).
    rewrite sanitize_key_eq.
    apply sanitize_key_ok in Hstep.
    destruct Hstep as [(-> & -> & _)|(Hns & v0 & Hset & _)].
    + unfold ret. eapply IH; eassumption.
    + rewrite Hns. simpl.
      destruct (Hown k0) as [Hne Hin]; [now left | exact Hns|].
      rewrite own_set_other in Hset by assumption. injection Hset as <-.
      apply assoc_get_keys in Hin. destruct Hin as [w Hw].
      rewrite Hw. unfold lift. rewrite own_set_other by assumption.
      replace w with (prop_get k0 O) by (unfold prop_get; now rewrite Hw).
      rewrite (retag_assoc_set O k0 v0 out).
      eapply IH; eassumption.
Qed.

(** Sanitizing the output of a sanitization gives that output back (the
    same keys in the same order with the same values, the state left
    alone) under a configuration that does not list the name [__proto__]
    as a variable. *)
Lemma sanitize_again (source : option obj) (st : app) (out : obj) (st' : app) :
  ~ (In "__proto__" (keys (config_variables st))
     /\ is_section (descriptor (config_variables st) "__proto__") = false) ->
  buildSanitizedFromSource source st = (Ok out, st') ->
  buildSanitizedFromSource (Some out) st' = (Ok out, st').
Proof.
  intros Hproto Hrun.
  destruct (sanitize_keys _ _ _ _ Hrun) as [Hnd Hkeys].
  rewrite buildSanitizedFromSource_eq in *.
  pose proof (forEach_sanitize_extends _ _ _ _ _ _ _ Hrun) as Hext.
  rewrite (extends_config _ _ Hext).
  rewrite <- (retag_fixed out out (NoDup_keys_lookup out Hnd)) at 2.
  change (@nil (string * value)) with (retag out []) at 1.
  eapply forEach_sanitize_again; [|exact Hrun].
  intros k Hk Hns.
  assert (Hne : k <> "__proto__") by (intros ->; apply Hproto; auto).
  split; [exact Hne|]. apply Hkeys. auto.
Qed.

(** C4. Under a configuration that lists the name [__proto__] as a number
    array with the element count [-1], and for the source that owns
    [__proto__] with the value 5, the first pass returns the empty state
    (the setter of the prototype ignores the number), and the second pass,
    which finds no own property to copy, throws on the default. *)
Theorem sanitize_second_pass_throws :
  buildSanitizedFromSource (Some [("__proto__", VPrim (PNum 5))])
                           (loaded proto_array_config None None)
  = (Ok [], loaded proto_array_config None None)
  /\ buildSanitizedFromSource (Some [])
                              (loaded proto_array_config None None)
     = (Throw RangeError, loaded proto_array_config None None).
Proof. split; reflexivity. Qed.

(** *** Defaults in the output *)

(** Without a source, every value of the output stands for the default of
    its descriptor. *)
Lemma forEach_sanitize_defaults vars ks :
  forall out st out' st',
    forEach (sanitize_key vars None) out ks st = (Ok out', st') ->
    (forall k, In k (keys out) ->
               valid (heap st) (prop_get k out)
               /\ default_tree (descriptor vars k)
                  = Ok (deref (heap st) (prop_get k out))) ->
    forall k, In k (keys out') ->
              valid (heap st') (prop_get k out')
              /\ default_tree (descriptor vars k)
                 = Ok (deref (heap st') (prop_get k out')).
Proof.
  induction ks as [|k0 ks IH]; intros out st out' st' Hrun Hinv.
  - now injection Hrun as <- <-.
  - rewrite forEach_cons in Hrun.
    destruct (sanitize_key vars None out k0 st) as [[out1|e] st1] eqn:Hstep;
      [|discriminate].
    apply (IH _ _ _ _ Hrun). clear IH Hrun.
    apply sanitize_key_ok in Hstep.
    destruct Hstep as [(_ & -> & ->)|(_ & v0 & Hset & Hv0)]; [exact Hinv|].
    destruct Hv0 as [[Hs _]|(_ & t & Ht & Hf)]; [discriminate|].
    destruct (fresh_spec t st) as (v & st2 & Hf' & Hext & Hval & Hder & _).
    rewrite Hf in Hf'. injection Hf' as <- <-.
    assert (Hold : forall k, In k (keys out) ->
               valid (heap st1) (prop_get k out)
               /\ default_tree (descriptor vars k)
                  = Ok (deref (heap st1) (prop_get k out))).
    { intros k Hin. destruct (Hinv k Hin) as [Hv Hd]. split.
      - eapply extends_valid; eassumption.
      - now rewrite (extends_deref _ _ _ Hext Hv). }
    apply own_set_ok in Hset.
    destruct Hset as [(_ & _ & ->)|(_ & ->)]; [exact Hold|].
    intros k Hin. destruct (String.eqb_spec k0 k) as [->|Hne].
    + rewrite prop_get_set_eq. split; [exact Hval | congruence].
    + rewrite prop_get_set_ne by assumption.
      apply keys_assoc_set in Hin. destruct Hin as [->|Hin]; [congruence|].
      now apply Hold.
Qed.

Lemma defaultFor_deref desc t st v st' :
  default_tree desc = Ok t -> defaultFor desc st = (Ok v, st') ->
  deref (heap st') v = t.
Proof.
  intros Ht Hrun. rewrite defaultFor_tree, Ht in Hrun.
  destruct (fresh_spec t st) as (v' & st1 & Hf & _ & _ & Hder & _).
  congruence.
Qed.

(** The number-array branch of [defaultFor]. *)
Lemma defaultFor_number_array desc st :
  type_is desc "number_array" = true ->
  is_defined (field desc "default") = false ->
  defaultFor desc st = Array_fill0 (or_else (field desc "count") (jnum 2)) st.
Proof.
  intros Hty Hdef. unfold defaultFor.
  rewrite (type_is_truthy _ _ Hty), Hdef. simpl.
  rewrite (type_is_other _ _ "boolean" Hty) by discriminate.
  rewrite (type_is_other _ _ "number" Hty) by discriminate.
  now rewrite Hty.
Qed.

Lemma Array_fill0_length n st :
  (0 <= n < 2 ^ 32)%Z ->
  Array_fill0 (jnum n) st
  = (Ok (VRef (length (heap st))),
     set_heap (heap st ++ [TArr (replicate (Z.to_nat n) zero)]) st).
Proof.
  intros Hn. unfold Array_fill0.
  destruct (Z.leb_spec 0 n); [|lia].
  destruct (Z.ltb_spec n (2 ^ 32)); [|lia].
  reflexivity.
Qed.

Lemma Array_fill0_range n st :
  (n < 0 \/ 2 ^ 32 <= n)%Z -> Array_fill0 (jnum n) st = (Throw RangeError, st).
Proof.
  intros Hn. unfold Array_fill0.
  destruct (Z.leb_spec 0 n); destruct (Z.ltb_spec n (2 ^ 32)); simpl;
    try reflexivity; lia.
Qed.

Lemma defaultFor_count_falsy desc st :
  type_is desc "number_array" = true ->
  is_defined (field desc "default") = false ->
  truthy (field desc "count") = false ->
  defaultFor desc st
  = (Ok (VRef (length (heap st))),
     set_heap (heap st ++ [TArr [zero; zero]]) st).
Proof.
  intros Hty Hdef Hc. rewrite defaultFor_number_array by assumption.
  unfold or_else. rewrite Hc. now rewrite Array_fill0_length.
Qed.

Lemma defaultFor_count_positive desc st n :
  type_is desc "number_array" = true ->
  is_defined (field desc "default") = false ->
  field desc "count" = jnum n -> (0 < n < 2 ^ 32)%Z ->
  defaultFor desc st
  = (Ok (VRef (length (heap st))),
     set_heap (heap st ++ [TArr (replicate (Z.to_nat n) zero)]) st).
Proof.
  intros Hty Hdef Hc Hn. rewrite defaultFor_number_array by assumption.
  unfold or_else. rewrite Hc. simpl.
  destruct (Z.eqb_spec n 0) as [->|_]; [lia|]. simpl.
  apply Array_fill0_length. lia.
Qed.

Lemma defaultFor_count_range desc st n :
  type_is desc "number_array" = true ->
  is_defined (field desc "default") = false ->
  field desc "count" = jnum n -> (n < 0 \/ 2 ^ 32 <= n)%Z ->
  defaultFor desc st = (Throw RangeError, st).
Proof.
  intros Hty Hdef Hc Hn. rewrite defaultFor_number_array by assumption.
  unfold or_else. rewrite Hc. simpl.
  destruct (Z.eqb_spec n 0) as [->|_]; [lia|]. simpl.
  now apply Array_fill0_range.
Qed.

Lemma defaultFor_count_other desc st :
  type_is desc "number_array" = true ->
  is_defined (field desc "default") = false ->
  truthy (field desc "count") = true ->
  (forall n, field desc "count" <> jnum n) ->
  defaultFor desc st
  = (Ok (VRef (length (heap st))),
     set_heap (heap st ++ [TArr [zero]]) st).
Proof.
  intros Hty Hdef Hc Hnn. rewrite defaultFor_number_array by assumption.
  unfold or_else. rewrite Hc.
  destruct (field desc "count") as [[| | |n|]| |]; try reflexivity.
  now destruct (Hnn n).
Qed.

(** C10. For a number array without a literal default, a falsy [count]
    (missing, [null], [false], the empty string, and [0] as well) gives
    two zeros, never an empty array; a positive count (an array length)
    gives that many zeros. *)
Theorem defaultFor_falsy_count (desc : json) (st : app) :
  type_is desc "number_array" = true ->
  is_defined (field desc "default") = false ->
  (truthy (field desc "count") = false ->
   defaultFor desc st
   = (Ok (VRef (length (heap st))),
      set_heap (heap st ++ [TArr [zero; zero]]) st))
  /\ (field desc "count" = jnum 0 ->
      defaultFor desc st
      = (Ok (VRef (length (heap st))),
         set_heap (heap st ++ [TArr [zero; zero]]) st))
  /\ (forall n, field desc "count" = jnum n -> (0 < n < 2 ^ 32)%Z ->
      defaultFor desc st
      = (Ok (VRef (length (heap st))),
         set_heap (heap st ++ [TArr (replicate (Z.to_nat n) zero)]) st)).
Proof.
  intros Hty Hdef. split; [|split].
  - now apply defaultFor_count_falsy.
  - intros Hc. apply defaultFor_count_falsy; try assumption. now rewrite Hc.
  - intros n Hc Hn. now apply defaultFor_count_positive.
Qed.

Lemma defaultFor_falsy_count_witness :
  defaultFor (TObj [("type", jstr "number_array"); ("count", jnum 0)])
             (loaded [] None None)
  = (Ok (VRef 0), set_heap [TArr [zero; zero]] (loaded [] None None)).
Proof.
  apply (defaultFor_falsy_count
           (TObj [("type", jstr "number_array"); ("count", jnum 0)])
           (loaded [] None None)); reflexivity.
Defined.

(** C7, as amended.  The resolution order of [defaultFor]: [null] for a
    missing descriptor; a defined literal default first, returned as a
    fresh copy (a new location, the old heap untouched); otherwise by type
    tag, [false], [0], a zero-filled array, the empty string, the first
    resolved choice or the empty string, and what [getChoices] throws when
    it throws; [null] for any other tag.  The array has [count] elements
    for a count that is a positive array length, two for a falsy count,
    one for any other count that is not a number, and a number that is
    not an array length is a [RangeError].  And without a source, every
    value of the sanitized state, under a key other than [__proto__], is
    the default of its descriptor. *)
Theorem defaultFor_resolution (desc : json) (st : app) :
  (truthy desc = false -> defaultFor desc st = (Ok (VPrim PNull), st))
  /\ (truthy desc = true -> is_defined (field desc "default") = true ->
      exists v st',
        defaultFor desc st = (Ok v, st') /\ extends st st'
        /\ deref (heap st') v = field desc "default"
        /\ (forall l, v = VRef l -> l = length (heap st)))
  /\ (truthy desc = true -> is_defined (field desc "default") = false ->
      (type_is desc "boolean" = true ->
       defaultFor desc st = (Ok (VPrim (PBool false)), st))
      /\ (type_is desc "number" = true ->
          defaultFor desc st = (Ok (VPrim (PNum 0)), st))
      /\ (type_is desc "number_array" = true ->
          (truthy (field desc "count") = false ->
           defaultFor desc st
           = (Ok (VRef (length (heap st))),
              set_heap (heap st ++ [TArr [zero; zero]]) st))
          /\ (forall n, field desc "count" = jnum n -> (0 < n < 2 ^ 32)%Z ->
              defaultFor desc st
              = (Ok (VRef (length (heap st))),
                 set_heap (heap st ++ [TArr (replicate (Z.to_nat n) zero)])
                          st))
          /\ (forall n, field desc "count" = jnum n ->
                        (n < 0 \/ 2 ^ 32 <= n)%Z ->
              defaultFor desc st = (Throw RangeError, st))
          /\ (truthy (field desc "count") = true ->
              (forall n, field desc "count" <> jnum n) ->
              defaultFor desc st
              = (Ok (VRef (length (heap st))),
                 set_heap (heap st ++ [TArr [zero]]) st)))
      /\ (type_is desc "string" = true ->
          defaultFor desc st = (Ok (VPrim (PStr "")), st))
      /\ (type_is desc "choice" = true ->
          (forall l, getChoices desc = Ok l ->
                     defaultFor desc st = (Ok (VPrim (PStr (hd "" l))), st))
          /\ (forall e, getChoices desc = Throw e ->
                        defaultFor desc st = (Throw e, st)))
      /\ (type_is desc "boolean" = false -> type_is desc "number" = false ->
          type_is desc "number_array" = false ->
          type_is desc "string" = false -> type_is desc "choice" = false ->
          defaultFor desc st = (Ok (VPrim PNull), st)))
  /\ (forall out st',
        buildSanitizedFromSource None st = (Ok out, st') ->
        forall k,
          In k (keys (config_variables st)) ->
          is_section (descriptor (config_variables st) k) = false ->
          k <> "__proto__" ->
          exists v,
            assoc_get k out = Some v
            /\ forall st0 v0 st0',
                 defaultFor (descriptor (config_variables st) k) st0
                 = (Ok v0, st0') ->
                 deref (heap st') v = deref (heap st0') v0).
Proof.
  split; [|split; [|split]].
  - intros Hf. unfold defaultFor. now rewrite Hf.
  - intros Ht Hd.
    destruct (fresh_spec (field desc "default") st)
      as (v & st' & Hf & Hext & _ & Hder & Hloc).
    exists v, st'. unfold defaultFor. rewrite Ht, Hd. simpl. auto.
  - intros Ht Hd.
    split; [|split; [|split; [|split; [|split]]]].
    + intros Hty. unfold defaultFor. now rewrite Ht, Hd, Hty.
    + intros Hty. unfold defaultFor. rewrite Ht, Hd. simpl.
      rewrite (type_is_other _ _ "boolean" Hty) by discriminate.
      now rewrite Hty.
    + intros Hty. split; [|split; [|split]].
      * now apply defaultFor_count_falsy.
      * intros n Hc Hn. now apply defaultFor_count_positive.
      * intros n Hc Hn. now apply (defaultFor_count_range _ _ n).
      * now apply defaultFor_count_other.
    + intros Hty. unfold defaultFor. rewrite Ht, Hd. simpl.
      rewrite (type_is_other _ _ "boolean" Hty) by discriminate.
      rewrite (type_is_other _ _ "number" Hty) by discriminate.
      rewrite (type_is_other _ _ "number_array" Hty) by discriminate.
      now rewrite Hty.
    + intros Hty.
      assert (Hrun : defaultFor desc st
                     = match getChoices desc with
                       | Ok (c :: _) => (Ok (VPrim (PStr c)), st)
                       | Ok [] => (Ok (VPrim (PStr "")), st)
                       | Throw e => (Throw e, st)
                       end).
      { unfold defaultFor. rewrite Ht, Hd. simpl.
        rewrite (type_is_other _ _ "boolean" Hty) by discriminate.
        rewrite (type_is_other _ _ "number" Hty) by discriminate.
        rewrite (type_is_other _ _ "number_array" Hty) by discriminate.
        rewrite (type_is_other _ _ "string" Hty) by discriminate.
        rewrite Hty. now destruct (getChoices desc) as [[|c l]|e]. }
      split.
      * intros l Hl. rewrite Hrun, Hl. now destruct l.
      * intros e He. now rewrite Hrun, He.
    + intros Hb Hn Ha Hs Hc. unfold defaultFor.
      now rewrite Ht, Hd, Hb, Hn, Ha, Hs, Hc.
  - intros out st' Hrun k Hin Hns Hne.
    destruct (sanitize_keys _ _ _ _ Hrun) as [_ Hkeys].
    rewrite buildSanitizedFromSource_eq in Hrun.
    assert (Hk : In k (keys out)) by (apply Hkeys; auto).
    destruct (forEach_sanitize_defaults _ _ _ _ _ _ Hrun) with (k := k)
      as [Hval Htree]; [intros k' [] | exact Hk |].
    apply assoc_get_keys in Hk. destruct Hk as [v Hv].
    exists v. split; [exact Hv|].
    intros st0 v0 st0' Hd.
    rewrite (defaultFor_deref _ _ _ _ _ Htree Hd).
    unfold prop_get. now rewrite Hv.
Qed.

(** C7, as stated, fails.  A count of 0 gives two zeros, not an empty
    array; the count [-1] gives no array but a [RangeError]; the text "3"
    as a count gives one zero, not three; and a choice whose array holds
    an object that owns a property [toString] gives no text but a
    [TypeError]. *)
Lemma defaultFor_resolution_counterexample :
  (deref (heap (snd (defaultFor (TObj [("type", jstr "number_array");
                                        ("count", jnum 0)])
                                (loaded [] None None))))
         (VRef 0)
   = TArr [zero; zero]
   /\ TArr [zero; zero] <> TArr (replicate (Z.to_nat 0) zero))
  /\ fst (defaultFor (TObj [("type", jstr "number_array");
                            ("count", jnum (-1))])
                     (loaded [] None None))
     = Throw RangeError
  /\ (defaultFor (TObj [("type", jstr "number_array"); ("count", jstr "3")])
                 (loaded [] None None)
      = (Ok (VRef 0), set_heap [TArr [zero]] (loaded [] None None))
      /\ TArr [zero] <> TArr (replicate 3 zero))
  /\ fst (defaultFor (TObj [("type", jstr "choice");
                            ("choices",
                             TArr [TObj [("toString", jnum 1)]])])
                     (loaded [] None None))
     = Throw TypeError.
Proof.
  split; [split; [reflexivity | discriminate]|].
  split; [reflexivity|].
  split; [split; [reflexivity | discriminate]|].
  reflexivity.
Qed.

(** ** Editing an array element *)

Lemma array_count_configured h desc value c :
  field desc "count" = jnum c -> c <> 0%Z -> array_count h desc value = jnum c.
Proof.
  intros Hc Hne. unfold array_count, or_else. rewrite Hc. simpl.
  now destruct (Z.eqb_spec c 0).
Qed.

Lemma array_count_default h desc value :
  truthy (field desc "count") = false -> isArray h value = false ->
  array_count h desc value = jnum 2.
Proof.
  intros Hc Hna. unfold array_count, or_else, isArray in *. rewrite Hc.
  now destruct (deref h value).
Qed.

Lemma updatePreview_spec st :
  exists st',
    updatePreview st = (Ok tt, st')
    /\ variables st' = variables st /\ defaults st' = defaults st
    /\ heap st' = heap st /\ config_variables st' = config_variables st
    /\ status st' = status st
    /\ currentSearchTerm st' = currentSearchTerm st.
Proof.
  unfold updatePreview, bind, saveUserState. simpl.
  destruct (storage_writable st); eexists; (split; [reflexivity|]);
    repeat split.
Qed.

(** The input handler on a value that is not an array: the value is
    first replaced by a new zero-filled array of the element count the
    inputs were built with, when that count is an array length, and the
    edited index is then written in it. *)
Lemma array_input_fills (st : app) (key : string) (idx : nat) (n c : Z) :
  (0 <= c < 2 ^ 32)%Z ->
  (Z.of_nat idx < c)%Z ->
  key <> "__proto__" ->
  isArray (heap st) (prop_get key (variables st)) = false ->
  exists st',
    array_input key (jnum c) idx (Some n) st = (Ok tt, st')
    /\ prop_get key (variables st') = VRef (length (heap st))
    /\ heap st'
       = heap st ++ [TArr (<[idx := jnum n]> (replicate (Z.to_nat c) zero))]
    /\ (forall k, k <> key ->
                  prop_get k (variables st') = prop_get k (variables st))
    /\ defaults st' = defaults st.
Proof.
  intros Hc Hidx Hkey Hna.
  unfold array_input, bind, gets. rewrite Hna.
  change (negb false) with true. cbv beta iota.
  rewrite Array_fill0_length by assumption.
  unfold set_variable, bind, gets, lift, modify. cbv beta iota.
  cbn [variables set_heap]. rewrite own_set_other by assumption.
  cbv beta iota. cbn [variables set_variables].
  rewrite prop_get_set_eq. unfold store_index, bind, gets, modify.
  cbn [heap set_variables set_heap].
  rewrite lookup_app_r, Nat.sub_diag by lia. cbn [lookup list_lookup].
  set (st1 := set_heap _ _).
  destruct (updatePreview_spec st1) as (st' & Hup & Hv & Hd & Hh & _).
  exists st'. split; [exact Hup|].
  rewrite Hv, Hd, Hh. subst st1. cbn [heap set_variables set_heap variables defaults].
  rewrite prop_get_set_eq. split; [reflexivity|]. split.
  - rewrite insert_app_r_alt, Nat.sub_diag by lia. simpl.
    unfold write_index. rewrite length_replicate.
    destruct (Nat.ltb_spec idx (Z.to_nat c)); [reflexivity | lia].
  - split; [|reflexivity].
    intros k Hk. now apply prop_get_set_ne.
Qed.

(** C9. A number array for which the example gives [null]: typing 9 in
    its first input puts the array [9, 0] in place, but leaving that input
    empty throws, the handler of the loss of focus writing into the
    missing array without putting one in place first; the state is left
    as it was. *)
Theorem array_blur_without_array_throws :
  fst (loadExampleAndApply (FetchOk (Some [("a", jnull)]))
         (loaded null_array_config None None)) = Ok tt
  /\ variables null_array_loaded = [("a", VPrim PNull)]
  /\ isArray (heap null_array_loaded)
             (prop_get "a" (variables null_array_loaded)) = false
  /\ array_count (heap null_array_loaded)
                 (descriptor null_array_config "a")
                 (prop_get "a" (variables null_array_loaded)) = jnum 2
  /\ (let r := handle (ArrayInput "a" (jnum 2) 0 (Some 9%Z))
                      null_array_loaded in
      fst r = Ok tt
      /\ reify (heap (snd r)) (variables (snd r))
         = TObj [("a", TArr [jnum 9; jnum 0])])
  /\ (let r := handle (ArrayBlur "a" (descriptor null_array_config "a")
                                 0 None)
                      null_array_loaded in
      fst r = Throw TypeError
      /\ variables (snd r) = variables null_array_loaded
      /\ jsonPreview (snd r) = jsonPreview null_array_loaded).
Proof. vm_compute. repeat split. Qed.

(** ** Loading the example: shared arrays *)

(** C5. After the example is loaded, an array value of the example is one
    array held by both [variables] and [defaults]: the two calls of
    [buildSanitizedFromSource] copy the same reference.  Editing element 0
    of the variable then changes the default as well, from [1, 2] to
    [9, 2]. *)
Theorem load_example_shares_arrays :
  fst (loadExampleAndApply (FetchOk (Some demo_example))
         (loaded demo_config None None)) = Ok tt
  /\ prop_get "a" (variables demo_loaded) = VRef 0
  /\ prop_get "a" (defaults demo_loaded) = VRef 0
  /\ reify (heap demo_loaded) (defaults demo_loaded)
     = TObj [("a", TArr [jnum 1; jnum 2])]
  /\ fst (array_input "a" (jnum 2) 0 (Some 9%Z) demo_loaded) = Ok tt
  /\ reify (heap demo_edited) (variables demo_edited)
     = TObj [("a", TArr [jnum 9; jnum 2])]
  /\ reify (heap demo_edited) (defaults demo_edited)
     = TObj [("a", TArr [jnum 9; jnum 2])]
  /\ reify (heap demo_edited) (defaults demo_edited)
     <> reify (heap demo_loaded) (defaults demo_loaded).
Proof. vm_compute. repeat split; discriminate. Qed.

(** The sharing is general: two sanitizations of one source put the same
    value, hence for an array the same reference, under every key they
    take from it. *)
Lemma sanitize_twice_shares_values src st1 st2 out1 out2 st1' st2' k v :
  config_variables st2 = config_variables st1 ->
  buildSanitizedFromSource (Some src) st1 = (Ok out1, st1') ->
  buildSanitizedFromSource (Some src) st2 = (Ok out2, st2') ->
  assoc_get k src = Some v ->
  In k (keys (config_variables st1)) ->
  is_section (descriptor (config_variables st1) k) = false ->
  k <> "__proto__" ->
  prop_get k out1 = v /\ prop_get k out2 = v.
Proof.
  intros Hcfg Hrun1 Hrun2 Hsrc Hin Hns Hne.
  assert (Hcopy : forall st out st',
            config_variables st = config_variables st1 ->
            buildSanitizedFromSource (Some src) st = (Ok out, st') ->
            prop_get k out = v).
  { intros st out st' Hc Hrun.
    destruct (sanitize_copies_values _ _ _ _ Hrun k v) as [_ Hget];
      rewrite ?Hc; auto. }
  split.
  - now apply (Hcopy st1 out1 st1').
  - now apply (Hcopy st2 out2 st2').
Qed.

(** When the fetch fails the two states are built from the descriptors
    alone and share nothing: the same edit leaves the default at
    [0, 0]. *)
Example load_failure_keeps_defaults :
  let st := snd (loadExampleAndApply FetchFailed (loaded demo_config None None)) in
  let st' := snd (array_input "a" (jnum 2) 0 (Some 9%Z) st) in
  reify (heap st') (variables st') = TObj [("a", TArr [jnum 9; jnum 0])]
  /\ reify (heap st') (defaults st') = TObj [("a", TArr [jnum 0; jnum 0])].
Proof. vm_compute. split; reflexivity. Qed.

(** ** Round trip of the display text *)

(** C3. An array of strings does not survive the display text: the
    collapsing step rewrites the comma inside the string "x,y", and
    reading the text back gives "x, y".  The text before collapsing does
    read back as the state. *)
Theorem prettyPrintJSON_rewrites_strings :
  JSON_parse (JSON_stringify_2 (TObj [("a", TArr [jstr "x,y"])]))
  = Some (TObj [("a", TArr [jstr "x,y"])])
  /\ prettyPrintJSON (TObj [("a", TArr [jstr "x,y"])])
     = "{" +:+ nl +:+ "  " +:+ dquote +:+ "a" +:+ dquote +:+ ": ["
       +:+ dquote +:+ "x, y" +:+ dquote +:+ "]" +:+ nl +:+ "}"
  /\ JSON_parse (prettyPrintJSON (TObj [("a", TArr [jstr "x,y"])]))
     = Some (TObj [("a", TArr [jstr "x, y"])])
  /\ JSON_parse (prettyPrintJSON (TObj [("a", TArr [jstr "x,y"])]))
     <> Some (TObj [("a", TArr [jstr "x,y"])]).
Proof. vm_compute. repeat split; discriminate. Qed.

(** Two different states with one display text: no reader can give both
    back. *)
Example prettyPrintJSON_not_injective :
  prettyPrintJSON (TObj [("a", TArr [jstr "x,y"])])
  = prettyPrintJSON (TObj [("a", TArr [jstr "x, y"])]).
Proof. vm_compute. reflexivity. Qed.

(** Arrays of numbers and booleans, and strings outside arrays, read
    back unchanged. *)
Example prettyPrintJSON_round_trip_sample :
  JSON_parse
    (prettyPrintJSON
       (TObj [("flag", jbool true); ("n", jnum (-12));
              ("s", jstr "[a, b],c"); ("v", TArr [jnum 0; jnum 1; jnum (-5)]);
              ("e", TArr [])]))
  = Some (TObj [("flag", jbool true); ("n", jnum (-12));
                ("s", jstr "[a, b],c"); ("v", TArr [jnum 0; jnum 1; jnum (-5)]);
                ("e", TArr [])]).
Proof. vm_compute. reflexivity. Qed.

(** ** Reset *)

Lemma extends_length st st' :
  extends st st' -> (length (heap st) <= length (heap st'))%nat.
Proof. intros [c ->]. simpl. rewrite length_app. lia. Qed.

Lemma fresh_prim t p st : t = TPrim p -> fresh t st = (Ok (VPrim p), st).
Proof. now intros ->. Qed.

Lemma prop_get_cons k k0 v (o : obj) :
  prop_get k ((k0, v) :: o) = if String.eqb k k0 then v else prop_get k o.
Proof. unfold prop_get. simpl. now destruct (String.eqb k k0). Qed.

(** The object built for a document has its keys and stands for it,
    value by value, and all its references are new. *)
Lemma materialize_spec doc :
  forall st, exists o st',
    materialize doc st = (Ok o, st') /\ extends st st'
    /\ keys o = keys doc
    /\ forall k, In k (keys doc) ->
         valid (heap st') (prop_get k o)
         /\ deref (heap st') (prop_get k o) = doc_get k doc
         /\ (forall l, prop_get k o = VRef l -> (length (heap st) <= l)%nat)
         /\ (forall p, doc_get k doc = TPrim p -> prop_get k o = VPrim p).
Proof.
  induction doc as [|[k0 t] doc IH]; intros st.
  - exists [], st. split; [reflexivity|]. split; [apply extends_refl|].
    split; [reflexivity|]. intros k [].
  - destruct (fresh_spec t st) as (v & st1 & Hf & Hext1 & Hval & Hder & Hloc).
    destruct (IH st1) as (o & st2 & Hm & Hext2 & Hkeys & Hall).
    exists ((k0, v) :: o), st2. split.
    { simpl. unfold bind. now rewrite Hf, Hm. }
    split; [eapply extends_trans; eassumption|].
    split; [simpl; now rewrite Hkeys|].
    intros k Hin. rewrite prop_get_cons. unfold doc_get. simpl.
    destruct (String.eqb_spec k k0) as [->|Hne].
    + split; [eapply extends_valid; eassumption|]. split.
      { now rewrite (extends_deref _ _ _ Hext2 Hval). }
      split.
      * intros l Hl. rewrite (Hloc l Hl). lia.
      * intros p ->. rewrite (fresh_prim _ _ st eq_refl) in Hf. congruence.
    + assert (Hin' : In k (keys doc))
        by (destruct Hin as [Heq|H]; [simpl in Heq; congruence | exact H]).
      destruct (Hall k Hin') as (Hv & Hd & Hl & Hp). split; [exact Hv|].
      split; [exact Hd|]. split; [|exact Hp].
      intros l Hkl. specialize (Hl l Hkl).
      pose proof (extends_length _ _ Hext1). lia.
Qed.

Lemma fresh_plain t st v st' : fresh t st = (Ok v, st') -> plain v.
Proof.
  destruct t as [p| |]; simpl; unfold alloc, ret; intros [= <- _]; exact I.
Qed.

Lemma materialize_plain doc :
  forall st o st',
    materialize doc st = (Ok o, st') ->
    forall k, In k (keys doc) -> plain (prop_get k o).
Proof.
  induction doc as [|[k0 t] doc IH]; intros st o st' Hm k Hin; [destruct Hin|].
  cbn [materialize] in Hm. unfold bind in Hm.
  destruct (fresh t st) as [[v|e] st1] eqn:Hf; [|discriminate].
  destruct (materialize doc st1) as [[o'|e] st2] eqn:Hm'; [|discriminate].
  injection Hm as <- <-. rewrite prop_get_cons.
  destruct (String.eqb_spec k k0) as [->|Hne].
  - eapply fresh_plain; eassumption.
  - eapply IH; [eassumption|].
    destruct Hin as [Heq|H]; [simpl in Heq; congruence | exact H].
Qed.


(** *** Computations that leave the state alone *)

Lemma stateless_ret {A} (a : A) : stateless (ret a).
Proof. intros st. reflexivity. Qed.

Lemma stateless_throw {A} e : stateless (@throw A e).
Proof. intros st. reflexivity. Qed.

Lemma stateless_lift {A} (r : res A) : stateless (lift r).
Proof. intros st. reflexivity. Qed.

Lemma stateless_gets {A} (f : app -> A) : stateless (gets f).
Proof. intros st. reflexivity. Qed.

Lemma stateless_bind {A B} (m : M A) (f : A -> M B) :
  stateless m -> (forall a, stateless (f a)) -> stateless (bind m f).
Proof.
  intros Hm Hf st. unfold bind. specialize (Hm st).
  destruct (m st) as [[a|e] st1]; simpl in Hm; subst;
    [apply Hf | reflexivity].
Qed.

(** After a computation that leaves the state alone, the next one runs
    in the same state. *)
Lemma bind_stateless {A B} (m : M A) (f : A -> M B) st :
  stateless m ->
  bind m f st
  = match fst (m st) with Ok a => f a st | Throw e => (Throw e, st) end.
Proof.
  intros Hm. unfold bind. specialize (Hm st).
  destruct (m st) as [[a|e] st1]; simpl in *; now subst.
Qed.

Lemma stateless_to_text j : stateless (to_text j).
Proof.
  unfold to_text. destruct (unprintable j);
    [apply stateless_throw | apply stateless_ret].
Qed.

Lemma stateless_to_text_value v : stateless (to_text_value v).
Proof.
  destruct v as [p|l|b]; simpl; try apply stateless_ret.
  apply stateless_bind; [apply stateless_gets|].
  intros h. apply stateless_to_text.
Qed.

Lemma stateless_String_value v : stateless (String_value v).
Proof.
  assert (Hd : forall w, stateless (let* h := gets heap in
                                    lift (String_ (deref h w)))).
  { intros w. apply stateless_bind; [apply stateless_gets|].
    intros h. apply stateless_lift. }
  destruct v as [p|l|b]; cbn [String_value]; [apply Hd | apply Hd |].
  destruct (String.eqb b "__proto__");
    [apply stateless_ret | apply stateless_throw].
Qed.

Lemma stateless_forEach {A B} (f : B -> A -> M B) l :
  (forall acc x, stateless (f acc x)) ->
  forall acc, stateless (forEach f acc l).
Proof.
  intros Hf. induction l as [|x l IH]; intros acc; simpl.
  - apply stateless_ret.
  - apply stateless_bind; [apply Hf | exact IH].
Qed.

Ltac stateless_step :=
  first
    [ apply stateless_ret | apply stateless_throw | apply stateless_lift
    | apply stateless_gets | apply stateless_to_text
    | apply stateless_to_text_value | apply stateless_String_value
    | apply stateless_bind; [|intros ?]
    | match goal with
      | |- stateless (if ?b then _ else _) => destruct b
      | |- stateless (match ?x with _ => _ end) => destruct x
      end ].

Ltac stateless_tac := repeat stateless_step.

Lemma stateless_initial_value value desc first :
  stateless (initial_value value desc first).
Proof. unfold initial_value. stateless_tac. Qed.

Lemma stateless_text_match x term : stateless (text_match x term).
Proof. unfold text_match. stateless_tac. Qed.

Lemma stateless_matchesSearch key desc term :
  stateless (matchesSearch key desc term).
Proof.
  unfold matchesSearch.
  destruct (String.eqb term ""); [apply stateless_ret|].
  destruct (is_section desc); [apply stateless_ret|].
  apply stateless_bind.
  { destruct (truthy desc);
      [apply stateless_text_match | apply stateless_ret]. }
  intros labelMatch. apply stateless_bind.
  { destruct (truthy desc);
      [apply stateless_text_match | apply stateless_ret]. }
  intros helpMatch. apply stateless_ret.
Qed.

(** *** What rendering writes *)

Lemma render_frame_refl vars st : render_frame vars st st.
Proof.
  repeat split; auto. exists []. now rewrite app_nil_r.
Qed.

Lemma render_frame_trans vars st1 st2 st3 :
  render_frame vars st1 st2 -> render_frame vars st2 st3 ->
  render_frame vars st1 st3.
Proof.
  intros ([c1 H1] & Hd1 & Hs1 & Hc1 & Ht1 & Hv1)
         ([c2 H2] & Hd2 & Hs2 & Hc2 & Ht2 & Hv2).
  repeat split; try congruence.
  - exists (c1 ++ c2). rewrite H2, H1. now rewrite app_assoc.
  - intros k Hk. rewrite Hv2; rewrite Hv1; auto.
Qed.

Lemma extends_render_frame vars st st' :
  extends st st' -> render_frame vars st st'.
Proof. intros [c ->]. repeat split; auto. now exists c. Qed.

Lemma defaultFor_extends desc st : extends st (snd (defaultFor desc st)).
Proof.
  rewrite defaultFor_tree.
  destruct (default_tree desc) as [t|e]; [|apply extends_refl].
  destruct (fresh_spec t st) as (v & st' & -> & Hext & _). exact Hext.
Qed.

Lemma existsb_eqb_In s l : In s l -> existsb (String.eqb s) l = true.
Proof.
  intros Hin. apply existsb_exists. exists s. split; [exact Hin|].
  apply String.eqb_refl.
Qed.

Lemma immediate_str v s : immediate v = jstr s -> v = VPrim (PStr s).
Proof.
  destruct v as [p|l|b]; simpl; [now intros [= ->] | discriminate | discriminate].
Qed.

(** [makeControl] either leaves the state alone, or is the builder of a
    choice with options and stores the text its [select] reports. *)
Lemma makeControl_state key value desc st :
  snd (makeControl key value desc st) = st
  \/ exists first rest initial vs',
       type_is desc "choice" = true
       /\ getChoices desc = Ok (first :: rest)
       /\ fst (initial_value value desc first st) = Ok initial
       /\ own_set key (VPrim (PStr (select_value (first :: rest) initial)))
                  (variables st) = Ok vs'
       /\ makeControl key value desc st = (Ok tt, set_variables vs' st).
Proof.
  destruct (makeControl key value desc st) as [r st'] eqn:Hrun. cbn [snd].
  assert (Hless : forall m : M unit, stateless m -> m st = (r, st') ->
                                     st' = st).
  { intros m Hm Hr. specialize (Hm st). now rewrite Hr in Hm. }
  unfold makeControl in Hrun.
  rewrite bind_stateless in Hrun by stateless_tac.
  match type of Hrun with
  | context [match fst ?x with _ => _ end] => destruct (fst x) as [[]|e]
  end; [|left; now injection Hrun as _ <-].
  rewrite bind_stateless in Hrun by stateless_tac.
  match type of Hrun with
  | context [match fst ?x with _ => _ end] => destruct (fst x) as [[]|e]
  end; [|left; now injection Hrun as _ <-].
  destruct (truthy desc && type_is desc "boolean");
    [left; now injection Hrun as _ <-|].
  destruct (truthy desc && type_is desc "choice") eqn:Hchoice.
  - apply andb_prop in Hchoice. destruct Hchoice as [_ Hty].
    rewrite bind_stateless in Hrun by apply stateless_lift.
    unfold lift at 1 in Hrun. cbn [fst] in Hrun.
    destruct (getChoices desc) as [[|first rest]|e] eqn:Hch;
      [| |left; now injection Hrun as _ <-].
    + left. eapply Hless; [apply stateless_to_text_value | exact Hrun].
    + rewrite bind_stateless in Hrun by apply stateless_initial_value.
      destruct (fst (initial_value value desc first st)) as [initial|e]
        eqn:Hinit; [|left; now injection Hrun as _ <-].
      unfold bind, gets, lift, modify in Hrun.
      destruct (own_set key
                  (VPrim (PStr (select_value (first :: rest) initial)))
                  (variables st)) as [vs'|e] eqn:Hset;
        [|left; now injection Hrun as _ <-].
      right. exists first, rest, initial, vs'.
      split; [exact Hty|]. split; [reflexivity|]. split; [exact Hinit|].
      split; [exact Hset | now rewrite <- Hrun].
  - left. eapply Hless; [|exact Hrun].
    destruct (truthy desc && type_is desc "number" && _).
    { stateless_tac. }
    destruct (truthy desc && type_is desc "number_array");
      [|apply stateless_ret].
    apply stateless_bind; [apply stateless_gets|]. intros h.
    apply stateless_bind; [apply stateless_lift|]. intros n.
    apply stateless_forEach. intros acc i. stateless_tac.
Qed.

(** The text a select starts with when the variable holds a non-empty
    text. *)
Lemma initial_value_text s desc first st :
  s <> "" -> initial_value (VPrim (PStr s)) desc first st = (Ok s, st).
Proof.
  intros Hs. unfold initial_value, String_value, bind, gets, lift.
  cbn [deref String_]. apply String.eqb_neq in Hs. now rewrite Hs.
Qed.

(** A control built for the current value of its variable, or for a
    default when the variable is [undefined]. *)
Lemma makeControl_frame vars k val st :
  prop_get k (variables st) = val \/ prop_get k (variables st) = VPrim PUndef ->
  render_frame vars st
    (snd (makeControl k val (or_else (descriptor vars k) (TObj [])) st)).
Proof.
  intros Hval.
  destruct (makeControl_state k val (or_else (descriptor vars k) (TObj [])) st)
    as [->|(first & rest & initial & vs' & Hty & Hch & Hinit & Hset & ->)];
    [apply render_frame_refl|].
  assert (Hdesc : or_else (descriptor vars k) (TObj []) = descriptor vars k).
  { unfold or_else in *.
    destruct (truthy (descriptor vars k)); [reflexivity | discriminate]. }
  rewrite Hdesc in *.
  cbn [snd]. split; [exists []; now rewrite app_nil_r|].
  repeat (split; [reflexivity|]).
  intros k' Hsettled. cbn [variables set_variables].
  apply own_set_ok in Hset.
  destruct Hset as [(_ & _ & ->)|(_ & ->)]; [reflexivity|].
  destruct (String.eqb_spec k k') as [<-|Hne]; [|now apply prop_get_set_ne].
  rewrite prop_get_set_eq.
  destruct Hsettled as [Hnc|(s & l & Himm & Hs & Hl & Hin)]; [congruence|].
  apply immediate_str in Himm. rewrite Himm in *.
  destruct Hval as [<-|Hundef]; [|discriminate].
  rewrite initial_value_text in Hinit by assumption.
  injection Hinit as <-.
  unfold select_value. rewrite Hch in Hl. injection Hl as <-.
  now rewrite (existsb_eqb_In s (first :: rest) Hin).
Qed.

Lemma render_key_frame vars k st :
  render_frame vars st (snd (render_key vars k st)).
Proof.
  unfold render_key. unfold bind at 1, gets at 1.
  destruct (type_is (or_else (descriptor vars k) (TObj [])) "section").
  { match goal with |- render_frame _ _ (snd (?m st)) =>
      assert (Hm : stateless m) by stateless_tac end.
    rewrite Hm. apply render_frame_refl. }
  rewrite bind_stateless by apply stateless_matchesSearch.
  destruct (fst _) as [shown|e]; [|apply render_frame_refl].
  destruct shown; simpl; [|apply render_frame_refl].
  unfold bind at 1, gets at 1.
  assert (Hd : forall desc,
            prop_get k (variables st) = VPrim PUndef ->
            render_frame vars st
              (snd (bind (defaultFor desc)
                         (fun val => makeControl k val
                            (or_else (descriptor vars k) (TObj []))) st))).
  { intros desc Hundef. unfold bind.
    pose proof (defaultFor_extends desc st) as Hext.
    destruct (defaultFor desc st) as [[v|e] st1]; simpl in Hext.
    - eapply render_frame_trans; [apply extends_render_frame; exact Hext|].
      apply makeControl_frame. right.
      destruct Hext as [cells ->]. exact Hundef.
    - now apply extends_render_frame. }
  destruct (prop_get k (variables st)) as [[| | | |]|l|b] eqn:Hpg;
    first [now apply Hd
          | unfold bind, ret; apply makeControl_frame; now left].
Qed.

Lemma forEach_render_frame vars ks :
  forall st,
    render_frame vars st
      (snd (forEach (fun _ k => render_key vars k) tt ks st)).
Proof.
  induction ks as [|k ks IH]; intros st; [apply render_frame_refl|].
  rewrite forEach_cons.
  pose proof (render_key_frame vars k st) as Hk.
  destruct (render_key vars k st) as [[[]|e] st1]; simpl in Hk; [|exact Hk].
  eapply render_frame_trans; [exact Hk | apply IH].
Qed.

Lemma renderControlsForVariables_frame st :
  render_frame (config_variables st) st
    (snd (renderControlsForVariables st)).
Proof. apply forEach_render_frame. Qed.

Lemma deref_app h cells v : valid h v -> deref (h ++ cells) v = deref h v.
Proof.
  destruct v as [p|l|b]; simpl; [reflexivity| |reflexivity].
  intros Hl. now rewrite lookup_app_l.
Qed.

(** What is left of a state object after the preview is refreshed and the
    controls are rendered again. *)
Lemma refresh_frame st :
  render_frame (config_variables st) st
    (snd ((updatePreview >> renderControlsForVariables) st)).
Proof.
  unfold bind.
  destruct (updatePreview_spec st) as (st1 & Hup & Hv & Hd & Hh & Hc & Hs & Ht).
  rewrite Hup.
  eapply render_frame_trans;
    [|rewrite <- Hc; apply renderControlsForVariables_frame].
  split; [exists []; now rewrite app_nil_r|].
  repeat split; congruence.
Qed.




(** ** Worked instances *)

Lemma defaultFor_resolution_witness :
  defaultFor (TObj [("type", jstr "choice"); ("choice_2", jstr "B");
                    ("choice_1", jstr "A")])
             (loaded [] None None)
  = (Ok (VPrim (PStr "A")), loaded [] None None).
Proof.
  destruct (defaultFor_resolution
              (TObj [("type", jstr "choice"); ("choice_2", jstr "B");
                     ("choice_1", jstr "A")])
              (loaded [] None None))
    as (_ & _ & Htag & _).
  destruct Htag as (_ & _ & _ & _ & Hchoice & _);
    [reflexivity | reflexivity |].
  destruct Hchoice as [Hok _]; [reflexivity|].
  apply (Hok ["A"; "B"]). reflexivity.
Defined.



(** * Further properties of the script *)

(** ** The entry patched in a pack *)

Lemma endsWith_app a suffix : endsWith (a +:+ suffix) suffix = true.
Proof.
  induction a as [|c a IH].
  - change ("" +:+ suffix) with suffix.
    destruct suffix; [reflexivity|]. cbn [endsWith].
    now rewrite String.eqb_refl.
  - change (String c a +:+ suffix) with (String c (a +:+ suffix)).
    cbn [endsWith]. rewrite IH.
    now destruct (String.eqb (String c (a +:+ suffix)) suffix).
Qed.

Lemma endsWith_spec s suffix :
  endsWith s suffix = true <-> exists a, s = a +:+ suffix.
Proof.
  split.
  - induction s as [|c s IH]; cbn [endsWith].
    + destruct (String.eqb_spec "" suffix) as [<-|Hne]; intros H;
        [now exists "" | discriminate].
    + destruct (String.eqb_spec (String c s) suffix) as [<-|Hne]; intros H.
      * now exists "".
      * destruct (IH H) as [a ->]. now exists (String c a).
  - intros [a ->]. apply endsWith_app.
Qed.

Lemma app_assoc_string (a b c : string) : (a +:+ b) +:+ c = a +:+ (b +:+ c).
Proof.
  induction a as [|x a IH]; [reflexivity|].
  change (String x ((a +:+ b) +:+ c) = String x (a +:+ (b +:+ c))).
  now rewrite IH.
Qed.

Lemma before_first_absent sep s :
  sep <> "" -> includes s sep = false -> before_first sep s = s.
Proof.
  intros Hsep. induction s as [|c s IH]; simpl.
  - destruct (strip_prefix sep ""); [discriminate | reflexivity].
  - destruct (strip_prefix sep (String c s)); [discriminate|].
    intros H. now rewrite IH.
Qed.

(** The text before the first occurrence is a prefix of the path. *)
Lemma before_first_prefix sep s : exists rest, s = before_first sep s +:+ rest.
Proof.
  induction s as [|c s IH]; simpl.
  - destruct (strip_prefix sep ""); now exists "".
  - destruct (strip_prefix sep (String c s)); [now exists (String c s)|].
    destruct IH as [rest IH]. exists rest.
    change (String c s = String c (before_first sep s +:+ rest)).
    now rewrite <- IH.
Qed.

(** The first element that passes a test, and what precedes it. *)
Lemma find_first_split {A} (P : A -> bool) (l : list A) (x : A) :
  In x l -> P x = true ->
  exists y before after,
    List.find P l = Some y /\ l = before ++ y :: after /\ P y = true
    /\ forall z, In z before -> P z = false.
Proof.
  induction l as [|a l IH]; intros Hin Hx; [destruct Hin|].
  simpl. destruct (P a) eqn:Ha.
  - exists a, [], l. repeat split; auto. intros z [].
  - destruct Hin as [->|Hin]; [congruence|].
    destruct (IH Hin Hx) as (y & before & after & Hfind & -> & Hy & Hb).
    exists y, (a :: before), after. repeat split; auto.
    intros z [<-|Hz]; auto.
Qed.

(** X1. Whatever the archive lists, the entry the handler writes ends with
    the fixed relative path of the variables file. *)
Theorem findTargetPath_entry (files : list string) (target : string) :
  findTargetPath files = Some target ->
  endsWith target pack_entry = true.
Proof.
  unfold findTargetPath.
  destruct (List.find (fun path => endsWith path pack_entry) files)
    as [path|] eqn:Hfirst.
  - intros [= <-]. now apply List.find_some in Hfirst.
  - destruct (List.find in_ui_folder files) as [path|]; [|discriminate].
    intros [= <-]. rewrite <- app_assoc_string. apply endsWith_app.
Qed.

Lemma findTargetPath_entry_witness :
  endsWith "Pack/ui/_global_variables.json" pack_entry = true.
Proof.
  apply (findTargetPath_entry ["Pack/manifest.json"; "Pack/ui/hud.json"]).
  reflexivity.
Defined.

(** X2. An entry already in the archive wins: when some listed path ends
    with the entry name, the handler writes to the first such path, a path
    of the archive, so the entry is replaced and not added a second time. *)
Theorem findTargetPath_existing (files : list string) (path : string) :
  In path files -> endsWith path pack_entry = true ->
  exists target before after,
    findTargetPath files = Some target
    /\ files = before ++ target :: after
    /\ endsWith target pack_entry = true
    /\ forall p, In p before -> endsWith p pack_entry = false.
Proof.
  intros Hin Hends. unfold findTargetPath.
  destruct (find_first_split (fun p => endsWith p pack_entry) files path
              Hin Hends)
    as (target & before & after & Hfind & Hsplit & Ht & Hb).
  rewrite Hfind. now exists target, before, after.
Qed.

Lemma findTargetPath_existing_witness :
  exists target before after,
    findTargetPath ["P/ui/a.json"; "P/ui/_global_variables.json"] = Some target
    /\ ["P/ui/a.json"; "P/ui/_global_variables.json"]
       = before ++ target :: after
    /\ endsWith target pack_entry = true
    /\ forall p, In p before -> endsWith p pack_entry = false.
Proof.
  apply (findTargetPath_existing
           ["P/ui/a.json"; "P/ui/_global_variables.json"]
           "P/ui/_global_variables.json").
  - right. left. reflexivity.
  - reflexivity.
Defined.

(** X3. The handler gives up (it throws for want of a [ui] folder) exactly
    when no listed path ends with the entry name, contains [/ui/] or starts
    with [ui/]. *)
Theorem findTargetPath_none (files : list string) :
  findTargetPath files = None <->
  forall path, In path files ->
    endsWith path pack_entry = false /\ in_ui_folder path = false.
Proof.
  unfold findTargetPath. split.
  - destruct (List.find (fun path => endsWith path pack_entry) files)
      eqn:Hfirst; [discriminate|].
    destruct (List.find in_ui_folder files) eqn:Hsecond; [discriminate|].
    intros _ path Hin. split.
    + apply (List.find_none _ _ Hfirst path Hin).
    + apply (List.find_none _ _ Hsecond path Hin).
  - intros Hall.
    destruct (List.find (fun path => endsWith path pack_entry) files)
      as [p|] eqn:Hfirst.
    { apply List.find_some in Hfirst. destruct Hfirst as [Hin Hp].
      destruct (Hall p Hin). congruence. }
    destruct (List.find in_ui_folder files) as [p|] eqn:Hsecond;
      [|reflexivity].
    apply List.find_some in Hsecond. destruct Hsecond as [Hin Hp].
    destruct (Hall p Hin). congruence.
Qed.

(** X4. A [ui] folder at the top of the archive: when no entry exists and
    the first path inside a [ui] folder starts with [ui/] without
    containing [/ui/], nothing is split off it, and the entry is written
    under that whole path, not under the folder. *)
Theorem findTargetPath_top_level (files : list string) (path : string) :
  List.find (fun p => endsWith p pack_entry) files = None ->
  List.find in_ui_folder files = Some path ->
  includes path "/ui/" = false ->
  findTargetPath files = Some (path +:+ "/" +:+ pack_entry)
  /\ startsWith path "ui/" = true.
Proof.
  intros Hfirst Hsecond Hno. unfold findTargetPath.
  rewrite Hfirst, Hsecond.
  rewrite (before_first_absent "/ui/" path) by (discriminate || assumption).
  apply List.find_some in Hsecond. destruct Hsecond as [_ Hui].
  unfold in_ui_folder in Hui. rewrite Hno in Hui. simpl in Hui.
  split; [|exact Hui].
  destruct path as [|c path]; [discriminate|]. reflexivity.
Qed.

Lemma findTargetPath_top_level_witness :
  findTargetPath ["manifest.json"; "ui/hud.json"]
  = Some ("ui/hud.json" +:+ "/" +:+ pack_entry)
  /\ startsWith "ui/hud.json" "ui/" = true.
Proof.
  apply (findTargetPath_top_level ["manifest.json"; "ui/hud.json"]);
    reflexivity.
Defined.

(** ** The two shapes of the configuration *)

Lemma assoc_get_app_new {A} k (v : A) l1 l2 :
  ~ In k (keys l1) -> assoc_get k (l1 ++ (k, v) :: l2) = Some v.
Proof.
  induction l1 as [|[k' v'] l1 IH]; simpl; intros Hnot.
  - now rewrite String.eqb_refl.
  - destruct (String.eqb_spec k k') as [->|Hne]; [tauto|].
    apply IH. tauto.
Qed.

Lemma keys_filter_In (P : string * json -> bool) k l :
  In k (keys (List.filter P l)) -> In k (keys l).
Proof.
  unfold keys. rewrite !in_map_iff.
  intros ([k' v] & <- & Hin). apply List.filter_In in Hin.
  exists (k', v). tauto.
Qed.

(** The loop of the flat shape, from any point of the key list on. *)
Lemma flat_copy_from l2 :
  forall l1 pn,
    NoDup (keys (l1 ++ l2)) ->
    plain_names l2 ->
    (In "pageName" (keys l1) -> pn = field (TObj (l1 ++ l2)) "pageName") ->
    (~ In "pageName" (keys l1) -> pn = undefined) ->
    flat_copy (TObj (l1 ++ l2)) (keys l2) pn (List.filter not_pageName l1)
    = Ok (field (TObj (l1 ++ l2)) "pageName",
          List.filter not_pageName (l1 ++ l2)).
Proof.
  induction l2 as [|[k v] l2 IH]; intros l1 pn Hnd Hplain Hin Hnot.
  - simpl. rewrite app_nil_r in *. do 2 f_equal.
    destruct (in_dec string_dec "pageName" (keys l1)) as [H|H]; auto.
    rewrite (Hnot H). unfold field. simpl.
    destruct (assoc_get "pageName" l1) eqn:Hget; [|reflexivity].
    exfalso. apply H. apply assoc_get_keys. eauto.
  - assert (Hk : ~ In k (keys l1)).
    { unfold keys in *. rewrite map_app in Hnd. simpl in Hnd.
      apply NoDup_app in Hnd. destruct Hnd as (_ & Hdisj & _).
      intros Hk. apply (Hdisj k); apply list_elem_of_In; [exact Hk|].
      now left. }
    assert (Hplain' : plain_names l2)
      by (intros k' Hk'; apply Hplain; now right).
    destruct (Hplain k) as [Hproto Hidx]; [now left|].
    assert (Heq : l1 ++ (k, v) :: l2 = (l1 ++ [(k, v)]) ++ l2)
      by now rewrite <- app_assoc.
    simpl. destruct (String.eqb_spec k "pageName") as [->|Hne].
    + replace (List.filter not_pageName l1)
        with (List.filter not_pageName (l1 ++ [("pageName", v)]))
        by now rewrite List.filter_app, app_nil_r.
      rewrite Heq. apply IH.
      * now rewrite <- Heq.
      * exact Hplain'.
      * now intros _.
      * intros H. exfalso. apply H. unfold keys. rewrite map_app.
        apply in_or_app. right. now left.
    + assert (Hget : field (TObj (l1 ++ (k, v) :: l2)) k = v).
      { unfold field. simpl. now rewrite assoc_get_app_new. }
      rewrite Hget. unfold own_set_tree.
      destruct (String.eqb_spec k "__proto__") as [|_]; [contradiction|].
      cbn [andb res_bind].
      rewrite assoc_set_new.
      2:{ exact Hidx. }
      2:{ destruct (assoc_get k (List.filter not_pageName l1)) eqn:Hg;
            [|reflexivity].
          exfalso. apply Hk. eapply keys_filter_In.
          apply assoc_get_keys. eauto. }
      replace (List.filter not_pageName l1 ++ [(k, v)])
        with (List.filter not_pageName (l1 ++ [(k, v)])).
      2:{ rewrite List.filter_app. simpl. unfold not_pageName at 2. simpl.
          now destruct (String.eqb_spec k "pageName"). }
      rewrite Heq. apply IH.
      * now rewrite <- Heq.
      * exact Hplain'.
      * intros H. rewrite <- Heq. apply Hin.
        unfold keys in *. rewrite map_app in H. apply in_app_or in H.
        destruct H as [H|[H|[]]]; [exact H | simpl in H; congruence].
      * intros H. apply Hnot. intros H'. apply H.
        unfold keys. rewrite map_app. apply in_or_app. now left.
Qed.

Lemma loadConfig_flat_object ps current :
  NoDup (keys ps) ->
  plain_names ps ->
  truthy (field (TObj ps) "variables") = false ->
  loadConfig (ConfigOk (TObj ps)) current
  = Ok (titled
          (mkConfig (or_else (field (TObj ps) "pageName") (pageName current))
                    (TObj (List.filter not_pageName ps)))).
Proof.
  intros Hnd Hplain Hfalsy. unfold loadConfig. rewrite Hfalsy.
  unfold object_keys, own_props.
  pose proof (flat_copy_from ps [] undefined) as Hcopy.
  simpl in Hcopy. rewrite Hcopy; auto. intros [].
Qed.

(** X5. The old flat shape, for a document whose top-level names are
    ordinary and whose page name, if it takes one, converts to text:
    every top-level key other than [pageName] becomes a variable, with its
    value and in its place, and the page name of the file is taken when it
    is truthy, the one in place otherwise. *)
Theorem loadConfig_flat (ps : list (string * json)) (current : config) :
  NoDup (keys ps) ->
  plain_names ps ->
  truthy (field (TObj ps) "variables") = false ->
  unprintable (or_else (field (TObj ps) "pageName") (pageName current))
  = false ->
  exists c,
    loadConfig (ConfigOk (TObj ps)) current = Ok c
    /\ variables_of c = List.filter not_pageName ps
    /\ pageName c
       = or_else (field (TObj ps) "pageName") (pageName current).
Proof.
  intros Hnd Hplain Hfalsy Htext.
  rewrite loadConfig_flat_object by assumption.
  eexists. split; [reflexivity|].
  unfold titled. cbn [pageName]. rewrite Htext, andb_false_r.
  split; reflexivity.
Qed.

Lemma loadConfig_flat_witness :
  exists c,
    loadConfig
      (ConfigOk (TObj [("a", TObj [("type", jstr "number")]);
                       ("pageName", jstr "Pack");
                       ("b", TObj [("type", jstr "string")])]))
      (mkConfig (jstr "Editor") (TObj []))
    = Ok c
    /\ variables_of c
       = [("a", TObj [("type", jstr "number")]);
          ("b", TObj [("type", jstr "string")])].
Proof.
  destruct (loadConfig_flat
              [("a", TObj [("type", jstr "number")]);
               ("pageName", jstr "Pack");
               ("b", TObj [("type", jstr "string")])]
              (mkConfig (jstr "Editor") (TObj [])))
    as (c & Hrun & Hvars & _).
  - repeat constructor; simpl; rewrite ?list_elem_of_In; simpl;
      intuition discriminate.
  - intros k [<-|[<-|[<-|[]]]]; split; (discriminate || reflexivity).
  - reflexivity.
  - reflexivity.
  - exists c. split; [exact Hrun | exact Hvars].
Defined.

Lemma filter_not_pageName_id vs :
  ~ In "pageName" (keys vs) -> List.filter not_pageName vs = vs.
Proof.
  induction vs as [|[k v] vs IH]; simpl; intros Hnot; [reflexivity|].
  unfold not_pageName at 1. simpl.
  destruct (String.eqb_spec k "pageName") as [->|Hne]; [tauto|].
  simpl. rewrite IH; tauto.
Qed.

(** X6. The two shapes agree: a map of variables [vs] loads to the same
    variables whether the file wraps it as [{pageName, variables: vs}] or
    lists it flat beside [pageName], provided the names of the variables
    are ordinary, none is called [pageName], none called [variables] has a
    truthy descriptor, and the page name taken converts to text. *)
Theorem loadConfig_shapes_agree (vs : list (string * json)) (p : json)
  (current : config) :
  NoDup (keys vs) ->
  plain_names vs ->
  ~ In "pageName" (keys vs) ->
  truthy (field (TObj vs) "variables") = false ->
  unprintable p = false ->
  unprintable (pageName current) = false ->
  res_map variables_of
    (loadConfig (ConfigOk (TObj (("pageName", p) :: vs))) current)
  = Ok vs
  /\ res_map variables_of
       (loadConfig
          (ConfigOk (TObj [("pageName", p); ("variables", TObj vs)]))
          current)
     = Ok vs.
Proof.
  intros Hnd Hplain Hnot Hfalsy Hp Hcur. split.
  - rewrite loadConfig_flat_object.
    + unfold res_map, res_bind, titled, variables_of. cbn [pageName].
      replace (unprintable (or_else (field (TObj (("pageName", p) :: vs))
                                           "pageName")
                                    (pageName current)))
        with false.
      * rewrite andb_false_r. cbn [cfg_variables or_else truthy own_props].
        simpl. now rewrite filter_not_pageName_id.
      * unfold field, or_else. simpl. now destruct (truthy p).
    + simpl. constructor; [|exact Hnd]. now rewrite list_elem_of_In.
    + intros k [<-|Hin]; [split; [discriminate | reflexivity]|].
      now apply Hplain.
    + unfold field in *. simpl in *. exact Hfalsy.
  - unfold loadConfig, res_map, res_bind, titled, variables_of.
    cbn. now rewrite Hp, andb_false_r.
Qed.

Lemma loadConfig_shapes_agree_witness :
  res_map variables_of
    (loadConfig
       (ConfigOk (TObj [("pageName", jstr "Pack");
                        ("a", TObj [("type", jstr "number")])]))
       (mkConfig (jstr "Editor") (TObj [])))
  = Ok [("a", TObj [("type", jstr "number")])]
  /\ res_map variables_of
       (loadConfig
          (ConfigOk
             (TObj [("pageName", jstr "Pack");
                    ("variables",
                     TObj [("a", TObj [("type", jstr "number")])])]))
          (mkConfig (jstr "Editor") (TObj [])))
     = Ok [("a", TObj [("type", jstr "number")])].
Proof.
  apply (loadConfig_shapes_agree [("a", TObj [("type", jstr "number")])]).
  - repeat constructor. rewrite list_elem_of_In. intros [].
  - intros k [<-|[]]. split; [discriminate | reflexivity].
  - simpl. intuition discriminate.
  - reflexivity.
  - reflexivity.
  - reflexivity.
Defined.

(** ** Modified rows *)

Lemma pretty_Z_eqb (a b : Z) : String.eqb (pretty a) (pretty b) = Z.eqb a b.
Proof.
  destruct (Z.eqb_spec a b) as [->|Hne].
  - apply String.eqb_refl.
  - apply String.eqb_neq. intros H. apply Hne. now apply (inj pretty).
Qed.

(** X7. The modified test compares values, not references: a number is
    reported modified exactly when it differs from the default, and a value
    with the same JSON content as the default (another array with equal
    elements, say) is never reported modified. *)
Theorem isModified_by_value (st : app) (key : string) :
  (forall a b,
     prop_get key (defaults st) = VPrim (PNum b) ->
     isModified st key (VPrim (PNum a)) = negb (Z.eqb a b))
  /\ (forall value,
        to_json (deref (heap st) value)
        = to_json (deref (heap st) (prop_get key (defaults st))) ->
        is_defined (deref (heap st) value)
        = is_defined (deref (heap st) (prop_get key (defaults st))) ->
        isModified st key value = false).
Proof.
  split.
  - intros a b Hb. unfold isModified. rewrite Hb. simpl.
    now rewrite pretty_Z_eqb.
  - intros value Hjson Hdef. unfold isModified, JSON_stringify.
    rewrite Hjson.
    destruct (deref (heap st) value) as [[| | | |]| |];
      destruct (deref (heap st) (prop_get key (defaults st)))
        as [[| | | |]| |];
      simpl in Hdef; try discriminate; simpl;
      now rewrite ?String.eqb_refl.
Qed.

Lemma isModified_by_value_witness :
  isModified
    (set_heap [TArr [jnum 1; jnum 2]; TArr [jnum 1; jnum 2]]
       (set_defaults [("a", VRef 0)] (loaded [] None None)))
    "a" (VRef 1)
  = false.
Proof.
  apply (isModified_by_value
           (set_heap [TArr [jnum 1; jnum 2]; TArr [jnum 1; jnum 2]]
              (set_defaults [("a", VRef 0)] (loaded [] None None)))
           "a"); reflexivity.
Defined.

(** ** The handlers keep the preview and the storage in step *)

Lemma updatePreview_synced st :
  fst (updatePreview st) = Ok tt /\ synced (snd (updatePreview st)).
Proof.
  unfold updatePreview, bind, saveUserState, synced. simpl.
  destruct (storage_writable st) eqn:Hw; simpl; repeat split; auto.
  rewrite Hw. discriminate.
Qed.

(** A handler that ends with [updatePreview] ends synced. *)
Lemma updatePreview_ok_synced st st' :
  updatePreview st = (Ok tt, st') -> synced st'.
Proof.
  intros H. pose proof (updatePreview_synced st) as [_ Hs].
  now rewrite H in Hs.
Qed.

Lemma bind_synced {A} (m : M A) (f : A -> M unit) :
  (forall a st1 st2, f a st1 = (Ok tt, st2) -> synced st2) ->
  forall st st', bind m f st = (Ok tt, st') -> synced st'.
Proof.
  intros Hf st st'. unfold bind.
  destruct (m st) as [[a|e] st1]; [apply Hf | discriminate].
Qed.

Ltac ends_synced :=
  repeat first
    [ exact updatePreview_ok_synced
    | apply bind_synced; intros ? ].

(** X8. Every event that writes keeps the views in step: when its handler
    returns, the preview is the display text of the current [variables]
    and, if the storage accepts writes, the persisted user state is their
    snapshot.  Every handler ends with [updatePreview]; nothing is
    batched. *)
Theorem handle_synced (e : edit) (st st' : app) :
  handle e st = (Ok tt, st') ->
  ignored e = false ->
  synced st'.
Proof.
  intros Hrun Hwrites. revert st st' Hrun.
  destruct e as [key b|key s|key s|key n|key [n|]|key desc [n|]
                |key count idx [n|]|key desc idx [n|]];
    simpl in Hwrites; try discriminate;
    cbn [handle array_input]; ends_synced.
Qed.

Lemma handle_synced_witness :
  synced (snd (handle (NumberInput "n" (Some 6%Z))
                      (set_variables [("n", VPrim (PNum 5))]
                                     (loaded [] None None)))).
Proof.
  apply (handle_synced (NumberInput "n" (Some 6%Z))
           (set_variables [("n", VPrim (PNum 5))] (loaded [] None None))).
  - reflexivity.
  - reflexivity.
Defined.

(** ** Empty number fields *)

Lemma set_then_updatePreview key p st :
  key <> "__proto__" ->
  exists st',
    (set_variable key (VPrim p) >> to_text_value (VPrim p) >> updatePreview) st
    = (Ok tt, st')
    /\ variables st' = assoc_set key (VPrim p) (variables st)
    /\ defaults st' = defaults st
    /\ heap st' = heap st
    /\ synced st'.
Proof.
  intros Hkey. unfold set_variable. unfold bind, gets, lift, modify.
  rewrite own_set_other by assumption. cbn [to_text_value ret].
  set (st1 := set_variables _ st).
  destruct (updatePreview_spec st1) as (st' & Hup & Hv & Hd & Hh & _).
  pose proof (updatePreview_synced st1) as [_ Hs]. rewrite Hup in Hs.
  exists st'. rewrite Hup, Hv, Hd, Hh.
  split; [reflexivity|]. split; [reflexivity|]. split; [reflexivity|].
  split; [reflexivity | exact Hs].
Qed.

(** X9. A number field that is empty writes nothing while it is edited:
    the state, the preview and the storage stay as they are, and the value
    is not turned into 0.  When the field of a key other than [__proto__]
    loses focus empty, the variable takes the default of its descriptor:
    0 for a number without a literal default, the literal default when it
    is a primitive. *)
Theorem blank_number_field (key : string) (desc : json) (st : app) :
  handle (NumberInput key None) st = (Ok tt, st)
  /\ (key <> "__proto__" ->
      type_is desc "number" = true ->
      is_defined (field desc "default") = false ->
      exists st',
        handle (NumberBlur key desc None) st = (Ok tt, st')
        /\ variables st' = assoc_set key (VPrim (PNum 0)) (variables st)
        /\ synced st')
  /\ (forall p,
        key <> "__proto__" ->
        type_is desc "number" = true -> field desc "default" = TPrim p ->
        p <> PUndef ->
        exists st',
          handle (NumberBlur key desc None) st = (Ok tt, st')
          /\ variables st' = assoc_set key (VPrim p) (variables st)
          /\ synced st').
Proof.
  split; [reflexivity|]. split.
  - intros Hkey Hty Hdef.
    assert (Hd : defaultFor desc st = (Ok (VPrim (PNum 0)), st)).
    { unfold defaultFor. rewrite (type_is_truthy _ _ Hty), Hdef. simpl.
      rewrite (type_is_other _ _ "boolean" Hty) by discriminate.
      now rewrite Hty. }
    destruct (set_then_updatePreview key (PNum 0) st Hkey)
      as (st' & Hrun & Hv & _ & _ & Hs).
    exists st'. cbn [handle]. unfold bind at 1. rewrite Hd. auto.
  - intros p Hkey Hty Hp Hne.
    assert (Hd : defaultFor desc st = (Ok (VPrim p), st)).
    { unfold defaultFor. rewrite (type_is_truthy _ _ Hty), Hp. simpl.
      destruct p; try reflexivity. contradiction. }
    destruct (set_then_updatePreview key p st Hkey)
      as (st' & Hrun & Hv & _ & _ & Hs).
    exists st'. cbn [handle]. unfold bind at 1. rewrite Hd. auto.
Qed.

Lemma blank_number_field_witness :
  exists st',
    handle (NumberBlur "n" (TObj [("type", jstr "number")]) None)
           (set_variables [("n", VPrim (PNum 7))] (loaded [] None None))
    = (Ok tt, st')
    /\ variables st' = [("n", VPrim (PNum 0))]
    /\ synced st'.
Proof.
  destruct (blank_number_field "n" (TObj [("type", jstr "number")])
              (set_variables [("n", VPrim (PNum 7))] (loaded [] None None)))
    as (_ & Hblur & _).
  apply Hblur; [discriminate | reflexivity | reflexivity].
Defined.

(** ** An array field that loses focus empty *)

Lemma default_array desc st c :
  type_is desc "number_array" = true ->
  is_defined (field desc "default") = false ->
  or_else (field desc "count") (jnum 2) = jnum c ->
  (0 <= c < 2 ^ 32)%Z ->
  defaultFor desc st
  = (Ok (VRef (length (heap st))),
     set_heap (heap st ++ [TArr (replicate (Z.to_nat c) zero)]) st).
Proof.
  intros Hty Hdef Hc Hrange.
  rewrite defaultFor_number_array by assumption.
  rewrite Hc. now apply Array_fill0_length.
Qed.

(** X10. An array field left empty resets its own element: for a number
    array without a literal default, whose variable holds an array, the
    element at the index of the field becomes 0 in that same array; the
    other elements, the two state objects and the other arrays are left as
    they were. *)
Theorem array_blur_resets_element (st : app) (key : string) (desc : json)
  (idx : nat) (c : Z) (l : loc) (a : list json) :
  type_is desc "number_array" = true ->
  is_defined (field desc "default") = false ->
  or_else (field desc "count") (jnum 2) = jnum c ->
  (0 <= c < 2 ^ 32)%Z ->
  (Z.of_nat idx < c)%Z ->
  prop_get key (variables st) = VRef l ->
  heap st !! l = Some (TArr a) ->
  (idx < length a)%nat ->
  exists st',
    handle (ArrayBlur key desc idx None) st = (Ok tt, st')
    /\ heap st' !! l = Some (TArr (<[idx := zero]> a))
    /\ variables st' = variables st
    /\ defaults st' = defaults st
    /\ (forall l', l' <> l -> (l' < length (heap st))%nat ->
                   heap st' !! l' = heap st !! l')
    /\ synced st'.
Proof.
  intros Hty Hdef Hcount Hc Hidx Hkey Hcell Hlen.
  assert (Hl : (l < length (heap st))%nat) by (eapply lookup_lt_Some; eauto).
  simpl. unfold bind at 1.
  rewrite (default_array desc st c) by assumption.
  unfold bind at 1. unfold load_index, bind at 1, gets at 1, ret.
  cbn [heap set_heap].
  rewrite lookup_app_r, Nat.sub_diag by lia. cbn [lookup list_lookup].
  rewrite lookup_replicate_2 by lia.
  unfold bind at 1, gets at 1. cbn [variables set_heap].
  rewrite Hkey. unfold bind at 1. unfold store_index, bind at 1, gets at 1.
  cbn [heap set_heap].
  rewrite lookup_app_l by assumption.
  change (@lookup nat json (list json) _ l (heap st) = Some (TArr a)) in Hcell.
  rewrite Hcell.
  unfold modify.
  set (st1 := set_heap _ _).
  destruct (updatePreview_spec st1) as (st' & Hup & Hv & Hd & Hh & _).
  pose proof (updatePreview_synced st1) as [_ Hs]. rewrite Hup in Hs.
  exists st'. split; [exact Hup|].
  rewrite Hv, Hd, Hh. subst st1. cbn [heap set_heap variables defaults].
  unfold write_index.
  destruct (Nat.ltb_spec idx (length a)); [|lia].
  split; [|split; [reflexivity|split; [reflexivity|split; [|exact Hs]]]].
  - rewrite list_lookup_insert_eq; [reflexivity|].
    rewrite length_app. lia.
  - intros l' Hne Hl'.
    rewrite list_lookup_insert_ne by congruence.
    now rewrite lookup_app_l.
Qed.

Lemma array_blur_resets_element_witness :
  exists st',
    handle (ArrayBlur "a" (TObj [("type", jstr "number_array")]) 1 None)
           (set_heap [TArr [jnum 4; jnum 5]]
              (set_variables [("a", VRef 0)] (loaded [] None None)))
    = (Ok tt, st')
    /\ heap st' !! 0%nat = Some (TArr [jnum 4; zero]).
Proof.
  destruct (array_blur_resets_element
              (set_heap [TArr [jnum 4; jnum 5]]
                 (set_variables [("a", VRef 0)] (loaded [] None None)))
              "a" (TObj [("type", jstr "number_array")]) 1 2%Z 0%nat
              [jnum 4; jnum 5])
    as (st' & Hrun & Hcell & _); try reflexivity; try lia.
  - simpl. lia.
  - exists st'. split; [exact Hrun | exact Hcell].
Defined.

(** X11. The same event on a variable that is missing or [null] throws:
    unlike the handler of an edit, the one of a loss of focus does not
    put an array in place first, and the write into the missing array is a
    [TypeError]; [variables] is left as it was. *)
Theorem array_blur_missing_throws (st : app) (key : string) (desc : json)
  (idx : nat) (c : Z) :
  type_is desc "number_array" = true ->
  is_defined (field desc "default") = false ->
  or_else (field desc "count") (jnum 2) = jnum c ->
  (0 <= c < 2 ^ 32)%Z ->
  prop_get key (variables st) = VPrim PUndef
  \/ prop_get key (variables st) = VPrim PNull ->
  fst (handle (ArrayBlur key desc idx None) st) = Throw TypeError
  /\ variables (snd (handle (ArrayBlur key desc idx None) st)) = variables st
  /\ jsonPreview (snd (handle (ArrayBlur key desc idx None) st))
     = jsonPreview st.
Proof.
  intros Hty Hdef Hcount Hc Hkey.
  assert (Hrun : handle (ArrayBlur key desc idx None) st
                 = (Throw TypeError,
                    set_heap (heap st ++ [TArr (replicate (Z.to_nat c) zero)])
                             st)).
  { simpl. unfold bind at 1.
    rewrite (default_array desc st c) by assumption.
    unfold bind at 1. unfold load_index, bind at 1, gets at 1, ret.
    cbn [heap set_heap].
    rewrite lookup_app_r, Nat.sub_diag by lia. cbn [lookup list_lookup].
    unfold bind at 1, gets at 1. cbn [variables set_heap].
    unfold bind at 1.
    destruct Hkey as [-> | ->]; reflexivity. }
  rewrite Hrun. split; [reflexivity|]. split; reflexivity.
Qed.

Lemma array_blur_missing_throws_witness :
  fst (handle (ArrayBlur "a" (TObj [("type", jstr "number_array")]) 0 None)
              (loaded [] None None))
  = Throw TypeError.
Proof.
  apply (array_blur_missing_throws (loaded [] None None) "a"
           (TObj [("type", jstr "number_array")]) 0 2%Z);
    try reflexivity; try lia.
  left. reflexivity.
Defined.

(** ** Editing an array the two state objects share *)

Lemma text_differs_same a : text_differs a a = false.
Proof. destruct a; simpl; [now rewrite String.eqb_refl | reflexivity]. Qed.

(** X16. An edit of an array that [variables] and [defaults] share is
    never seen: the element is written into the one array, so the default
    changes with the value, and the test of [updateModifiedStatus] that
    ends the handler reports the row as not modified. *)
Theorem shared_array_edit_unseen (st : app) (key : string) (count : json)
  (idx : nat) (n : Z) (l : loc) (a : list json) :
  prop_get key (variables st) = VRef l ->
  prop_get key (defaults st) = VRef l ->
  heap st !! l = Some (TArr a) ->
  exists st',
    handle (ArrayInput key count idx (Some n)) st = (Ok tt, st')
    /\ prop_get key (variables st') = VRef l
    /\ deref (heap st') (prop_get key (defaults st'))
       = TArr (write_index a idx (jnum n))
    /\ isModified st' key (prop_get key (variables st')) = false.
Proof.
  intros Hvar Hdef Hcell'.
  assert (Hcell : @lookup nat json (list json) _ l (heap st) = Some (TArr a))
    by exact Hcell'.
  assert (Hl : (l < length (heap st))%nat) by (eapply lookup_lt_Some; eauto).
  assert (Harr : isArray (heap st) (prop_get key (variables st)) = true).
  { unfold isArray. rewrite Hvar. cbn [deref]. now rewrite Hcell'. }
  cbn [handle]. unfold array_input.
  unfold bind at 1, gets at 1. unfold bind at 1, gets at 1.
  unfold bind at 1. rewrite Harr. cbn [negb ret].
  unfold bind at 1, gets at 1. rewrite Hvar.
  unfold bind at 1. unfold store_index, bind at 1, gets at 1.
  rewrite Hcell'. unfold modify.
  set (st1 := set_heap _ st).
  destruct (updatePreview_spec st1) as (st' & Hup & Hv & Hd & Hh & _).
  exists st'. split; [exact Hup|].
  unfold isModified. rewrite Hv, Hd, Hh. subst st1.
  cbn [variables defaults heap set_heap]. rewrite Hvar, Hdef.
  split; [reflexivity|]. split.
  - unfold deref. now rewrite list_lookup_insert_eq.
  - apply text_differs_same.
Qed.

Lemma shared_array_edit_unseen_witness :
  exists st',
    handle (ArrayInput "a" (jnum 2) 0 (Some 9%Z)) demo_loaded = (Ok tt, st')
    /\ deref (heap st') (prop_get "a" (defaults st'))
       = TArr [jnum 9; jnum 2]
    /\ isModified st' "a" (prop_get "a" (variables st')) = false.
Proof.
  destruct (shared_array_edit_unseen demo_loaded "a" (jnum 2) 0 9%Z 0%nat
              [jnum 1; jnum 2])
    as (st' & Hrun & _ & Hd & Hm); [reflexivity | reflexivity | reflexivity |].
  exists st'. split; [exact Hrun|]. split; [exact Hd | exact Hm].
Defined.

(** ** The folder of a pack *)

Lemma strip_prefix_app_inv w :
  forall a b r,
    strip_prefix w (a +:+ b) = Some r ->
    (String.length w <= String.length a)%nat ->
    exists r', strip_prefix w a = Some r'.
Proof.
  induction w as [|x w IH]; intros a b r Hr Hlen; [simpl; eauto|].
  destruct a as [|y a]; [simpl in Hlen; lia|].
  change (String y a +:+ b) with (String y (a +:+ b)) in Hr.
  cbn [strip_prefix] in *. destruct (Ascii.eqb x y); [|discriminate].
  apply (IH a b r Hr). simpl in Hlen. lia.
Qed.

Lemma length_append_string (a b : string) :
  String.length (a +:+ b) = (String.length a + String.length b)%nat.
Proof.
  induction a as [|x a IH]; [reflexivity|].
  change (String x a +:+ b) with (String x (a +:+ b)). simpl. now rewrite IH.
Qed.

Lemma before_first_ui main rest :
  includes (main +:+ "/ui") "/ui/" = false ->
  before_first "/ui/" (main +:+ "/ui/" +:+ rest) = main.
Proof.
  induction main as [|c main IH]; intros Hno.
  - reflexivity.
  - change (String c main +:+ "/ui") with (String c (main +:+ "/ui")) in Hno.
    change (String c main +:+ "/ui/" +:+ rest)
      with (String c (main +:+ "/ui/" +:+ rest)).
    cbn [includes] in Hno. cbn [before_first].
    destruct (strip_prefix "/ui/" (String c (main +:+ "/ui"))) eqn:Hp;
      [discriminate|].
    destruct (strip_prefix "/ui/" (String c (main +:+ "/ui/" +:+ rest)))
      as [r|] eqn:Hfull.
    + exfalso.
      assert (Heq : String c (main +:+ "/ui/" +:+ rest)
                    = String c (main +:+ "/ui") +:+ ("/" +:+ rest)).
      { change (String c (main +:+ "/ui") +:+ ("/" +:+ rest))
          with (String c ((main +:+ "/ui") +:+ ("/" +:+ rest))).
        now rewrite app_assoc_string. }
      rewrite Heq in Hfull.
      destruct (strip_prefix_app_inv _ _ _ _ Hfull) as [r' Hr'].
      * cbn [String.length]. rewrite length_append_string. simpl. lia.
      * congruence.
    + f_equal. apply IH. exact Hno.
Qed.

(** X19. The usual pack: when no entry exists yet and the first path inside
    a [ui] folder is [main/ui/...], [main] being the text before its first
    [/ui/] and not empty, the handler writes the new entry to
    [main/ui/_global_variables.json], next to the files of that folder. *)
Theorem findTargetPath_main_folder (files : list string)
  (main rest : string) :
  List.find (fun p => endsWith p pack_entry) files = None ->
  List.find in_ui_folder files = Some (main +:+ "/ui/" +:+ rest) ->
  includes (main +:+ "/ui") "/ui/" = false ->
  main <> "" ->
  findTargetPath files = Some (main +:+ "/" +:+ pack_entry).
Proof.
  intros Hfirst Hsecond Hno Hmain. unfold findTargetPath.
  rewrite Hfirst, Hsecond, (before_first_ui main rest Hno).
  destruct main; [contradiction | reflexivity].
Qed.

Lemma findTargetPath_main_folder_witness :
  findTargetPath ["Pack/manifest.json"; "Pack/ui/hud.json"]
  = Some ("Pack" +:+ "/" +:+ pack_entry).
Proof.
  apply (findTargetPath_main_folder
           ["Pack/manifest.json"; "Pack/ui/hud.json"] "Pack" "hud.json").
  - reflexivity.
  - reflexivity.
  - reflexivity.
  - discriminate.
Defined.

(** ** Searching *)

Lemma lower_char_idem c : lower_char (lower_char c) = lower_char c.
Proof. destruct c as [[] [] [] [] [] [] [] []]; reflexivity. Qed.

Lemma toLowerCase_idem s : toLowerCase (toLowerCase s) = toLowerCase s.
Proof.
  induction s as [|c s IH]; [reflexivity|].
  cbn [toLowerCase]. now rewrite lower_char_idem, IH.
Qed.

Lemma toLowerCase_empty s :
  String.eqb (toLowerCase s) "" = String.eqb s "".
Proof. destruct s; reflexivity. Qed.

(** X20. The search ignores the case of what is typed and of the key: a
    term and its lower-case form select the same rows, and so do a key and
    its lower-case form, with the same outcome when a label or a help text
    that is not a string makes the test throw. *)
Theorem matchesSearch_ignores_case (key : string) (desc : json)
  (term : string) (st : app) :
  matchesSearch key desc (toLowerCase term) st
  = matchesSearch key desc term st
  /\ matchesSearch (toLowerCase key) desc term st
     = matchesSearch key desc term st.
Proof.
  unfold matchesSearch. split.
  - now rewrite toLowerCase_empty, toLowerCase_idem.
  - now rewrite toLowerCase_idem.
Qed.

Lemma findTargetPath_none_witness :
  findTargetPath ["manifest.json"; "textures/ui.png"] = None.
Proof.
  apply (proj2 (findTargetPath_none ["manifest.json"; "textures/ui.png"])).
  intros path [<-|[<-|[]]]; split; reflexivity.
Defined.

(** * Start-up and the loading of the example *)

(** ** Running the monad *)

Lemma bind_ok {A B} (m : M A) (f : A -> M B) st b st' :
  bind m f st = (Ok b, st') ->
  exists a st1, m st = (Ok a, st1) /\ f a st1 = (Ok b, st').
Proof.
  unfold bind. destruct (m st) as [[a|e] st1]; [eauto | discriminate].
Qed.

Lemma stateless_ok {A} (m : M A) st a st' :
  stateless m -> m st = (Ok a, st') -> st' = st.
Proof. intros Hm Hrun. specialize (Hm st). now rewrite Hrun in Hm. Qed.

Lemma saveDefaultsToStorage_spec st :
  exists st',
    saveDefaultsToStorage st = (Ok tt, st')
    /\ variables st' = variables st /\ defaults st' = defaults st
    /\ heap st' = heap st /\ config_variables st' = config_variables st
    /\ status st' = status st
    /\ currentSearchTerm st' = currentSearchTerm st.
Proof.
  unfold saveDefaultsToStorage.
  destruct (storage_writable st); eexists; split; try reflexivity;
    now repeat split.
Qed.

(** ** Rendering keeps the keys *)

Lemma is_section_or_else x :
  type_is (or_else x (TObj [])) "section" = false -> is_section x = false.
Proof.
  unfold is_section, or_else. destruct (truthy x); [|reflexivity].
  now intros ->.
Qed.

Lemma keys_assoc_set_own {A} k (v : A) o :
  assoc_has k o = true -> keys (assoc_set k v o) = keys o.
Proof.
  intros Hhas. unfold assoc_set. rewrite Hhas.
  destruct (array_index k); rewrite keys_assoc_put; now rewrite Hhas.
Qed.

(** An assignment to a key the object owns, or to the name [__proto__],
    adds no key. *)
Lemma own_set_keys k v (o o' : obj) :
  own_set k v o = Ok o' -> In k (keys o) \/ k = "__proto__" ->
  keys o' = keys o.
Proof.
  intros Hset Hk. apply own_set_ok in Hset.
  destruct Hset as [(_ & _ & ->)|([Hne|Hhas] & ->)]; [reflexivity| |].
  - destruct Hk as [Hin|Heq]; [|contradiction].
    apply keys_assoc_set_own. now apply assoc_has_keys.
  - now apply keys_assoc_set_own.
Qed.

Lemma makeControl_keys k v d st :
  In k (keys (variables st)) \/ k = "__proto__" ->
  keys (variables (snd (makeControl k v d st))) = keys (variables st).
Proof.
  intros Hk.
  destruct (makeControl_state k v d st)
    as [->|(first & rest & initial & vs' & _ & _ & _ & Hset & ->)];
    [reflexivity|].
  cbn [snd variables set_variables]. eapply own_set_keys; eassumption.
Qed.

Lemma render_value_extends k desc st :
  extends st
    (snd (match prop_get k (variables st) with
          | VPrim PUndef => defaultFor desc
          | v => ret v
          end st)).
Proof.
  destruct (prop_get k (variables st)) as [[]| |];
    try apply extends_refl. apply defaultFor_extends.
Qed.

Lemma render_key_keys vars k st :
  (is_section (descriptor vars k) = false -> k <> "__proto__" ->
   In k (keys (variables st))) ->
  keys (variables (snd (render_key vars k st))) = keys (variables st).
Proof.
  intros Hin. unfold render_key. unfold bind at 1, gets at 1.
  destruct (type_is _ "section") eqn:Hsec.
  { match goal with |- context [snd (?m st)] =>
      assert (Hm : stateless m) by stateless_tac end.
    now rewrite Hm. }
  apply is_section_or_else in Hsec. specialize (Hin Hsec).
  rewrite bind_stateless by apply stateless_matchesSearch.
  destruct (fst _) as [shown|e]; [|reflexivity].
  destruct shown; [|reflexivity]. cbn [negb].
  unfold bind at 1, gets at 1. unfold bind at 1.
  pose proof (render_value_extends k (or_else (descriptor vars k) (TObj []))
                st) as [cells Hext].
  destruct (match prop_get k (variables st) with
            | VPrim PUndef => _
            | v => ret v
            end st) as [[val|e] st2]; simpl in Hext; subst st2;
    [|reflexivity].
  rewrite makeControl_keys; [reflexivity|].
  cbn [variables set_heap].
  destruct (string_dec k "__proto__") as [->|Hne]; [now right | left; auto].
Qed.

Lemma forEach_render_keys vars ks :
  forall st,
    (forall k, In k ks -> is_section (descriptor vars k) = false ->
               k <> "__proto__" -> In k (keys (variables st))) ->
    keys (variables (snd (forEach (fun _ k => render_key vars k) tt ks st)))
    = keys (variables st).
Proof.
  induction ks as [|a ks IH]; intros st Hin; [reflexivity|].
  rewrite forEach_cons.
  pose proof (render_key_keys vars a st (Hin a (or_introl eq_refl))) as Hk.
  destruct (render_key vars a st) as [[[]|e] st1]; simpl in Hk;
    [|exact Hk].
  rewrite IH; [exact Hk|].
  intros k Hks Hsec Hne. rewrite Hk. apply Hin; [now right | exact Hsec | exact Hne].
Qed.

Lemma renderControlsForVariables_keys st :
  (forall k, In k (keys (config_variables st)) ->
             is_section (descriptor (config_variables st) k) = false ->
             k <> "__proto__" ->
             In k (keys (variables st))) ->
  keys (variables (snd (renderControlsForVariables st)))
  = keys (variables st).
Proof.
  intros Hin. unfold renderControlsForVariables, bind, gets.
  now apply forEach_render_keys.
Qed.

(** ** What a run carries along *)

Lemma carries_refl st : carries st st.
Proof.
  split; [reflexivity|]. split; [reflexivity|].
  exists []. now rewrite app_nil_r.
Qed.

Lemma carries_trans st1 st2 st3 :
  carries st1 st2 -> carries st2 st3 -> carries st1 st3.
Proof.
  intros (Hc1 & Ht1 & c1 & Hh1) (Hc2 & Ht2 & c2 & Hh2).
  split; [congruence|]. split; [congruence|].
  exists (c1 ++ c2). rewrite Hh2, Hh1. now rewrite <- app_assoc.
Qed.

Lemma extends_carries st st' : extends st st' -> carries st st'.
Proof.
  intros [cells ->]. split; [reflexivity|]. split; [reflexivity|].
  now exists cells.
Qed.

Lemma stateless_carries {A} (m : M A) st :
  stateless m -> carries st (snd (m st)).
Proof. intros Hm. rewrite Hm. apply carries_refl. Qed.

Lemma render_frame_carries vars st st' :
  render_frame vars st st' -> carries st st'.
Proof. intros (Hh & _ & _ & Hc & Ht & _). now split. Qed.

Lemma bind_carries {A B} (m : M A) (f : A -> M B) st :
  carries st (snd (m st)) ->
  (forall a st1, carries st1 (snd (f a st1))) ->
  carries st (snd (bind m f st)).
Proof.
  intros Hm Hf. unfold bind.
  destruct (m st) as [[a|e] st1]; simpl in Hm; [|exact Hm].
  eapply carries_trans; [exact Hm | apply Hf].
Qed.

Lemma set_variables_carries v st : carries st (set_variables v st).
Proof.
  split; [reflexivity|]. split; [reflexivity|].
  exists []. simpl. now rewrite app_nil_r.
Qed.

Lemma set_defaults_carries v st : carries st (set_defaults v st).
Proof.
  split; [reflexivity|]. split; [reflexivity|].
  exists []. simpl. now rewrite app_nil_r.
Qed.

Lemma set_status_carries v st : carries st (set_status v st).
Proof.
  split; [reflexivity|]. split; [reflexivity|].
  exists []. simpl. now rewrite app_nil_r.
Qed.

Lemma updatePreview_carries st : carries st (snd (updatePreview st)).
Proof.
  destruct (updatePreview_spec st) as (st' & -> & _ & _ & Hh & Hc & _ & Ht).
  split; [exact Hc|]. split; [exact Ht|].
  exists []. simpl. now rewrite app_nil_r.
Qed.

Lemma saveDefaultsToStorage_carries st :
  carries st (snd (saveDefaultsToStorage st)).
Proof.
  destruct (saveDefaultsToStorage_spec st)
    as (st' & -> & _ & _ & Hh & Hc & _ & Ht).
  split; [exact Hc|]. split; [exact Ht|].
  exists []. simpl. now rewrite app_nil_r.
Qed.

Lemma renderControlsForVariables_carries st :
  carries st (snd (renderControlsForVariables st)).
Proof.
  eapply render_frame_carries. apply renderControlsForVariables_frame.
Qed.

Lemma sanitize_key_carries vars source out k st :
  carries st (snd (sanitize_key vars source out k st)).
Proof.
  rewrite sanitize_key_eq.
  destruct (is_section _); [apply carries_refl|].
  destruct (source_get source k);
    [apply stateless_carries, stateless_lift|].
  apply bind_carries.
  - apply extends_carries, defaultFor_extends.
  - intros a st1. apply stateless_carries, stateless_lift.
Qed.

Lemma forEach_sanitize_carries vars source ks :
  forall out st,
    carries st (snd (forEach (sanitize_key vars source) out ks st)).
Proof.
  induction ks as [|a ks IH]; intros out st; [apply carries_refl|].
  cbn [forEach]. apply bind_carries.
  - apply sanitize_key_carries.
  - intros out1 st1. apply IH.
Qed.

Lemma buildSanitizedFromSource_carries source st :
  carries st (snd (buildSanitizedFromSource source st)).
Proof.
  rewrite buildSanitizedFromSource_eq. apply forEach_sanitize_carries.
Qed.

Lemma apply_source_carries src msg st :
  carries st (snd (apply_source src msg st)).
Proof.
  unfold apply_source.
  apply bind_carries; [apply buildSanitizedFromSource_carries|].
  intros v st1. apply bind_carries; [apply set_variables_carries|].
  intros _ st2. apply bind_carries; [apply buildSanitizedFromSource_carries|].
  intros d st3. apply bind_carries; [apply set_defaults_carries|].
  intros _ st4. apply bind_carries; [apply saveDefaultsToStorage_carries|].
  intros _ st5. apply bind_carries; [apply updatePreview_carries|].
  intros _ st6.
  apply bind_carries; [apply renderControlsForVariables_carries|].
  intros _ st7. apply set_status_carries.
Qed.

(** ** The values of a sanitized object *)

Lemma holds_app lo h cells v t : holds lo h v t -> holds lo (h ++ cells) v t.
Proof.
  intros (Hv & Hd & Hl & Hp). split; [|split; [|split]]; auto.
  - destruct v as [p|l|b]; [exact I| |exact I].
    simpl in *. rewrite length_app. lia.
  - now rewrite deref_app.
Qed.

Lemma holds_le lo lo' h v t :
  (lo <= lo')%nat -> holds lo' h v t -> holds lo h v t.
Proof.
  intros Hle (Hv & Hd & Hl & Hp). split; [|split; [|split]]; auto.
  intros l Hl'. specialize (Hl l Hl'). lia.
Qed.

Lemma holds_settled vars k lo h v t :
  holds lo h v t -> settled vars k t -> settled vars k (immediate v).
Proof.
  intros (_ & _ & _ & Hp) [Hnc | (s & l & Ht & Hs & Hl & Hin)]; [now left|].
  right. exists s, l. rewrite (Hp _ Ht). now repeat split.
Qed.

Lemma forEach_sanitize_missing vars source ks lo k :
  source_get source k = None ->
  forall out st out' st',
    forEach (sanitize_key vars source) out ks st = (Ok out', st') ->
    (lo <= length (heap st))%nat ->
    (In k (keys out) ->
     exists t, default_tree (descriptor vars k) = Ok t
               /\ holds lo (heap st) (prop_get k out) t) ->
    In k (keys out') ->
    exists t, default_tree (descriptor vars k) = Ok t
              /\ holds lo (heap st') (prop_get k out') t.
Proof.
  intros Hnone. induction ks as [|a ks IH]; intros out st out' st' Hrun Hlo Hout.
  - injection Hrun as <- <-. exact Hout.
  - rewrite forEach_cons in Hrun.
    destruct (sanitize_key vars source out a st) as [[out1|e] st1] eqn:E;
      [|discriminate].
    pose proof (sanitize_key_extends _ _ _ _ _ _ _ E) as Hext.
    apply (IH _ _ _ _ Hrun).
    + pose proof (extends_length _ _ Hext). lia.
    + assert (Hold : In k (keys out) ->
                exists t, default_tree (descriptor vars k) = Ok t
                          /\ holds lo (heap st1) (prop_get k out) t).
      { intros Hin. destruct (Hout Hin) as (t & Ht & Hh).
        exists t. split; [exact Ht|].
        destruct Hext as [cells ->]. simpl. now apply holds_app. }
      destruct (sanitize_key_ok _ _ _ _ _ _ _ E)
        as [(_ & -> & ->) | (_ & v & Hset & Hcase)]; [exact Hout|].
      apply own_set_ok in Hset.
      destruct Hset as [(_ & _ & ->)|(_ & ->)]; [exact Hold|].
      intros Hin. destruct (String.eqb_spec a k) as [->|Hne].
      * rewrite prop_get_set_eq.
        destruct Hcase as [[Hsome _] | (_ & t & Ht & Hf)]; [congruence|].
        exists t. split; [exact Ht|].
        destruct (fresh_spec t st) as (v' & st2 & Hf' & _ & Hv & Hd & Hl).
        rewrite Hf in Hf'. injection Hf' as <- <-.
        split; [exact Hv|]. split; [exact Hd|]. split.
        -- intros l Hl'. rewrite (Hl l Hl'). exact Hlo.
        -- intros p Hp. rewrite (fresh_prim t p st Hp) in Hf. congruence.
      * rewrite prop_get_set_ne by exact Hne.
        apply keys_assoc_set in Hin as [Heq | Hin]; [congruence|].
        now apply Hold.
Qed.

Lemma sanitized_source source st v st1 k x :
  buildSanitizedFromSource source st = (Ok v, st1) ->
  source_get source k = Some x ->
  In k (keys (config_variables st)) ->
  is_section (descriptor (config_variables st) k) = false ->
  k <> "__proto__" ->
  prop_get k v = x.
Proof.
  intros Hrun Hsrc Hin Hsec Hne.
  destruct source as [src|]; [|discriminate].
  now destruct (sanitize_copies_values _ _ _ _ Hrun k x Hne Hsrc Hin Hsec).
Qed.

Lemma sanitized_missing source st v st1 k :
  buildSanitizedFromSource source st = (Ok v, st1) ->
  source_get source k = None ->
  In k (keys (config_variables st)) ->
  is_section (descriptor (config_variables st) k) = false ->
  k <> "__proto__" ->
  exists t, default_tree (descriptor (config_variables st) k) = Ok t
            /\ holds (length (heap st)) (heap st1) (prop_get k v) t.
Proof.
  intros Hrun Hsrc Hin Hsec Hne.
  assert (Hk : In k (keys v))
    by (apply (sanitize_keys _ _ _ _ Hrun); auto).
  rewrite buildSanitizedFromSource_eq in Hrun.
  eapply forEach_sanitize_missing; eauto. intros [].
Qed.

Lemma sanitized_extends source st v st1 :
  buildSanitizedFromSource source st = (Ok v, st1) -> extends st st1.
Proof.
  rewrite buildSanitizedFromSource_eq. apply forEach_sanitize_extends.
Qed.

(** ** Applying a source *)

Lemma refresh_run st st' :
  (updatePreview >> renderControlsForVariables) st = (Ok tt, st') ->
  (forall k, In k (keys (config_variables st)) ->
             is_section (descriptor (config_variables st) k) = false ->
             k <> "__proto__" ->
             In k (keys (variables st))) ->
  render_frame (config_variables st) st st'
  /\ keys (variables st') = keys (variables st).
Proof.
  intros Hrun Hin.
  pose proof (refresh_frame st) as Hframe. rewrite Hrun in Hframe.
  split; [exact Hframe|].
  apply bind_ok in Hrun as ([] & st1 & Hup & Hrender).
  destruct (updatePreview_spec st) as (st1' & Hup' & Hv & _ & _ & Hc & _).
  rewrite Hup in Hup'. injection Hup' as <-.
  pose proof (renderControlsForVariables_keys st1) as Hk.
  rewrite Hrender, Hv, Hc in Hk. simpl in Hk. now apply Hk.
Qed.

(** What a source leaves in the two state objects when it is applied and
    the rendering returns. *)
Lemma apply_source_spec src msg st st' :
  apply_source src msg st = (Ok tt, st') ->
  status st' = msg
  /\ schema_keys st'
  /\ (forall k v,
        source_get src k = Some v ->
        In k (keys (config_variables st)) ->
        is_section (descriptor (config_variables st) k) = false ->
        k <> "__proto__" ->
        prop_get k (defaults st') = v
        /\ (settled (config_variables st) k (immediate v) ->
            prop_get k (variables st') = v))
  /\ (forall k,
        source_get src k = None ->
        In k (keys (config_variables st)) ->
        is_section (descriptor (config_variables st) k) = false ->
        k <> "__proto__" ->
        exists t,
          default_tree (descriptor (config_variables st) k) = Ok t
          /\ holds (length (heap st)) (heap st') (prop_get k (defaults st')) t
          /\ (settled (config_variables st) k t ->
              holds (length (heap st)) (heap st')
                    (prop_get k (variables st')) t
              /\ forall l, prop_get k (variables st') = VRef l ->
                           prop_get k (defaults st') <> VRef l)).
Proof.
  intros Hrun.
  pose proof (apply_source_carries src msg st) as (Hcfg & _ & _).
  rewrite Hrun in Hcfg. simpl in Hcfg.
  unfold apply_source in Hrun.
  apply bind_ok in Hrun as (v & st1 & Hv & Hrun).
  apply bind_ok in Hrun as ([] & s & Hm & Hrun). injection Hm as <-.
  apply bind_ok in Hrun as (d & st2 & Hd & Hrun).
  apply bind_ok in Hrun as ([] & s & Hm & Hrun). injection Hm as <-.
  apply bind_ok in Hrun as ([] & st3 & Hsave & Hrun).
  destruct (saveDefaultsToStorage_spec (set_defaults d st2))
    as (s & Hs & Hv3 & Hd3 & Hh3 & Hc3 & _ & Ht3).
  rewrite Hsave in Hs. injection Hs as <-. simpl in Hv3, Hd3, Hh3, Hc3, Ht3.
  pose proof (sanitized_extends _ _ _ _ Hv) as [c1 E1].
  pose proof (sanitized_extends _ _ _ _ Hd) as [c2 E2].
  assert (Hc1 : config_variables st1 = config_variables st)
    by (rewrite E1; reflexivity).
  assert (Hc2 : config_variables st2 = config_variables st)
    by (rewrite E2; simpl; exact Hc1).
  assert (Hv2 : variables st2 = v) by (rewrite E2; reflexivity).
  assert (Hh2 : heap st2 = heap st1 ++ c2) by (rewrite E2; reflexivity).
  assert (Hh1 : heap st1 = heap st ++ c1) by (rewrite E1; reflexivity).
  rewrite Hc2 in Hc3. rewrite Hv2 in Hv3.
  destruct (sanitize_keys _ _ _ _ Hv) as [Hnd Hkeys].
  assert (Hrest : exists st5,
            (updatePreview >> renderControlsForVariables) st3 = (Ok tt, st5)
            /\ st' = set_status msg st5).
  { apply bind_ok in Hrun as ([] & st4 & Hup & Hrun).
    apply bind_ok in Hrun as ([] & st5 & Hrender & Hrun).
    injection Hrun as <-. exists st5. split; [|reflexivity].
    unfold bind. now rewrite Hup. }
  destruct Hrest as (st5 & Hrefresh & ->). clear Hrun.
  destruct (refresh_run _ _ Hrefresh) as [Hframe Hk5].
  { rewrite Hc3, Hv3. intros k Hin Hsec Hne. apply Hkeys. auto. }
  rewrite Hc3 in Hframe. rewrite Hv3 in Hk5.
  destruct Hframe as ([c5 Hh5] & Hd5 & _ & Hc5 & _ & Hkeep).
  rewrite Hv3 in Hkeep. rewrite Hd3 in Hd5. rewrite Hh3, Hh2 in Hh5.
  cbn [status variables defaults heap config_variables set_status].
  split; [reflexivity|]. split.
  { unfold schema_keys.
    cbn [variables config_variables set_status]. rewrite Hk5, Hc5, Hc3.
    split; [exact Hnd | exact Hkeys]. }
  split.
  - intros k x Hsrc Hin Hsec Hne. rewrite Hd5. split.
    + rewrite <- Hc1 in Hin, Hsec.
      exact (sanitized_source _ _ _ _ _ _ Hd Hsrc Hin Hsec Hne).
    + intros Hset.
      pose proof (sanitized_source _ _ _ _ _ _ Hv Hsrc Hin Hsec Hne) as Hx.
      rewrite Hkeep; [exact Hx|]. now rewrite Hx.
  - intros k Hsrc Hin Hsec Hne.
    destruct (sanitized_missing _ _ _ _ _ Hv Hsrc Hin Hsec Hne)
      as (t & Ht & Hhv).
    assert (Hin' := Hin). assert (Hsec' := Hsec).
    rewrite <- Hc1 in Hin', Hsec'.
    destruct (sanitized_missing _ _ _ _ _ Hd Hsrc Hin' Hsec' Hne)
      as (t' & Ht' & Hhd).
    cbn [config_variables heap set_variables] in Ht', Hhd.
    rewrite Hc1 in Ht'. rewrite Ht in Ht'. injection Ht' as <-.
    exists t. split; [exact Ht|]. rewrite Hd5, Hh5. rewrite Hh2 in Hhd. split.
    + apply holds_app. apply (holds_le _ (length (heap st1))); [|exact Hhd].
      rewrite Hh1, length_app. lia.
    + intros Hset.
      assert (Hx : prop_get k (variables st5) = prop_get k v).
      { apply Hkeep. eapply holds_settled; eauto. }
      rewrite Hx. split.
      * apply holds_app. now apply holds_app.
      * intros l Hl Hl'.
        destruct Hhv as (Hval & _). rewrite Hl in Hval. simpl in Hval.
        destruct Hhd as (_ & _ & Hlo & _). specialize (Hlo l Hl'). lia.
Qed.

(** ** Loading the example *)

Lemma loadExampleAndApply_eq r :
  loadExampleAndApply r =
  try_catch
    (match r with
     | FetchFailed => throw Error
     | FetchOk doc =>
         let* src :=
           (match doc with
            | Some d => let* o := materialize d in ret (Some o)
            | None => ret None
            end) in
         apply_source src "Example loaded (sanitized to configured keys)."
     end)
    (apply_source None "Example loaded.").
Proof. reflexivity. Qed.

Lemma example_source doc st :
  exists src st1,
    match doc with
    | Some d => let* o := materialize d in ret (Some o)
    | None => ret None
    end st = (Ok src, st1)
    /\ extends st st1
    /\ match doc, src with
       | Some d, Some o =>
           keys o = keys d
           /\ forall k, In k (keys d) ->
                        plain (prop_get k o)
                        /\ holds (length (heap st)) (heap st1) (prop_get k o)
                                 (doc_get k d)
       | None, None => True
       | _, _ => False
       end.
Proof.
  destruct doc as [d|].
  - destruct (materialize_spec d st) as (o & st1 & Hm & Hext & Hkeys & Hall).
    exists (Some o), st1. unfold bind. rewrite Hm.
    split; [reflexivity|]. split; [exact Hext|]. split; [exact Hkeys|].
    intros k Hin. destruct (Hall k Hin) as (Hv & Hd & Hl & Hp).
    split; [exact (materialize_plain _ _ _ _ Hm k Hin)|].
    split; [exact Hv|]. split; [exact Hd|]. split; [exact Hl | exact Hp].
  - exists None, st. split; [reflexivity|]. split; [apply extends_refl | exact I].
Qed.

(** A load that returns has applied one source: the object read from
    the example, under the first status, or none, the fetch having
    failed, the example being [null] or the first pass having thrown. *)
Lemma loadExampleAndApply_inv r st st' :
  loadExampleAndApply r st = (Ok tt, st') ->
  exists src msg st0,
    apply_source src msg st0 = (Ok tt, st') /\ carries st st0
    /\ ((src = None
         /\ (msg = "Example loaded."
             \/ (r = FetchOk None
                 /\ msg = "Example loaded (sanitized to configured keys).")))
        \/ exists d o,
             r = FetchOk (Some d) /\ src = Some o
             /\ msg = "Example loaded (sanitized to configured keys)."
             /\ keys o = keys d
             /\ forall k, In k (keys d) ->
                          plain (prop_get k o)
                          /\ holds (length (heap st)) (heap st0)
                                   (prop_get k o) (doc_get k d)).
Proof.
  rewrite loadExampleAndApply_eq. unfold try_catch.
  destruct r as [|doc].
  - intros Hrun. exists None, "Example loaded.", st.
    split; [exact Hrun|]. split; [apply carries_refl|]. left. auto.
  - unfold bind at 1.
    destruct (example_source doc st) as (src & st1 & -> & Hext & Hsrc).
    pose proof (apply_source_carries src
                  "Example loaded (sanitized to configured keys)." st1) as Hc.
    destruct (apply_source src _ st1) as [[[]|e] st2] eqn:Hbody.
    + intros Hrun. injection Hrun as <-.
      exists src, "Example loaded (sanitized to configured keys).", st1.
      split; [exact Hbody|]. split; [now apply extends_carries|].
      destruct doc as [d|], src as [o|]; try contradiction.
      * right. exists d, o. destruct Hsrc as [Hk Hh]. auto.
      * left. auto.
    + intros Hrun. exists None, "Example loaded.", st2.
      split; [destruct e; try discriminate; exact Hrun|].
      split; [|left; auto].
      eapply carries_trans; [apply extends_carries; exact Hext | exact Hc].
Qed.

Lemma loadExampleAndApply_schema r st st' :
  loadExampleAndApply r st = (Ok tt, st') ->
  carries st st' /\ schema_keys st'.
Proof.
  intros Hrun.
  destruct (loadExampleAndApply_inv _ _ _ Hrun)
    as (src & msg & st0 & Ha & Hc & _).
  split.
  - eapply carries_trans; [exact Hc|].
    pose proof (apply_source_carries src msg st0) as Hc'.
    now rewrite Ha in Hc'.
  - now destruct (apply_source_spec _ _ _ _ Ha) as (_ & Hs & _).
Qed.

(** ** The two outcomes of loading the example *)

Lemma plain_ref h v t :
  plain v -> deref h v = t -> (forall p, t <> TPrim p) -> exists l, v = VRef l.
Proof.
  intros Hpl Hd Hnp. destruct v as [p|l|b]; [|eauto|destruct Hpl].
  simpl in Hd. symmetry in Hd. now apply Hnp in Hd.
Qed.

(** X14. A load of the example that returns with the first status (the
    fetch and the first pass succeeded) has handed the values of the
    example to both state objects at once: for every key of the
    configuration other than [__proto__] that is not a section and that
    the example has, [defaults] holds the value of the example, and
    [variables] holds that very value (the same array or object, not a
    copy) wherever rendering leaves the key alone. *)
Theorem example_load_shares_values (e : list (string * json))
  (st st' : app) :
  loadExampleAndApply (FetchOk (Some e)) st = (Ok tt, st') ->
  status st' = "Example loaded (sanitized to configured keys)." ->
  forall k t,
    In k (keys (config_variables st)) ->
    is_section (descriptor (config_variables st) k) = false ->
    k <> "__proto__" ->
    assoc_get k e = Some t ->
    deref (heap st') (prop_get k (defaults st')) = t
    /\ (settled (config_variables st) k t ->
        prop_get k (variables st') = prop_get k (defaults st'))
    /\ ((forall p, t <> TPrim p) ->
        exists l, prop_get k (defaults st') = VRef l).
Proof.
  intros Hrun Hstatus k t Hin Hsec Hne Hget.
  destruct (loadExampleAndApply_inv _ _ _ Hrun)
    as (src & msg & st0 & Ha & Hc & Hcase).
  destruct (apply_source_spec _ _ _ _ Ha) as (Hst & _ & Hsome & _).
  destruct Hcase as [(_ & [->|[[=] _]])|(d & o & [= <-] & -> & -> & Hko & Ho)].
  { rewrite Hstatus in Hst. discriminate. }
  destruct Hc as (Hc0 & _ & _).
  pose proof (apply_source_carries (Some o)
                "Example loaded (sanitized to configured keys)." st0)
    as (_ & _ & c2 & Hh2).
  rewrite Ha in Hh2. simpl in Hh2.
  assert (Hk : In k (keys e)) by (apply assoc_get_keys; eauto).
  destruct (Ho k Hk) as [Hpl Hh].
  unfold doc_get in Hh. rewrite Hget in Hh.
  assert (Hs : source_get (Some o) k = Some (prop_get k o)).
  { rewrite <- Hko in Hk. apply assoc_get_keys in Hk as [x Hx].
    simpl. unfold prop_get. now rewrite Hx. }
  rewrite <- Hc0 in Hin, Hsec.
  destruct (Hsome k _ Hs Hin Hsec Hne) as [Hd Hv]. rewrite Hd.
  split; [|split].
  - rewrite Hh2. destruct Hh as (Hval & Hder & _).
    now rewrite deref_app.
  - intros Hset. apply Hv. rewrite Hc0. eapply holds_settled; eauto.
  - intros Hnp. destruct Hh as (_ & Hder & _).
    eapply plain_ref; eauto.
Qed.

Lemma example_load_shares_values_witness :
  deref (heap demo_loaded) (prop_get "a" (defaults demo_loaded))
  = TArr [jnum 1; jnum 2]
  /\ (settled demo_config "a" (TArr [jnum 1; jnum 2]) ->
      prop_get "a" (variables demo_loaded)
      = prop_get "a" (defaults demo_loaded))
  /\ ((forall p, TArr [jnum 1; jnum 2] <> TPrim p) ->
      exists l, prop_get "a" (defaults demo_loaded) = VRef l).
Proof.
  apply (example_load_shares_values demo_example
           (loaded demo_config None None) demo_loaded).
  - reflexivity.
  - reflexivity.
  - now left.
  - reflexivity.
  - discriminate.
  - reflexivity.
Defined.

(** X15. When the example cannot be fetched, or is [null], a load that
    returns has built both state objects from the configuration alone:
    every key other than [__proto__] that is not a section holds the
    default of its descriptor in [defaults] and, where rendering leaves
    the key alone, in [variables]; an array or object default is a
    separate one in each of the two, so an edit of [variables] cannot
    reach [defaults].  After a failed fetch the status is the second
    one. *)
Theorem example_fallback_defaults (r : fetched) (st st' : app) :
  r = FetchFailed \/ r = FetchOk None ->
  loadExampleAndApply r st = (Ok tt, st') ->
  (r = FetchFailed -> status st' = "Example loaded.")
  /\ forall k,
       In k (keys (config_variables st)) ->
       is_section (descriptor (config_variables st) k) = false ->
       k <> "__proto__" ->
       exists t,
         default_tree (descriptor (config_variables st) k) = Ok t
         /\ deref (heap st') (prop_get k (defaults st')) = t
         /\ (settled (config_variables st) k t ->
             deref (heap st') (prop_get k (variables st')) = t
             /\ forall l, prop_get k (variables st') = VRef l ->
                          prop_get k (defaults st') <> VRef l).
Proof.
  intros Hr Hrun.
  destruct (loadExampleAndApply_inv _ _ _ Hrun)
    as (src & msg & st0 & Ha & Hc & Hcase).
  destruct (apply_source_spec _ _ _ _ Ha) as (Hst & _ & _ & Hnone).
  assert (Hsrc : src = None).
  { destruct Hcase as [[-> _]|(d & o & -> & _)]; [reflexivity|].
    destruct Hr as [[=]|[=]]. }
  subst src. destruct Hc as (Hc0 & _ & _). split.
  - intros ->. rewrite Hst.
    destruct Hcase as [(_ & [->|[[=] _]])|(d & o & [=] & _)]. reflexivity.
  - intros k Hin Hsec Hne. rewrite <- Hc0 in Hin, Hsec.
    destruct (Hnone k eq_refl Hin Hsec Hne) as (t & Ht & Hd & Hv).
    rewrite Hc0 in Ht, Hv.
    exists t. split; [exact Ht|].
    split; [now destruct Hd as (_ & Hder & _)|].
    intros Hset. destruct (Hv Hset) as [Hvar Hdist].
    split; [now destruct Hvar as (_ & Hder & _) | exact Hdist].
Qed.

Lemma example_fallback_defaults_witness :
  exists t,
    default_tree (descriptor demo_config "a") = Ok t
    /\ deref (heap (snd (loadExampleAndApply FetchFailed
                           (loaded demo_config None None))))
             (prop_get "a"
                (defaults (snd (loadExampleAndApply FetchFailed
                                  (loaded demo_config None None)))))
       = t.
Proof.
  destruct (example_fallback_defaults FetchFailed
              (loaded demo_config None None)
              (snd (loadExampleAndApply FetchFailed
                      (loaded demo_config None None))))
    as [_ Hkeys].
  - now left.
  - reflexivity.
  - destruct (Hkeys "a") as (t & Ht & Hd & _).
    + now left.
    + reflexivity.
    + discriminate.
    + exists t. split; [exact Ht | exact Hd].
Defined.

(** ** Start-up *)

Lemma materialize_carries doc st : carries st (snd (materialize doc st)).
Proof.
  destruct (materialize_spec doc st) as (o & st1 & -> & Hext & _).
  now apply extends_carries.
Qed.

Lemma stored_defaults_run (d : option (list (string * json))) st :
  exists st1,
    match d with
    | Some dd => let* o := materialize dd in modify (set_defaults o)
    | None => ret tt
    end st = (Ok tt, st1)
    /\ carries st st1
    /\ storage_user st1 = storage_user st.
Proof.
  destruct d as [dd|].
  - destruct (materialize_spec dd st) as (o & st1 & Hm & [c ->] & _).
    exists (set_defaults o (set_heap (heap st ++ c) st)).
    unfold bind. rewrite Hm. split; [reflexivity|]. split; [|reflexivity].
    split; [reflexivity|]. split; [reflexivity|]. now exists c.
  - exists st. split; [reflexivity|]. split; [apply carries_refl | reflexivity].
Qed.

Lemma restored_run (vars doc : list (string * json)) example st st' :
  (let* o := materialize (cleanSectionKeys vars doc) in
   modify (set_variables o) >>
   let* v := buildSanitizedFromSource (Some o) in
   modify (set_variables v) >>
   let* defs := gets defaults in
   match keys defs with
   | [] => loadExampleAndApply example
   | _ :: _ =>
       updatePreview >>
       renderControlsForVariables >>
       modify (set_status "Restored last used state.")
   end) st = (Ok tt, st') ->
  carries st st' /\ schema_keys st'.
Proof.
  intros Hrun.
  apply bind_ok in Hrun as (o & st1 & Hm & Hrun).
  apply bind_ok in Hrun as ([] & s & Hs & Hrun). injection Hs as <-.
  apply bind_ok in Hrun as (v & st2 & Hv & Hrun).
  apply bind_ok in Hrun as ([] & s & Hs & Hrun). injection Hs as <-.
  apply bind_ok in Hrun as (defs & s & Hs & Hrun). injection Hs as <- <-.
  pose proof (materialize_carries (cleanSectionKeys vars doc) st) as Hc1.
  rewrite Hm in Hc1. simpl in Hc1.
  pose proof (sanitized_extends _ _ _ _ Hv) as Hext.
  assert (Hc2 : carries st (set_variables v st2)).
  { eapply carries_trans; [exact Hc1|].
    eapply carries_trans; [apply (set_variables_carries o)|].
    eapply carries_trans; [apply extends_carries; exact Hext|].
    apply set_variables_carries. }
  destruct (sanitize_keys _ _ _ _ Hv) as [Hnd Hkeys].
  cbn [config_variables set_variables] in Hkeys.
  assert (Hcfg2 : config_variables st2 = config_variables st1).
  { destruct Hext as [c ->]. reflexivity. }
  cbn [defaults set_variables] in Hrun.
  destruct (keys (defaults st2)).
  - destruct (loadExampleAndApply_schema _ _ _ Hrun) as [Hc3 Hs].
    split; [|exact Hs]. eapply carries_trans; eauto.
  - assert (Hrest : exists st5,
              (updatePreview >> renderControlsForVariables)
                (set_variables v st2) = (Ok tt, st5)
              /\ st' = set_status "Restored last used state." st5).
    { apply bind_ok in Hrun as ([] & st4 & Hup & Hrun).
      apply bind_ok in Hrun as ([] & st5 & Hrender & Hrun).
      injection Hrun as <-. exists st5. split; [|reflexivity].
      unfold bind. now rewrite Hup. }
    destruct Hrest as (st5 & Hrefresh & ->).
    destruct (refresh_run _ _ Hrefresh) as [Hframe Hk5].
    { cbn [config_variables variables set_variables]. rewrite Hcfg2.
      intros k Hin Hsec Hne. apply Hkeys. auto. }
    cbn [config_variables variables set_variables] in Hframe, Hk5.
    split.
    + eapply carries_trans; [exact Hc2|].
      eapply carries_trans; [eapply render_frame_carries; exact Hframe|].
      apply set_status_carries.
    + destruct Hframe as (_ & _ & _ & Hc5 & _).
      unfold schema_keys. cbn [variables config_variables set_status set_variables] in *.
      rewrite Hk5, Hc5, Hcfg2. split; [exact Hnd | exact Hkeys].
Qed.

Lemma init_inv cfg current example st st' :
  init cfg current example st = (Ok tt, st') ->
  exists c st1,
    loadConfig cfg current = Ok c
    /\ st' = set_status "Ready." st1
    /\ carries (set_config_variables (variables_of c) st) st1
    /\ schema_keys st1.
Proof.
  intros Hrun. unfold init in Hrun.
  apply bind_ok in Hrun as (c & s & Hs & Hrun).
  unfold lift in Hs. injection Hs as Hc <-.
  apply bind_ok in Hrun as ([] & s & Hs & Hrun). injection Hs as <-.
  apply bind_ok in Hrun as (vars & s & Hs & Hrun). injection Hs as <- <-.
  apply bind_ok in Hrun as (saved & s & Hs & Hrun). injection Hs as <- <-.
  apply bind_ok in Hrun as ([] & st1 & Hbody & Hrun). injection Hrun as <-.
  exists c, st1. split; [exact Hc|]. split; [reflexivity|].
  set (st0 := set_config_variables _ st) in *.
  destruct (storage_user st) as [doc|].
  - apply bind_ok in Hbody as (d & s & Hs & Hbody). injection Hs as <- <-.
    apply bind_ok in Hbody as ([] & sA & Hd & Hbody).
    destruct (stored_defaults_run (storage_defaults st) st0)
      as (sA' & HA & HcA & _).
    change (storage_defaults st0) with (storage_defaults st) in Hd.
    rewrite Hd in HA. injection HA as <-.
    destruct (restored_run _ _ _ _ _ Hbody) as [Hcr Hs].
    split; [|exact Hs]. eapply carries_trans; eauto.
  - now apply loadExampleAndApply_schema in Hbody.
Qed.

(** X12. Start-up ends in a consistent editor, whichever path it takes
    (restoring the session, loading the example, or falling back to the
    defaults of the configuration): when [init] returns, the status reads
    [Ready.], the configuration is the one [loadConfig] read, and
    [variables] holds exactly its keys that are not sections, each once,
    the name [__proto__] apart. *)
Theorem init_ready (cfg : fetched_config) (current : config)
  (example : fetched) (st st' : app) :
  init cfg current example st = (Ok tt, st') ->
  status st' = "Ready."
  /\ (exists c, loadConfig cfg current = Ok c
                /\ config_variables st' = variables_of c)
  /\ schema_keys st'.
Proof.
  intros Hrun.
  destruct (init_inv _ _ _ _ _ Hrun) as (c & st1 & Hc & -> & (Hcfg & _) & Hs).
  split; [reflexivity|]. split; [|exact Hs].
  exists c. split; [exact Hc | exact Hcfg].
Qed.

Lemma init_ready_witness :
  status (snd (init demo_fetched_config demo_current
                    (FetchOk (Some demo_example)) (loaded [] None None)))
  = "Ready."
  /\ schema_keys (snd (init demo_fetched_config demo_current
                            (FetchOk (Some demo_example))
                            (loaded [] None None))).
Proof.
  destruct (init_ready demo_fetched_config demo_current
              (FetchOk (Some demo_example)) (loaded [] None None)
              (snd (init demo_fetched_config demo_current
                         (FetchOk (Some demo_example))
                         (loaded [] None None))))
    as (Hstatus & _ & Hkeys).
  - reflexivity.
  - split; [exact Hstatus | exact Hkeys].
Defined.

(** ** Restoring the session *)

Lemma bind_ext {A B} (m : M A) (f g : A -> M B) st :
  (forall a st1, m st = (Ok a, st1) -> f a st1 = g a st1) ->
  bind m f st = bind m g st.
Proof.
  intros Hfg. unfold bind. destruct (m st) as [[a|e] st1]; [|reflexivity].
  now apply Hfg.
Qed.

Lemma bind_ext_l {A B} (m m' : M A) (f : A -> M B) st :
  m st = m' st -> bind m f st = bind m' f st.
Proof. intros Hm. unfold bind. now rewrite Hm. Qed.

Lemma cleanSectionKeys_get vars doc k :
  is_section (descriptor vars k) = false ->
  assoc_get k (cleanSectionKeys vars doc) = assoc_get k doc.
Proof.
  intros Hsec. induction doc as [|[k' t] doc IH]; [reflexivity|].
  cbn [cleanSectionKeys assoc_get].
  destruct (String.eqb_spec k k') as [<-|Hne].
  - rewrite Hsec. cbn [assoc_get]. now rewrite String.eqb_refl.
  - destruct (is_section (descriptor vars k')); [exact IH|].
    cbn [assoc_get]. destruct (String.eqb_spec k k'); [contradiction|].
    exact IH.
Qed.

Lemma materialized doc st o st1 :
  materialize doc st = (Ok o, st1) ->
  extends st st1
  /\ keys o = keys doc
  /\ forall k, In k (keys doc) ->
               holds (length (heap st)) (heap st1) (prop_get k o)
                     (doc_get k doc).
Proof.
  intros Hm.
  destruct (example_source (Some doc) st) as ([o'|] & st1' & Hrun & Hext & Hall);
    [|contradiction].
  unfold bind in Hrun. rewrite Hm in Hrun. injection Hrun as <- <-.
  destruct Hall as [Hk Hh].
  split; [exact Hext|]. split; [exact Hk|].
  intros k Hin. now destruct (Hh k Hin).
Qed.

Lemma restore_ignores (X Y : M unit) (vars doc : list (string * json)) st :
  keys (defaults st) <> [] ->
  (let* o := materialize (cleanSectionKeys vars doc) in
   modify (set_variables o) >>
   let* v := buildSanitizedFromSource (Some o) in
   modify (set_variables v) >>
   let* defs := gets defaults in
   match keys defs with
   | [] => X
   | _ :: _ =>
       updatePreview >>
       renderControlsForVariables >>
       modify (set_status "Restored last used state.")
   end) st
  = (let* o := materialize (cleanSectionKeys vars doc) in
     modify (set_variables o) >>
     let* v := buildSanitizedFromSource (Some o) in
     modify (set_variables v) >>
     let* defs := gets defaults in
     match keys defs with
     | [] => Y
     | _ :: _ =>
         updatePreview >>
         renderControlsForVariables >>
         modify (set_status "Restored last used state.")
     end) st.
Proof.
  intros Hne.
  apply bind_ext. intros o st1 Hm.
  apply bind_ext. intros [] s Hs. injection Hs as <-.
  apply bind_ext. intros v st2 Hv.
  apply bind_ext. intros [] s Hs. injection Hs as <-.
  unfold bind, gets.
  destruct (materialized _ _ _ _ Hm) as ([c1 E1] & _).
  destruct (sanitized_extends _ _ _ _ Hv) as [c2 E2].
  assert (Hd : defaults (set_variables v st2) = defaults st)
    by (rewrite E2; simpl; rewrite E1; reflexivity).
  rewrite Hd. destruct (keys (defaults st)); [contradiction | reflexivity].
Qed.

Lemma restored_values (vars doc : list (string * json)) example st st' :
  (let* o := materialize (cleanSectionKeys vars doc) in
   modify (set_variables o) >>
   let* v := buildSanitizedFromSource (Some o) in
   modify (set_variables v) >>
   let* defs := gets defaults in
   match keys defs with
   | [] => loadExampleAndApply example
   | _ :: _ =>
       updatePreview >>
       renderControlsForVariables >>
       modify (set_status "Restored last used state.")
   end) st = (Ok tt, st') ->
  keys (defaults st) <> [] ->
  vars = config_variables st ->
  defaults st' = defaults st
  /\ (exists cells, heap st' = heap st ++ cells)
  /\ forall k,
       In k (keys vars) -> is_section (descriptor vars k) = false ->
       k <> "__proto__" ->
       match assoc_get k doc with
       | Some t =>
           settled vars k t ->
           deref (heap st') (prop_get k (variables st')) = t
       | None =>
           exists t,
             default_tree (descriptor vars k) = Ok t
             /\ (settled vars k t ->
                 deref (heap st') (prop_get k (variables st')) = t)
       end.
Proof.
  intros Hrun Hne ->.
  apply bind_ok in Hrun as (o & st1 & Hm & Hrun).
  apply bind_ok in Hrun as ([] & s & Hs & Hrun). injection Hs as <-.
  apply bind_ok in Hrun as (v & st2 & Hv & Hrun).
  apply bind_ok in Hrun as ([] & s & Hs & Hrun). injection Hs as <-.
  apply bind_ok in Hrun as (defs & s & Hs & Hrun). injection Hs as <- <-.
  destruct (materialized _ _ _ _ Hm) as ([c1 E1] & Hko & Ho).
  destruct (sanitized_extends _ _ _ _ Hv) as [c2 E2].
  assert (Hd : defaults (set_variables v st2) = defaults st)
    by (rewrite E2; simpl; rewrite E1; reflexivity).
  assert (Hc1 : config_variables (set_variables o st1) = config_variables st)
    by (rewrite E1; reflexivity).
  assert (Hh1 : heap st1 = heap st ++ c1) by (rewrite E1; reflexivity).
  assert (Hh2 : heap st2 = heap st1 ++ c2) by (rewrite E2; reflexivity).
  cbn [defaults set_variables] in Hrun, Hd. rewrite Hd in Hrun.
  destruct (keys (defaults st)) as [|k0 ks]; [contradiction|]. clear Hne.
  assert (Hrest : exists st5,
            (updatePreview >> renderControlsForVariables)
              (set_variables v st2) = (Ok tt, st5)
            /\ st' = set_status "Restored last used state." st5).
  { apply bind_ok in Hrun as ([] & st4 & Hup & Hrun).
    apply bind_ok in Hrun as ([] & st5 & Hrender & Hrun).
    injection Hrun as <-. exists st5. split; [|reflexivity].
    unfold bind. now rewrite Hup. }
  destruct Hrest as (st5 & Hrefresh & ->). clear Hrun.
  pose proof (refresh_frame (set_variables v st2)) as Hframe.
  rewrite Hrefresh in Hframe.
  destruct Hframe as ([c5 Hh5] & Hd5 & _ & _ & _ & Hkeep).
  cbn [snd heap defaults variables config_variables set_variables set_status]
    in *.
  assert (Hc2 : config_variables st2 = config_variables st)
    by (rewrite E2; simpl; rewrite E1; reflexivity).
  rewrite Hc2 in Hkeep. rewrite Hh2, Hh1 in Hh5.
  split; [now rewrite Hd5|]. split.
  { exists ((c1 ++ c2) ++ c5). rewrite Hh5. now rewrite !app_assoc. }
  intros k Hin Hsec Hproto.
  rewrite <- (cleanSectionKeys_get (config_variables st) doc k Hsec).
  destruct (assoc_get k (cleanSectionKeys (config_variables st) doc))
    as [t|] eqn:Hget.
  - intros Hset.
    assert (Hkd : In k (keys (cleanSectionKeys (config_variables st) doc)))
      by (apply assoc_get_keys; eauto).
    specialize (Ho k Hkd). unfold doc_get in Ho. rewrite Hget in Ho.
    assert (Hsrc : source_get (Some o) k = Some (prop_get k o)).
    { assert (Hk : In k (keys o)) by now rewrite Hko.
      apply assoc_get_keys in Hk as [x Hx]. simpl. unfold prop_get.
      now rewrite Hx. }
    rewrite <- Hc1 in Hin, Hsec.
    pose proof (sanitized_source _ _ _ _ _ _ Hv Hsrc Hin Hsec Hproto) as Hx.
    rewrite Hkeep; rewrite Hx.
    + rewrite Hh5, <- Hh1. apply holds_app with (cells := c2) in Ho.
      apply holds_app with (cells := c5) in Ho.
      now destruct Ho as (_ & Hder & _).
    + eapply holds_settled; eauto.
  - assert (Hsrc : source_get (Some o) k = None).
    { simpl. destruct (assoc_get k o) as [x|] eqn:Hx; [|reflexivity].
      assert (Hk : In k (keys o)) by (apply assoc_get_keys; eauto).
      rewrite Hko in Hk. apply assoc_get_keys in Hk as [y Hy]. congruence. }
    assert (Hin' := Hin). assert (Hsec' := Hsec).
    rewrite <- Hc1 in Hin', Hsec'.
    destruct (sanitized_missing _ _ _ _ _ Hv Hsrc Hin' Hsec' Hproto)
      as (t & Ht & Hhv).
    cbn [config_variables heap set_variables] in Ht, Hhv.
    rewrite Hc1 in Ht. exists t. split; [exact Ht|].
    intros Hset. rewrite Hkeep.
    + rewrite Hh5, <- Hh1, <- Hh2.
      apply holds_app with (cells := c5) in Hhv.
      now destruct Hhv as (_ & Hder & _).
    + eapply holds_settled; eauto.
Qed.

Lemma init_saved_inv cfg current example st st' doc dd :
  storage_user st = Some doc ->
  storage_defaults st = Some dd ->
  dd <> [] ->
  init cfg current example st = (Ok tt, st') ->
  exists c od sA st1,
    loadConfig cfg current = Ok c
    /\ (forall k, In k (keys dd) ->
                  holds (length (heap st)) (heap sA) (prop_get k od)
                        (doc_get k dd))
    /\ keys (defaults (set_defaults od sA)) <> []
    /\ config_variables (set_defaults od sA) = variables_of c
    /\ (let* o := materialize (cleanSectionKeys (variables_of c) doc) in
        modify (set_variables o) >>
        let* v := buildSanitizedFromSource (Some o) in
        modify (set_variables v) >>
        let* defs := gets defaults in
        match keys defs with
        | [] => loadExampleAndApply example
        | _ :: _ =>
            updatePreview >>
            renderControlsForVariables >>
            modify (set_status "Restored last used state.")
        end) (set_defaults od sA) = (Ok tt, st1)
    /\ st' = set_status "Ready." st1.
Proof.
  intros Hsaved Hdefs Hdd Hrun.
  unfold init in Hrun.
  apply bind_ok in Hrun as (c & s & Hs & Hrun).
  unfold lift in Hs. injection Hs as Hc <-.
  set (vars := variables_of c) in *.
  set (st0 := set_config_variables vars st).
  destruct (materialize_spec dd st0) as (od & sA & Hmd & HextA & _).
  destruct (materialized _ _ _ _ Hmd) as (_ & Hkd & Hod).
  apply bind_ok in Hrun as ([] & s & Hs & Hrun). injection Hs as <-.
  apply bind_ok in Hrun as (vs & s & Hs & Hrun). injection Hs as <- <-.
  apply bind_ok in Hrun as (saved & s & Hs & Hrun). injection Hs as <- <-.
  apply bind_ok in Hrun as ([] & st1 & Hbody & Hrun). injection Hrun as <-.
  cbn [storage_user set_config_variables] in Hbody. rewrite Hsaved in Hbody.
  apply bind_ok in Hbody as (d & s & Hs & Hbody). injection Hs as <- <-.
  cbn [storage_defaults set_config_variables] in Hbody.
  rewrite Hdefs in Hbody.
  apply bind_ok in Hbody as ([] & s & Hs & Hbody).
  unfold bind in Hs. fold vars in Hs. fold st0 in Hs. rewrite Hmd in Hs.
  injection Hs as <-.
  exists c, od, sA, st1. split; [exact Hc|].
  split; [|split; [|split; [|split]]].
  - exact Hod.
  - cbn [defaults set_defaults]. rewrite Hkd.
    destruct dd; [contradiction | discriminate].
  - destruct HextA as [cA ->]. reflexivity.
  - exact Hbody.
  - reflexivity.
Qed.

(** X13. Start-up with a saved session: when the storage holds a user
    state and a non-empty object of defaults and [init] returns, it
    returns the same state for every outcome of the fetch of the example
    (the example is not used); [defaults] stands for the stored defaults
    at every key they have; and every key of the configuration other than
    [__proto__] that is not a section holds, wherever rendering leaves the
    key alone, the value the saved state has for it, or the default of
    its descriptor when the saved state lacks it. *)
Theorem init_restores_session (cfg : fetched_config) (current : config)
  (example : fetched) (st st' : app) (doc dd : list (string * json))
  (c : config) :
  storage_user st = Some doc ->
  storage_defaults st = Some dd ->
  dd <> [] ->
  loadConfig cfg current = Ok c ->
  init cfg current example st = (Ok tt, st') ->
  (forall example', init cfg current example' st = (Ok tt, st'))
  /\ (forall k, In k (keys dd) ->
                deref (heap st') (prop_get k (defaults st')) = doc_get k dd)
  /\ forall k,
       In k (keys (variables_of c)) ->
       is_section (descriptor (variables_of c) k) = false ->
       k <> "__proto__" ->
       match assoc_get k doc with
       | Some t =>
           settled (variables_of c) k t ->
           deref (heap st') (prop_get k (variables st')) = t
       | None =>
           exists t,
             default_tree (descriptor (variables_of c) k) = Ok t
             /\ (settled (variables_of c) k t ->
                 deref (heap st') (prop_get k (variables st')) = t)
       end.
Proof.
  intros Hsaved Hdefs Hdd Hcfg Hrun.
  split; [|split].
  - intros example'. rewrite <- Hrun. unfold init.
    apply bind_ext. intros c' s Hs.
    unfold lift in Hs. injection Hs as Hc' <-.
    set (vars := variables_of c').
    set (st0 := set_config_variables vars st).
    destruct (materialize_spec dd st0) as (od & sA & Hmd & HextA & _).
    destruct (materialized _ _ _ _ Hmd) as (_ & Hkd & _).
    apply bind_ext. intros [] s Hs. injection Hs as <-.
    apply bind_ext. intros vs s Hs. injection Hs as <- <-.
    apply bind_ext. intros saved s Hs. injection Hs as <- <-.
    apply bind_ext_l. cbn [storage_user set_config_variables].
    rewrite Hsaved.
    apply bind_ext. intros d s Hs. injection Hs as <- <-.
    cbn [storage_defaults set_config_variables]. rewrite Hdefs.
    apply bind_ext. intros [] s Hs.
    unfold bind in Hs. fold vars in Hs. fold st0 in Hs. rewrite Hmd in Hs.
    injection Hs as <-.
    apply restore_ignores. cbn [defaults set_defaults]. rewrite Hkd.
    destruct dd; [contradiction | discriminate].
  - destruct (init_saved_inv _ _ _ _ _ _ _ Hsaved Hdefs Hdd Hrun)
      as (c' & od & sA & st1 & Hc' & Hod & Hne & Hcv & Hbody & ->).
    destruct (restored_values _ _ _ _ _ Hbody Hne (eq_sym Hcv))
      as (Hd & [cells Hh] & _).
    intros k Hin. cbn [heap defaults set_status set_defaults] in *.
    rewrite Hd, Hh. specialize (Hod k Hin).
    apply holds_app with (cells := cells) in Hod.
    now destruct Hod as (_ & Hder & _).
  - destruct (init_saved_inv _ _ _ _ _ _ _ Hsaved Hdefs Hdd Hrun)
      as (c' & od & sA & st1 & Hc' & _ & Hne & Hcv & Hbody & ->).
    rewrite Hcfg in Hc'. injection Hc' as <-.
    destruct (restored_values _ _ _ _ _ Hbody Hne (eq_sym Hcv))
      as (_ & _ & Hvals).
    exact Hvals.
Qed.

Lemma init_restores_session_witness :
  deref (heap (snd (init demo_fetched_config demo_current FetchFailed
                         (loaded [] (Some demo_session) (Some demo_example)))))
        (prop_get "a"
           (variables
              (snd (init demo_fetched_config demo_current FetchFailed
                         (loaded [] (Some demo_session)
                                 (Some demo_example))))))
  = TArr [jnum 7; jnum 8].
Proof.
  destruct (init_restores_session demo_fetched_config demo_current
              FetchFailed
              (loaded [] (Some demo_session) (Some demo_example))
              (snd (init demo_fetched_config demo_current FetchFailed
                         (loaded [] (Some demo_session) (Some demo_example))))
              demo_session demo_example
              (mkConfig (jstr "Demo") (TObj demo_config)))
    as (_ & _ & Hv);
    [reflexivity | reflexivity | discriminate | reflexivity
    | vm_compute; reflexivity |].
  specialize (Hv "a" (or_introl eq_refl) eq_refl).
  cbn in Hv. apply Hv; [discriminate|]. left. reflexivity.
Defined.

(** ** A saved session without saved defaults *)




(** ** The persisted session is never cleared *)

Lemma kept_refl st : session_kept st st.
Proof. split; [reflexivity | auto]. Qed.

Ltac kept_same :=
  first [apply kept_refl
        | split; [reflexivity | let H := fresh in intros H; exact H]].

Lemma kept_trans st1 st2 st3 :
  session_kept st1 st2 -> session_kept st2 st3 -> session_kept st1 st3.
Proof. intros [Hw1 Hs1] [Hw2 Hs2]. split; [congruence | auto]. Qed.

Lemma extends_kept st st' : extends st st' -> session_kept st st'.
Proof. intros [cells ->]. kept_same. Qed.

Lemma stateless_kept {A} (m : M A) st :
  stateless m -> session_kept st (snd (m st)).
Proof. intros Hm. rewrite Hm. apply kept_refl. Qed.

Lemma bind_kept {A B} (m : M A) (f : A -> M B) st :
  session_kept st (snd (m st)) ->
  (forall a st1, session_kept st1 (snd (f a st1))) ->
  session_kept st (snd (bind m f st)).
Proof.
  intros Hm Hf. unfold bind.
  destruct (m st) as [[a|e] st1]; simpl in Hm; [|exact Hm].
  eapply kept_trans; [exact Hm | apply Hf].
Qed.

Lemma try_kept {A} (body handler : M A) st :
  session_kept st (snd (body st)) ->
  (forall st1, session_kept st1 (snd (handler st1))) ->
  session_kept st (snd (try_catch body handler st)).
Proof.
  intros Hb Hh. unfold try_catch.
  destruct (body st) as [[a|[]] st1]; simpl in Hb; try exact Hb;
    (eapply kept_trans; [exact Hb | apply Hh]).
Qed.

Lemma saveUserState_kept st : session_kept st (snd (saveUserState st)).
Proof.
  unfold saveUserState. destruct (storage_writable st) eqn:Hw;
    [|kept_same].
  split; [reflexivity | intros _; simpl; eauto].
Qed.

Lemma updatePreview_kept st : session_kept st (snd (updatePreview st)).
Proof.
  unfold updatePreview. apply bind_kept; [kept_same|].
  intros _ st1. apply saveUserState_kept.
Qed.

Lemma updatePreview_saves st :
  storage_writable st = true ->
  exists d, storage_user (snd (updatePreview st)) = Some d.
Proof.
  intros Hw. unfold updatePreview, bind, saveUserState. simpl.
  rewrite Hw. simpl. eauto.
Qed.

Lemma saveDefaultsToStorage_kept st :
  session_kept st (snd (saveDefaultsToStorage st)).
Proof.
  unfold saveDefaultsToStorage. destruct (storage_writable st) eqn:Hw;
    [|kept_same].
  split; [reflexivity | intros H; exact H].
Qed.

Lemma fresh_kept t st : session_kept st (snd (fresh t st)).
Proof.
  destruct (fresh_spec t st) as (v & st' & -> & Hext & _).
  now apply extends_kept.
Qed.

Lemma defaultFor_kept desc st : session_kept st (snd (defaultFor desc st)).
Proof. apply extends_kept, defaultFor_extends. Qed.

Lemma materialize_kept doc st : session_kept st (snd (materialize doc st)).
Proof.
  destruct (materialize_spec doc st) as (o & st1 & -> & Hext & _).
  now apply extends_kept.
Qed.

Lemma structuredClone_kept o :
  forall st, session_kept st (snd (structuredClone o st)).
Proof.
  induction o as [|[k v] o IH]; intros st; [kept_same|].
  cbn [structuredClone].
  apply bind_kept; [kept_same|]. intros h st1.
  apply bind_kept; [apply fresh_kept|]. intros v' st2.
  apply bind_kept; [apply IH|]. intros c st3. kept_same.
Qed.

Lemma sanitize_key_kept vars source out k st :
  session_kept st (snd (sanitize_key vars source out k st)).
Proof.
  rewrite sanitize_key_eq.
  destruct (is_section _); [kept_same|].
  destruct (source_get source k);
    [apply stateless_kept, stateless_lift|].
  apply bind_kept; [apply defaultFor_kept|].
  intros a st1. apply stateless_kept, stateless_lift.
Qed.

Lemma forEach_sanitize_kept vars source ks :
  forall out st,
    session_kept st (snd (forEach (sanitize_key vars source) out ks st)).
Proof.
  induction ks as [|a ks IH]; intros out st; [kept_same|].
  cbn [forEach]. apply bind_kept; [apply sanitize_key_kept|].
  intros out1 st1. apply IH.
Qed.

Lemma buildSanitizedFromSource_kept source st :
  session_kept st (snd (buildSanitizedFromSource source st)).
Proof.
  rewrite buildSanitizedFromSource_eq. apply forEach_sanitize_kept.
Qed.

Lemma makeControl_kept k v d st : session_kept st (snd (makeControl k v d st)).
Proof.
  destruct (makeControl_state k v d st)
    as [->|(first & rest & initial & vs' & _ & _ & _ & _ & ->)];
    kept_same.
Qed.

Lemma render_key_kept vars k st : session_kept st (snd (render_key vars k st)).
Proof.
  unfold render_key. apply bind_kept; [kept_same|]. intros term st1.
  destruct (type_is _ "section").
  { apply stateless_kept. stateless_tac. }
  apply bind_kept; [apply stateless_kept, stateless_matchesSearch|].
  intros shown st2. destruct shown; [|kept_same]. cbn [negb].
  apply bind_kept; [kept_same|]. intros vs st3.
  apply bind_kept.
  - destruct (prop_get k vs) as [[]| |]; try kept_same.
    apply defaultFor_kept.
  - intros val st4. apply makeControl_kept.
Qed.

Lemma renderControlsForVariables_kept st :
  session_kept st (snd (renderControlsForVariables st)).
Proof.
  unfold renderControlsForVariables.
  apply bind_kept; [kept_same|]. intros vars st1. revert st1.
  induction (keys vars) as [|a ks IH]; intros st1; [kept_same|].
  cbn [forEach]. apply bind_kept; [apply render_key_kept|].
  intros [] st2. apply IH.
Qed.

Lemma apply_source_kept src msg st :
  session_kept st (snd (apply_source src msg st)).
Proof.
  unfold apply_source.
  apply bind_kept; [apply buildSanitizedFromSource_kept|].
  intros v st1. apply bind_kept; [kept_same|].
  intros _ st2. apply bind_kept; [apply buildSanitizedFromSource_kept|].
  intros d st3. apply bind_kept; [kept_same|].
  intros _ st4. apply bind_kept; [apply saveDefaultsToStorage_kept|].
  intros _ st5. apply bind_kept; [apply updatePreview_kept|].
  intros _ st6. apply bind_kept; [apply renderControlsForVariables_kept|].
  intros _ st7. kept_same.
Qed.

Lemma loadExampleAndApply_kept r st :
  session_kept st (snd (loadExampleAndApply r st)).
Proof.
  rewrite loadExampleAndApply_eq. apply try_kept.
  - destruct r as [|doc]; [kept_same|].
    apply bind_kept; [|intros src st1; apply apply_source_kept].
    destruct doc as [d|]; [|kept_same].
    apply bind_kept; [apply materialize_kept|].
    intros o st1. kept_same.
  - intros st1. apply apply_source_kept.
Qed.

Lemma resetToDefaults_kept st : session_kept st (snd (resetToDefaults st)).
Proof.
  unfold resetToDefaults.
  apply bind_kept; [kept_same|]. intros saved st1.
  apply bind_kept.
  - destruct saved as [doc|].
    + apply bind_kept; [apply materialize_kept|]. intros o st2.
      apply bind_kept; [kept_same|]. intros _ st3. kept_same.
    + apply bind_kept; [kept_same|]. intros d st2.
      apply bind_kept; [apply structuredClone_kept|]. intros o st3.
      apply bind_kept; [kept_same|]. intros _ st4. kept_same.
  - intros _ st2. apply bind_kept; [apply updatePreview_kept|].
    intros _ st3. apply renderControlsForVariables_kept.
Qed.

Lemma store_index_kept v idx x st :
  session_kept st (snd (store_index v idx x st)).
Proof.
  destruct v as [[]|l|b]; try kept_same.
  cbn [store_index]. apply bind_kept; [kept_same|]. intros h st1.
  destruct (h !! l) as [[| |]|]; kept_same.
Qed.

Lemma load_index_kept v idx st : session_kept st (snd (load_index v idx st)).
Proof. destruct v as [[]|l|b]; kept_same. Qed.

Lemma set_variable_kept key v st :
  session_kept st (snd (set_variable key v st)).
Proof.
  unfold set_variable. apply bind_kept; [kept_same|]. intros vs st1.
  apply bind_kept; [apply stateless_kept, stateless_lift|].
  intros vs' st2. kept_same.
Qed.

Lemma set_then_preview_kept key v st :
  session_kept st (snd ((set_variable key v >> updatePreview) st)).
Proof.
  apply bind_kept; [apply set_variable_kept|].
  intros _ st1. apply updatePreview_kept.
Qed.

Lemma handle_kept e st : session_kept st (snd (handle e st)).
Proof.
  destruct e as [key b|key s|key s|key n|key [n|]|key desc [n|]
                |key count idx [n|]|key desc idx [n|]];
    cbn [handle]; try apply set_then_preview_kept; try kept_same.
  - apply bind_kept; [apply defaultFor_kept|]. intros v st1.
    apply bind_kept; [apply set_variable_kept|]. intros _ st2.
    apply bind_kept; [apply stateless_kept, stateless_to_text_value|].
    intros _ st3. apply updatePreview_kept.
  - unfold array_input.
    apply bind_kept; [kept_same|]. intros h st1.
    apply bind_kept; [kept_same|]. intros vs st2.
    apply bind_kept.
    + destruct (negb _); [|kept_same].
      apply bind_kept.
      * destruct count as [[]| |]; try apply (fresh_kept (TArr [zero])).
        unfold Array_fill0. destruct (_ && _)%bool;
          [apply (fresh_kept (TArr _)) | kept_same].
      * intros a st3. apply set_variable_kept.
    + intros _ st3. apply bind_kept; [kept_same|]. intros vs' st4.
      apply bind_kept; [apply store_index_kept|]. intros _ st5.
      apply updatePreview_kept.
  - apply bind_kept; [apply defaultFor_kept|]. intros defArr st1.
    apply bind_kept; [apply load_index_kept|]. intros resetVal st2.
    apply bind_kept; [kept_same|]. intros vs st3.
    apply bind_kept; [apply store_index_kept|]. intros _ st4.
    apply bind_kept; [apply stateless_kept, stateless_to_text|].
    intros _ st5. apply updatePreview_kept.
Qed.

Lemma perform_kept a st : session_kept st (snd (perform a st)).
Proof.
  destruct a as [e|r| |term]; cbn [perform].
  - apply handle_kept.
  - apply loadExampleAndApply_kept.
  - apply resetToDefaults_kept.
  - apply bind_kept; [kept_same|]. intros _ st1.
    apply renderControlsForVariables_kept.
Qed.

Lemma run_kept acts :
  forall st st', run acts st = Some st' -> session_kept st st'.
Proof.
  induction acts as [|a acts IH]; intros st st' Hrun.
  - injection Hrun as <-. kept_same.
  - cbn [run] in Hrun. pose proof (perform_kept a st) as Hp.
    destruct (perform a st) as [[[]|[]] st1]; simpl in Hp;
      try discriminate;
      (eapply kept_trans; [exact Hp | now apply IH]).
Qed.

Lemma refresh_saves st st' :
  (updatePreview >> renderControlsForVariables) st = (Ok tt, st') ->
  storage_writable st = true ->
  storage_writable st' = true /\ exists d, storage_user st' = Some d.
Proof.
  intros Hrun Hw.
  apply bind_ok in Hrun as ([] & st1 & Hup & Hrender).
  pose proof (updatePreview_saves st Hw) as Hsaved.
  pose proof (updatePreview_kept st) as [Hw1 _].
  rewrite Hup in Hsaved, Hw1. simpl in Hsaved, Hw1.
  pose proof (renderControlsForVariables_kept st1) as [Hw2 Hs2].
  rewrite Hrender in Hw2, Hs2. simpl in Hw2, Hs2.
  split; [congruence | auto].
Qed.

Lemma apply_source_saves src msg st st' :
  apply_source src msg st = (Ok tt, st') ->
  storage_writable st = true ->
  storage_writable st' = true /\ exists d, storage_user st' = Some d.
Proof.
  intros Hrun Hw. unfold apply_source in Hrun.
  apply bind_ok in Hrun as (v & st1 & Hv & Hrun).
  apply bind_ok in Hrun as ([] & s & Hs & Hrun). injection Hs as <-.
  apply bind_ok in Hrun as (d & st2 & Hd & Hrun).
  apply bind_ok in Hrun as ([] & s & Hs & Hrun). injection Hs as <-.
  apply bind_ok in Hrun as ([] & st3 & Hsave & Hrun).
  pose proof (buildSanitizedFromSource_kept src st) as [Hw1 _].
  rewrite Hv in Hw1. simpl in Hw1.
  pose proof (buildSanitizedFromSource_kept src (set_variables v st1))
    as [Hw2 _].
  rewrite Hd in Hw2. simpl in Hw2.
  pose proof (saveDefaultsToStorage_kept (set_defaults d st2)) as [Hw3 _].
  rewrite Hsave in Hw3. simpl in Hw3.
  assert (Hrest : exists st5,
            (updatePreview >> renderControlsForVariables) st3 = (Ok tt, st5)
            /\ st' = set_status msg st5).
  { apply bind_ok in Hrun as ([] & st4 & Hup & Hrun).
    apply bind_ok in Hrun as ([] & st5 & Hrender & Hrun).
    injection Hrun as <-. exists st5. split; [|reflexivity].
    unfold bind. now rewrite Hup. }
  destruct Hrest as (st5 & Hrefresh & ->).
  apply (refresh_saves _ _ Hrefresh). congruence.
Qed.

Lemma loadExampleAndApply_saves r st st' :
  loadExampleAndApply r st = (Ok tt, st') ->
  storage_writable st = true ->
  storage_writable st' = true /\ exists d, storage_user st' = Some d.
Proof.
  rewrite loadExampleAndApply_eq. unfold try_catch.
  destruct r as [|doc].
  - intros Hrun Hw. exact (apply_source_saves _ _ _ _ Hrun Hw).
  - unfold bind at 1.
    destruct (example_source doc st) as (src & st1 & -> & [c1 E1] & _).
    pose proof (apply_source_kept src
                  "Example loaded (sanitized to configured keys)." st1)
      as [Hw1 _].
    destruct (apply_source src _ st1) as [[[]|e] st2] eqn:Hbody;
      intros Hrun Hw.
    + injection Hrun as <-. apply (apply_source_saves _ _ _ _ Hbody).
      now rewrite E1.
    + destruct e; try discriminate;
        (apply (apply_source_saves _ _ _ _ Hrun);
         simpl in Hw1; rewrite Hw1, E1; exact Hw).
Qed.

Lemma init_saves cfg current example st st' :
  init cfg current example st = (Ok tt, st') ->
  storage_writable st = true ->
  storage_writable st' = true /\ exists d, storage_user st' = Some d.
Proof.
  intros Hrun Hw. unfold init in Hrun.
  apply bind_ok in Hrun as (c & s & Hs & Hrun).
  unfold lift in Hs. injection Hs as _ <-.
  apply bind_ok in Hrun as ([] & s & Hs & Hrun). injection Hs as <-.
  apply bind_ok in Hrun as (vars & s & Hs & Hrun). injection Hs as <- <-.
  apply bind_ok in Hrun as (saved & s & Hs & Hrun). injection Hs as <- <-.
  apply bind_ok in Hrun as ([] & st1 & Hbody & Hrun). injection Hrun as <-.
  cbn [storage_writable storage_user set_status].
  set (st0 := set_config_variables _ st) in *.
  assert (Hw0 : storage_writable st0 = true) by exact Hw.
  cbn [storage_user set_config_variables] in Hbody.
  destruct (storage_user st) as [doc|];
    [|exact (loadExampleAndApply_saves _ _ _ Hbody Hw0)].
  apply bind_ok in Hbody as (d & s & Hs & Hbody). injection Hs as <- <-.
  apply bind_ok in Hbody as ([] & sA & HA & Hbody).
  assert (HwA : storage_writable sA = true).
  { destruct (storage_defaults st) as [dd|].
    - apply bind_ok in HA as (o & s & Hm & HA). injection HA as <-.
      pose proof (materialize_kept dd st0) as [Hk _].
      rewrite Hm in Hk. simpl in Hk. simpl. congruence.
    - injection HA as <-. exact Hw0. }
  apply bind_ok in Hbody as (o & sB & Hm & Hbody).
  apply bind_ok in Hbody as ([] & s & Hs & Hbody). injection Hs as <-.
  apply bind_ok in Hbody as (v & sC & Hv & Hbody).
  apply bind_ok in Hbody as ([] & s & Hs & Hbody). injection Hs as <-.
  apply bind_ok in Hbody as (defs & s & Hs & Hbody). injection Hs as <- <-.
  match type of Hm with
  | materialize ?c _ = _ => pose proof (materialize_kept c sA) as [HkB _]
  end.
  rewrite Hm in HkB. simpl in HkB.
  pose proof (buildSanitizedFromSource_kept (Some o) (set_variables o sB))
    as [HkC _].
  rewrite Hv in HkC. simpl in HkC.
  assert (HwC : storage_writable (set_variables v sC) = true)
    by (simpl; congruence).
  destruct (keys (defaults sC)).
  - exact (loadExampleAndApply_saves _ _ _ Hbody HwC).
  - assert (Hrest : exists st5,
              (updatePreview >> renderControlsForVariables)
                (set_variables v sC) = (Ok tt, st5)
              /\ st1 = set_status "Restored last used state." st5).
    { apply bind_ok in Hbody as ([] & st4 & Hup & Hbody).
      apply bind_ok in Hbody as ([] & st5 & Hrender & Hbody).
      injection Hbody as <-. exists st5. split; [|reflexivity].
      unfold bind. now rewrite Hup. }
    destruct Hrest as (st5 & Hrefresh & ->).
    exact (refresh_saves _ _ Hrefresh HwC).
Qed.

Lemma reset_status_restored st doc :
  storage_user st = Some doc ->
  status (snd (resetToDefaults st))
  = "Restored last used state (from this tab).".
Proof.
  intros Hsaved.
  destruct (materialize_spec doc st) as (o & st1 & Hm & _).
  assert (Hrun : snd (resetToDefaults st)
                 = snd ((updatePreview >> renderControlsForVariables)
                          (set_status
                             "Restored last used state (from this tab)."
                             (set_variables o st1)))).
  { unfold resetToDefaults, loadUserState.
    unfold bind at 1 2. unfold gets at 1. rewrite Hsaved.
    unfold bind at 1 2. rewrite Hm. reflexivity. }
  rewrite Hrun.
  now pose proof (refresh_frame (set_status
                                   "Restored last used state (from this tab)."
                                   (set_variables o st1)))
    as (_ & _ & -> & _).
Qed.

(** X18. With a storage that accepts writes, the Reset button never
    restores the defaults once [init] has returned.  Start-up persists a
    user state and no event removes it (an edit, a load of the example, a
    reset, a search, whether its listener returns or throws), so after
    any sequence of events a reset finds a persisted state and reports
    that it restored the last used state. *)
Theorem reset_never_reaches_defaults (cfg : fetched_config)
  (current : config) (example : fetched) (st st0 st1 : app)
  (acts : list action) :
  storage_writable st = true ->
  init cfg current example st = (Ok tt, st0) ->
  run acts st0 = Some st1 ->
  fst (resetToDefaults st1) <> Throw OutOfModel ->
  (exists d, storage_user st1 = Some d)
  /\ status (snd (resetToDefaults st1))
     = "Restored last used state (from this tab).".
Proof.
  intros Hw Hrun Hacts _.
  destruct (init_saves _ _ _ _ _ Hrun Hw) as [_ Hsaved].
  destruct (run_kept _ _ _ Hacts) as [_ Hkept].
  destruct (Hkept Hsaved) as [d Hd].
  split; [eauto|]. exact (reset_status_restored _ _ Hd).
Qed.

Lemma reset_never_reaches_defaults_witness :
  exists st1,
    run [Edit (ArrayInput "a" (jnum 2) 0 (Some 9%Z)); Reset; Search "a"]
        (snd (init demo_fetched_config demo_current
                   (FetchOk (Some demo_example))
                   (loaded [] None None)))
    = Some st1
    /\ status (snd (resetToDefaults st1))
       = "Restored last used state (from this tab).".
Proof.
  eexists. split; [vm_compute; reflexivity|].
  eapply (reset_never_reaches_defaults demo_fetched_config demo_current
            (FetchOk (Some demo_example)) (loaded [] None None)
            (snd (init demo_fetched_config demo_current
                       (FetchOk (Some demo_example))
                       (loaded [] None None)))
            _ [Edit (ArrayInput "a" (jnum 2) 0 (Some 9%Z)); Reset;
               Search "a"]).
  - reflexivity.
  - vm_compute. reflexivity.
  - vm_compute. reflexivity.
  - vm_compute. discriminate.
Defined.

(** ** Reloading the page *)

Lemma snapshot_cons h k v (o : obj) :
  snapshot h ((k, v) :: o)
  = if is_defined (deref h v)
    then (k, to_json (deref h v)) :: snapshot h o
    else snapshot h o.
Proof.
  unfold snapshot, reify. cbn [map fst snd].
  destruct (deref h v) as [[]| |]; reflexivity.
Qed.

Lemma snapshot_get h (o : obj) k v :
  NoDup (keys o) ->
  assoc_get k o = Some v ->
  is_defined (deref h v) = true ->
  assoc_get k (snapshot h o) = Some (to_json (deref h v)).
Proof.
  induction o as [|[k0 v0] o IH]; intros Hnd Hget Hdef; [discriminate|].
  rewrite snapshot_cons. cbn [assoc_get] in Hget.
  cbn [keys map fst] in Hnd. apply NoDup_cons in Hnd as [Hnot Hnd].
  destruct (String.eqb_spec k k0) as [->|Hne].
  - injection Hget as ->. rewrite Hdef. cbn [assoc_get].
    now rewrite String.eqb_refl.
  - destruct (is_defined (deref h v0)); [|now apply IH].
    cbn [assoc_get]. destruct (String.eqb_spec k k0); [contradiction|].
    now apply IH.
Qed.

(** X21. An edited session survives a reload of the page.  If the preview
    and the storage are in step with [variables] (as after every edit that
    writes), the storage holds a non-empty object of defaults and the
    configuration loads, then an [init] that returns on a fresh page with
    that storage gives every key of the configuration that is not a
    section nor [__proto__], and that [variables] owned with a value other
    than [undefined], the JSON value it had before the reload, wherever
    rendering leaves the key alone. *)
Theorem reload_restores_session (cfg : fetched_config) (current : config)
  (example : fetched) (st st' : app) (dd : list (string * json))
  (c : config) :
  synced st ->
  storage_writable st = true ->
  NoDup (keys (variables st)) ->
  storage_defaults st = Some dd ->
  dd <> [] ->
  loadConfig cfg current = Ok c ->
  init cfg current example
       (loaded [] (storage_user st) (storage_defaults st)) = (Ok tt, st') ->
  forall k,
    In k (keys (variables_of c)) ->
    is_section (descriptor (variables_of c) k) = false ->
    k <> "__proto__" ->
    In k (keys (variables st)) ->
    is_defined (deref (heap st) (prop_get k (variables st))) = true ->
    settled (variables_of c) k
            (to_json (deref (heap st) (prop_get k (variables st)))) ->
    deref (heap st') (prop_get k (variables st'))
    = to_json (deref (heap st) (prop_get k (variables st))).
Proof.
  intros [_ Hsync] Hw Hnd Hdefs Hdd Hcfg Hrun k Hin Hsec Hproto Hown Hdef
         Hset.
  specialize (Hsync Hw).
  assert (Hsaved : storage_user
                     (loaded [] (storage_user st) (storage_defaults st))
                   = Some (snapshot (heap st) (variables st)))
    by exact Hsync.
  assert (Hdefs' : storage_defaults
                     (loaded [] (storage_user st) (storage_defaults st))
                   = Some dd) by exact Hdefs.
  destruct (init_saved_inv _ _ _ _ _ _ _ Hsaved Hdefs' Hdd Hrun)
    as (c' & od & sA & st1 & Hc' & _ & Hne & Hcv & Hbody & ->).
  rewrite Hcfg in Hc'. injection Hc' as <-.
  destruct (restored_values _ _ _ _ _ Hbody Hne (eq_sym Hcv))
    as (_ & _ & Hvals).
  specialize (Hvals k Hin Hsec Hproto).
  apply assoc_get_keys in Hown as [v Hv].
  unfold prop_get in Hdef, Hset |- * at 2. rewrite Hv in Hdef, Hset |- *.
  rewrite (snapshot_get _ _ _ _ Hnd Hv Hdef) in Hvals.
  exact (Hvals Hset).
Qed.

Lemma reload_restores_session_witness :
  deref (heap (snd (init demo_fetched_config demo_current FetchFailed
                         (loaded [] (storage_user demo_edited)
                                 (storage_defaults demo_edited)))))
        (prop_get "a"
           (variables
              (snd (init demo_fetched_config demo_current FetchFailed
                         (loaded [] (storage_user demo_edited)
                                 (storage_defaults demo_edited))))))
  = TArr [jnum 9; jnum 2].
Proof.
  apply (reload_restores_session demo_fetched_config demo_current FetchFailed
           demo_edited
           (snd (init demo_fetched_config demo_current FetchFailed
                      (loaded [] (storage_user demo_edited)
                              (storage_defaults demo_edited))))
           demo_example (mkConfig (jstr "Demo") (TObj demo_config))).
  - split; [vm_compute; reflexivity | intros _; vm_compute; reflexivity].
  - reflexivity.
  - vm_compute. apply NoDup_singleton.
  - vm_compute. reflexivity.
  - discriminate.
  - reflexivity.
  - vm_compute. reflexivity.
  - left. reflexivity.
  - reflexivity.
  - discriminate.
  - left. reflexivity.
  - reflexivity.
  - left. reflexivity.
Defined.

(** ** The invariant of a session *)

Lemma defined_valid h v : defined_in h v -> valid h v.
Proof.
  unfold defined_in. destruct v as [p|l|b]; [intros _; exact I| |intros _; exact I].
  simpl. destruct (h !! l) eqn:Hl; [|discriminate].
  intros _. eapply lookup_lt_Some; eauto.
Qed.

Lemma defined_app h cells v : defined_in h v -> defined_in (h ++ cells) v.
Proof.
  intros Hd. unfold defined_in. rewrite deref_app; [exact Hd|].
  now apply defined_valid.
Qed.

Lemma defined_insert h l t v :
  is_defined t = true -> defined_in h v -> defined_in (<[l := t]> h) v.
Proof.
  intros Ht. unfold defined_in. destruct v as [p|l'|b]; [auto| |auto].
  simpl. destruct (decide (l = l')) as [->|Hne].
  - destruct (h !! l') eqn:Hl; [|discriminate]. intros _.
    rewrite list_lookup_insert_eq by (eapply lookup_lt_Some; eauto).
    exact Ht.
  - now rewrite list_lookup_insert_ne.
Qed.

Lemma to_json_defined t : is_defined (to_json t) = true.
Proof. destruct t as [[]| |]; reflexivity. Qed.

Lemma snapshot_keys h (o : obj) :
  (forall k, In k (keys o) -> defined_in h (prop_get k o)) ->
  NoDup (keys o) ->
  keys (snapshot h o) = keys o.
Proof.
  induction o as [|[k0 v0] o IH]; intros Hdef Hnd; [reflexivity|].
  cbn [keys map fst] in Hnd. apply NoDup_cons in Hnd as [Hnot Hnd].
  rewrite snapshot_cons.
  pose proof (Hdef k0 (or_introl eq_refl)) as H0.
  rewrite prop_get_cons, String.eqb_refl in H0. unfold defined_in in H0.
  rewrite H0. cbn [keys map fst]. f_equal. apply IH; [|exact Hnd].
  intros k Hk. specialize (Hdef k (or_intror Hk)).
  rewrite prop_get_cons in Hdef.
  destruct (String.eqb_spec k k0) as [Heq|Hne]; [|exact Hdef].
  exfalso. apply Hnot. apply list_elem_of_In. now rewrite <- Heq.
Qed.

Lemma snapshot_defined h (o : obj) : doc_defined (snapshot h o).
Proof.
  unfold doc_defined.
  induction o as [|[k0 v0] o IH]; [intros k []|].
  rewrite snapshot_cons. destruct (is_defined (deref h v0)); [|exact IH].
  intros k Hk. unfold doc_get in *. cbn [assoc_get].
  destruct (String.eqb_spec k k0) as [->|Hne]; [apply to_json_defined|].
  destruct Hk as [Heq|Hk]; [simpl in Heq; congruence|].
  apply (IH k Hk).
Qed.

Lemma sound_extends vars st st' : sound vars st -> extends st st' ->
  sound vars st'.
Proof.
  intros (Hc & Hw & Hk & Hd & Hs) [cells ->].
  split; [exact Hc|]. split; [exact Hw|]. split; [exact Hk|].
  split; [|exact Hs].
  intros k Hin. cbn [heap variables set_heap]. apply defined_app.
  now apply Hd.
Qed.

Lemma sound_set_variables vars o st :
  sound vars st -> schema_list vars (keys o) ->
  (forall k, In k (keys o) -> defined_in (heap st) (prop_get k o)) ->
  sound vars (set_variables o st).
Proof.
  intros (Hc & Hw & _ & _ & Hs) Hk Hd.
  split; [exact Hc|]. split; [exact Hw|]. split; [exact Hk|].
  split; [exact Hd | exact Hs].
Qed.

Lemma sound_same vars st st' :
  sound vars st ->
  config_variables st' = config_variables st ->
  storage_writable st' = storage_writable st ->
  variables st' = variables st ->
  heap st' = heap st ->
  storage_user st' = storage_user st ->
  sound vars st'.
Proof.
  intros (Hc & Hw & Hk & Hd & Hs) Ec Ew Ev Eh Es.
  split; [congruence|]. split; [congruence|]. split; [now rewrite Ev|].
  split.
  - intros k Hin. rewrite Ev in *. rewrite Eh. now apply Hd.
  - destruct Hs as (doc & Hdoc & Hl & Hdd). exists doc.
    split; [congruence|]. split; [now rewrite Ec | exact Hdd].
Qed.

(** An assignment [variables[key] = v] for a key of the configuration
    that is not a section keeps the invariant. *)
Lemma sound_own_set vars key v vs' st :
  sound vars st ->
  own_set key v (variables st) = Ok vs' ->
  In key (keys vars) -> is_section (descriptor vars key) = false ->
  defined_in (heap st) v ->
  sound vars (set_variables vs' st).
Proof.
  intros Hsound Hset Hin Hsec Hv.
  destruct (own_set_ok _ _ _ _ Hset) as [(_ & _ & ->)|(Hcase & ->)].
  { eapply sound_same; eauto. }
  assert (Hown : In key (keys (variables st))).
  { destruct Hcase as [Hne|Hhas]; [|now apply assoc_has_keys].
    destruct Hsound as (_ & _ & [_ Hk] & _). apply Hk. auto. }
  assert (Hkeys : keys (assoc_set key v (variables st)) = keys (variables st))
    by (apply keys_assoc_set_own; now apply assoc_has_keys).
  destruct Hsound as (Hc & Hw & Hk & Hd & Hs).
  apply sound_set_variables.
  - split; [exact Hc|]. split; [exact Hw|]. split; [exact Hk|]. now split.
  - now rewrite Hkeys.
  - intros k Hk'. rewrite Hkeys in Hk'.
    destruct (String.eqb_spec key k) as [->|Hne].
    + now rewrite prop_get_set_eq.
    + rewrite prop_get_set_ne by exact Hne. now apply Hd.
Qed.

Lemma bind_inv (I : app -> Prop) {A B} (m : M A) (f : A -> M B) st :
  I (snd (m st)) ->
  (forall a st1, m st = (Ok a, st1) -> I st1 -> I (snd (f a st1))) ->
  I (snd (bind m f st)).
Proof.
  intros Hm Hf. unfold bind.
  destruct (m st) as [[a|e] st1]; simpl in Hm; [|exact Hm].
  now apply Hf.
Qed.

Lemma stateless_inv (I : app -> Prop) {A} (m : M A) st :
  stateless m -> I st -> I (snd (m st)).
Proof. intros Hm HI. now rewrite Hm. Qed.

Lemma sound_presound vars st : sound vars st -> presound vars st.
Proof.
  intros (Hc & Hw & Hk & Hd & _).
  split; [exact Hc|]. split; [exact Hw|]. split; [exact Hk | exact Hd].
Qed.

Lemma updatePreview_presound vars st :
  presound vars st -> sound vars (snd (updatePreview st)).
Proof.
  intros (Hc & Hw & Hk & Hd).
  unfold updatePreview, bind, saveUserState. cbn [fst snd].
  cbn [storage_writable set_jsonPreview]. rewrite Hw. cbn [snd].
  split; [exact Hc|]. split; [exact Hw|]. split; [exact Hk|].
  split; [exact Hd|].
  exists (snapshot (heap st) (variables st)).
  split; [reflexivity|]. cbn [config_variables heap variables
                              set_storage_user set_jsonPreview].
  split; [|apply snapshot_defined].
  rewrite snapshot_keys; [now rewrite Hc | exact Hd | apply Hk].
Qed.

Lemma updatePreview_sound vars st :
  sound vars st -> sound vars (snd (updatePreview st)).
Proof. intros H. now apply updatePreview_presound, sound_presound. Qed.

Lemma default_tree_is_defined desc t :
  default_tree desc = Ok t -> is_defined t = true.
Proof.
  unfold default_tree.
  destruct (negb (truthy desc)); [now intros [= <-]|].
  destruct (is_defined (field desc "default")) eqn:Hd; [now intros [= <-]|].
  destruct (type_is desc "boolean"); [now intros [= <-]|].
  destruct (type_is desc "number"); [now intros [= <-]|].
  destruct (type_is desc "number_array").
  { destruct (or_else _ _) as [[| | |n|]| |]; try (now intros [= <-]).
    destruct (_ && _)%bool; [now intros [= <-] | discriminate]. }
  destruct (type_is desc "string"); [now intros [= <-]|].
  destruct (type_is desc "choice"); [|now intros [= <-]].
  destruct (getChoices desc) as [[|c l]|e]; try discriminate;
    now intros [= <-].
Qed.

Lemma fresh_defined t st v st' :
  fresh t st = (Ok v, st') -> is_defined t = true -> defined_in (heap st') v.
Proof.
  intros Hf Ht.
  destruct (fresh_spec t st) as (v' & st2 & Hf' & _ & _ & Hd & _).
  rewrite Hf in Hf'. injection Hf' as <- <-.
  unfold defined_in. now rewrite Hd.
Qed.

Lemma defaultFor_defined desc st v st' :
  defaultFor desc st = (Ok v, st') -> defined_in (heap st') v.
Proof.
  rewrite defaultFor_tree.
  destruct (default_tree desc) as [t|e] eqn:Ht; [|discriminate].
  intros Hf. eapply fresh_defined; eauto.
  eapply default_tree_is_defined; eauto.
Qed.

Lemma forEach_sanitize_defined vars source ks :
  forall out st out' st',
    forEach (sanitize_key vars source) out ks st = (Ok out', st') ->
    source_defined (heap st) source ->
    (forall k, In k (keys out) -> defined_in (heap st) (prop_get k out)) ->
    forall k, In k (keys out') -> defined_in (heap st') (prop_get k out').
Proof.
  induction ks as [|a ks IH]; intros out st out' st' Hrun Hsrc Hout.
  - injection Hrun as <- <-. exact Hout.
  - rewrite forEach_cons in Hrun.
    destruct (sanitize_key vars source out a st) as [[out1|e] st1] eqn:E;
      [|discriminate].
    pose proof (sanitize_key_extends _ _ _ _ _ _ _ E) as [cells Hext].
    apply (IH _ _ _ _ Hrun).
    + intros k v Hk. rewrite Hext. cbn [heap set_heap].
      apply defined_app. eapply Hsrc; eauto.
    + destruct (sanitize_key_ok _ _ _ _ _ _ _ E)
        as [(_ & -> & ->) | (_ & v & Hset & Hcase)]; [exact Hout|].
      assert (Hv : defined_in (heap st1) v).
      { destruct Hcase as [[Hsome ->] | (_ & t & Ht & Hf)].
        - eapply Hsrc; eauto.
        - eapply fresh_defined; eauto.
          eapply default_tree_is_defined; eauto. }
      assert (Hold : forall k, In k (keys out) ->
                               defined_in (heap st1) (prop_get k out)).
      { intros k Hin. rewrite Hext. cbn [heap set_heap].
        apply defined_app. now apply Hout. }
      destruct (own_set_ok _ _ _ _ Hset) as [(_ & _ & ->)|(_ & ->)];
        [exact Hold|].
      intros k Hin. destruct (String.eqb_spec a k) as [->|Hne].
      * now rewrite prop_get_set_eq.
      * rewrite prop_get_set_ne by exact Hne.
        apply keys_assoc_set in Hin as [Heq | Hin]; [congruence|].
        now apply Hold.
Qed.

Lemma sanitized_defined source st v st1 :
  buildSanitizedFromSource source st = (Ok v, st1) ->
  source_defined (heap st) source ->
  forall k, In k (keys v) -> defined_in (heap st1) (prop_get k v).
Proof.
  rewrite buildSanitizedFromSource_eq. intros Hrun Hsrc.
  eapply forEach_sanitize_defined; eauto. intros k [].
Qed.

Lemma sanitized_schema source st v st1 :
  buildSanitizedFromSource source st = (Ok v, st1) ->
  schema_list (config_variables st) (keys v).
Proof. intros H. exact (sanitize_keys _ _ _ _ H). Qed.

Lemma bind_extends {A B} (m : M A) (f : A -> M B) st :
  extends st (snd (m st)) ->
  (forall a st1, extends st1 (snd (f a st1))) ->
  extends st (snd (bind m f st)).
Proof.
  intros Hm Hf. unfold bind.
  destruct (m st) as [[a|e] st1]; simpl in Hm; [|exact Hm].
  eapply extends_trans; [exact Hm | apply Hf].
Qed.

Lemma stateless_extends {A} (m : M A) st :
  stateless m -> extends st (snd (m st)).
Proof. intros Hm. rewrite Hm. apply extends_refl. Qed.

Lemma buildSanitizedFromSource_extends source st :
  extends st (snd (buildSanitizedFromSource source st)).
Proof.
  rewrite buildSanitizedFromSource_eq.
  generalize (@nil (string * value)) as out.
  generalize (config_variables st) at 1 as vars.
  generalize (keys (config_variables st)) as ks. intros ks vars. revert st.
  induction ks as [|a ks IH]; intros st out; [apply extends_refl|].
  cbn [forEach]. apply bind_extends; [|intros out1 st1; apply IH].
  rewrite sanitize_key_eq.
  destruct (is_section _); [apply extends_refl|].
  destruct (source_get source a);
    [apply stateless_extends, stateless_lift|].
  apply bind_extends; [apply defaultFor_extends|].
  intros v st1. apply stateless_extends, stateless_lift.
Qed.

Lemma type_is_or_else desc tag :
  type_is (or_else desc (TObj [])) tag = true -> type_is desc tag = true.
Proof.
  unfold or_else. destruct (truthy desc); [auto | discriminate].
Qed.

Lemma makeControl_sound vars k v st :
  sound vars st -> In k (keys vars) ->
  sound vars
    (snd (makeControl k v (or_else (descriptor vars k) (TObj [])) st)).
Proof.
  intros Hsound Hin.
  destruct (makeControl_state k v (or_else (descriptor vars k) (TObj [])) st)
    as [->|(first & rest & initial & vs' & Hc & _ & _ & Hset & ->)];
    [exact Hsound|].
  cbn [snd]. apply (sound_own_set vars k _ vs' st Hsound Hset Hin);
    [|reflexivity].
  apply type_is_or_else in Hc. unfold is_section.
  rewrite (type_is_other _ _ "section" Hc) by discriminate.
  apply andb_false_r.
Qed.

Lemma render_key_sound vars k st :
  sound vars st -> In k (keys vars) ->
  sound vars (snd (render_key vars k st)).
Proof.
  intros Hsound Hin. unfold render_key.
  apply (bind_inv (sound vars)); [exact Hsound|].
  intros term st1 _ H1.
  destruct (type_is _ "section").
  { apply stateless_inv; [stateless_tac | exact H1]. }
  apply (bind_inv (sound vars)).
  { apply stateless_inv; [apply stateless_matchesSearch | exact H1]. }
  intros shown st2 _ H2. destruct shown; [|exact H2]. cbn [negb].
  apply (bind_inv (sound vars)); [exact H2|].
  intros vs st3 _ H3.
  apply (bind_inv (sound vars)).
  - destruct (prop_get k vs) as [[]| |]; try exact H3.
    eapply sound_extends; [exact H3 | apply defaultFor_extends].
  - intros val st4 _ H4. now apply makeControl_sound.
Qed.

Lemma forEach_render_sound vars ks :
  forall st,
    sound vars st -> (forall k, In k ks -> In k (keys vars)) ->
    sound vars (snd (forEach (fun _ k => render_key vars k) tt ks st)).
Proof.
  induction ks as [|a ks IH]; intros st Hsound Hks; [exact Hsound|].
  cbn [forEach]. apply (bind_inv (sound vars)).
  - apply render_key_sound; [exact Hsound | apply Hks; now left].
  - intros [] st1 _ H1. apply IH; [exact H1|].
    intros k Hk. apply Hks. now right.
Qed.

Lemma renderControlsForVariables_sound vars st :
  sound vars st -> sound vars (snd (renderControlsForVariables st)).
Proof.
  intros Hsound. unfold renderControlsForVariables, bind, gets.
  destruct Hsound as (Hc & Hrest). rewrite Hc.
  apply forEach_render_sound; [now split | auto].
Qed.

Lemma set_status_sound vars msg st :
  sound vars st -> sound vars (set_status msg st).
Proof. intros H. eapply sound_same; eauto. Qed.

Lemma set_currentSearchTerm_sound vars t st :
  sound vars st -> sound vars (set_currentSearchTerm t st).
Proof. intros H. eapply sound_same; eauto. Qed.

Lemma refresh_sound vars st :
  presound vars st ->
  sound vars (snd ((updatePreview >> renderControlsForVariables) st)).
Proof.
  intros H. apply (bind_inv (sound vars)).
  - now apply updatePreview_presound.
  - intros _ st1 _ H1. now apply renderControlsForVariables_sound.
Qed.

(** *** The events of the controls *)

Lemma set_variable_sound vars key v st :
  sound vars st ->
  In key (keys vars) -> is_section (descriptor vars key) = false ->
  defined_in (heap st) v ->
  sound vars (snd (set_variable key v st)).
Proof.
  intros Hsound Hin Hsec Hv. unfold set_variable, bind, gets, lift, modify.
  destruct (own_set key v (variables st)) as [vs'|e] eqn:Hset;
    cbn [fst snd]; [|exact Hsound].
  exact (sound_own_set vars key v vs' st Hsound Hset Hin Hsec Hv).
Qed.

Lemma write_sound vars key v st :
  sound vars st ->
  In key (keys vars) -> is_section (descriptor vars key) = false ->
  defined_in (heap st) v ->
  sound vars (snd ((set_variable key v >> updatePreview) st)).
Proof.
  intros Hsound Hin Hsec Hv. apply (bind_inv (sound vars)).
  - now apply set_variable_sound.
  - intros _ st1 _ H1. now apply updatePreview_sound.
Qed.

Lemma store_index_sound vars v idx x st :
  sound vars st -> sound vars (snd (store_index v idx x st)).
Proof.
  intros Hsound. destruct v as [[]|l|b]; try exact Hsound.
  cbn [store_index]. unfold bind, gets.
  assert (Hcell : forall t, is_defined t = true ->
                            sound vars (set_heap (<[l := t]> (heap st)) st)).
  { intros t Ht. destruct Hsound as (Hc & Hw & Hk & Hd & Hs).
    split; [exact Hc|]. split; [exact Hw|]. split; [exact Hk|].
    split; [|exact Hs].
    intros k Hin. cbn [heap variables set_heap].
    apply defined_insert; [exact Ht | now apply Hd]. }
  destruct (heap st !! l) as [[| |]|]; try exact Hsound;
    unfold modify; cbn [snd]; now apply Hcell.
Qed.

Lemma Array_fill0_defined c st v st' :
  Array_fill0 c st = (Ok v, st') -> extends st st' /\ defined_in (heap st') v.
Proof.
  assert (Halloc : forall t, is_defined t = true ->
            alloc t st = (Ok v, st') ->
            extends st st' /\ defined_in (heap st') v).
  { intros t Ht Ha. rewrite alloc_spec in Ha. injection Ha as <- <-.
    split; [now exists [t]|].
    unfold defined_in. cbn [deref heap set_heap].
    rewrite lookup_app_r by lia. rewrite Nat.sub_diag. exact Ht. }
  unfold Array_fill0. destruct c as [[| | |n|]| |];
    try (apply Halloc; reflexivity).
  destruct (_ && _)%bool; [apply Halloc; reflexivity | discriminate].
Qed.

Lemma Array_fill0_extends c st : extends st (snd (Array_fill0 c st)).
Proof.
  destruct (Array_fill0 c st) as [[v|e] st'] eqn:E.
  - now destruct (Array_fill0_defined _ _ _ _ E).
  - unfold Array_fill0 in E. destruct c as [[| | |n|]| |];
      try (rewrite alloc_spec in E; discriminate).
    destruct (_ && _)%bool; [rewrite alloc_spec in E; discriminate|].
    injection E as _ <-. apply extends_refl.
Qed.

Lemma handle_sound vars e st :
  sound vars st ->
  In (edit_key e) (keys vars) ->
  is_section (descriptor vars (edit_key e)) = false ->
  sound vars (snd (handle e st)).
Proof.
  intros Hsound Hin Hsec.
  destruct e as [key b|key s|key s|key n|key [n|]|key desc [n|]
                |key count idx [n|]|key desc idx [n|]];
    cbn [handle edit_key] in *; try exact Hsound;
    try (apply write_sound;
         [exact Hsound | exact Hin | exact Hsec | reflexivity]).
  - (* a number field that loses focus empty *)
    apply (bind_inv (sound vars)).
    + eapply sound_extends; [exact Hsound | apply defaultFor_extends].
    + intros v st1 Hv H1.
      apply (bind_inv (sound vars)).
      * apply set_variable_sound; [exact H1 | exact Hin | exact Hsec |].
        eapply defaultFor_defined; eauto.
      * intros _ st2 _ H2. apply (bind_inv (sound vars)).
        -- apply stateless_inv; [apply stateless_to_text_value | exact H2].
        -- intros _ st3 _ H3. now apply updatePreview_sound.
  - (* an element of a number array *)
    unfold array_input.
    apply (bind_inv (sound vars)); [exact Hsound|]. intros h st1 Hh H1.
    injection Hh as <- <-.
    apply (bind_inv (sound vars)); [exact Hsound|]. intros vs st2 Hvs H2.
    injection Hvs as <- <-.
    apply (bind_inv (sound vars)).
    + destruct (negb _); [|exact Hsound].
      apply (bind_inv (sound vars)).
      * eapply sound_extends; [exact Hsound | apply Array_fill0_extends].
      * intros a st3 Ha H3.
        destruct (Array_fill0_defined _ _ _ _ Ha) as [_ Hdef].
        now apply set_variable_sound.
    + intros _ st3 _ H3.
      apply (bind_inv (sound vars)); [exact H3|]. intros vs' st4 Hvs H4.
      apply (bind_inv (sound vars)); [now apply store_index_sound|].
      intros _ st5 _ H5. now apply updatePreview_sound.
  - (* an element that loses focus empty *)
    apply (bind_inv (sound vars)).
    + eapply sound_extends; [exact Hsound | apply defaultFor_extends].
    + intros defArr st1 _ H1.
      apply (bind_inv (sound vars)).
      * destruct defArr as [[]|l|b]; exact H1.
      * intros resetVal st2 _ H2.
        apply (bind_inv (sound vars)); [exact H2|]. intros vs st3 _ H3.
        apply (bind_inv (sound vars)); [now apply store_index_sound|].
        intros _ st4 _ H4. apply (bind_inv (sound vars)).
        -- apply stateless_inv; [apply stateless_to_text | exact H4].
        -- intros _ st5 _ H5. now apply updatePreview_sound.
Qed.

(** *** Loading, resetting, searching *)

Lemma tail_sound vars msg st :
  presound vars st ->
  sound vars
    (snd ((saveDefaultsToStorage >> updatePreview >>
           renderControlsForVariables >> modify (set_status msg)) st)).
Proof.
  intros (Hc & Hw & Hk & Hd).
  unfold bind at 1.
  pose proof (saveDefaultsToStorage_kept st) as [Hk1 _].
  destruct (saveDefaultsToStorage_spec st)
    as (st1 & Hsave & Hv1 & _ & Hh1 & Hc1 & _).
  rewrite Hsave in Hk1 |- *. simpl in Hk1.
  assert (Hw1 : storage_writable st1 = true) by congruence.
  assert (H1 : presound vars st1).
  { split; [congruence|]. split; [exact Hw1|]. split; [now rewrite Hv1|].
    intros k Hin. rewrite Hv1 in *. rewrite Hh1. now apply Hd. }
  apply (bind_inv (sound vars)); [now apply updatePreview_presound|].
  intros _ st2 _ H2.
  apply (bind_inv (sound vars)); [now apply renderControlsForVariables_sound|].
  intros _ st3 _ H3. now apply set_status_sound.
Qed.

Lemma apply_source_from vars (P : app -> Prop) src msg st :
  (forall s s', P s -> extends s s' -> P s') ->
  (forall s v, P s -> presound vars (set_variables v s) ->
               P (set_variables v s)) ->
  (forall s, P s -> config_variables s = vars /\ storage_writable s = true) ->
  P st -> source_defined (heap st) src ->
  match apply_source src msg st with
  | (Ok _, st') => sound vars st'
  | (Throw _, st') => P st' \/ sound vars st'
  end.
Proof.
  intros Pext Pset Pbase HP Hsrc. unfold apply_source.
  unfold bind at 1.
  pose proof (buildSanitizedFromSource_extends src st) as Hext1.
  destruct (buildSanitizedFromSource src st) as [[v|e] st1] eqn:Hv;
    simpl in Hext1; [|left; eauto].
  pose proof (Pext _ _ HP Hext1) as HP1.
  destruct (Pbase _ HP) as [Hc Hw].
  destruct (Pbase _ HP1) as [Hc1 Hw1].
  assert (Hpre1 : presound vars (set_variables v st1)).
  { split; [exact Hc1|]. split; [exact Hw1|]. split.
    - rewrite <- Hc. exact (sanitized_schema _ _ _ _ Hv).
    - exact (sanitized_defined _ _ _ _ Hv Hsrc). }
  pose proof (Pset _ v HP1 Hpre1) as HP1'.
  unfold bind at 1, modify at 1.
  unfold bind at 1.
  pose proof (buildSanitizedFromSource_extends src (set_variables v st1))
    as Hext2.
  destruct (buildSanitizedFromSource src (set_variables v st1))
    as [[d|e] st2] eqn:Hd; simpl in Hext2; [|left; eauto].
  assert (Hpre2 : presound vars (set_defaults d st2)).
  { destruct Hext2 as [cells ->].
    destruct Hpre1 as (H1 & H2 & H3 & H4).
    split; [exact H1|]. split; [exact H2|]. split; [exact H3|].
    intros k Hin. cbn [heap variables set_heap set_defaults set_variables].
    apply defined_app. now apply H4. }
  unfold bind at 1, modify at 1.
  pose proof (tail_sound vars msg _ Hpre2) as Htail.
  destruct ((saveDefaultsToStorage >> updatePreview >>
             renderControlsForVariables >> modify (set_status msg))
              (set_defaults d st2)) as [[[]|e] st3]; simpl in Htail;
    [exact Htail | now right].
Qed.

(** The configuration is [vars] and the storage accepts writes. *)
Lemma sound_base vars st :
  sound vars st -> config_variables st = vars /\ storage_writable st = true.
Proof. intros (Hc & Hw & _). now split. Qed.

Lemma presound_sound vars st v :
  sound vars st -> presound vars (set_variables v st) ->
  sound vars (set_variables v st).
Proof.
  intros (_ & _ & _ & _ & Hs) (Hc & Hw & Hk & Hd).
  split; [exact Hc|]. split; [exact Hw|]. split; [exact Hk|].
  split; [exact Hd | exact Hs].
Qed.

Lemma apply_source_sound vars src msg st :
  sound vars st -> source_defined (heap st) src ->
  sound vars (snd (apply_source src msg st)).
Proof.
  intros Hsound Hsrc.
  pose proof (apply_source_from vars (sound vars) src msg st
                (sound_extends vars)
                (fun s v => presound_sound vars s v)
                (sound_base vars) Hsound Hsrc) as H.
  destruct (apply_source src msg st) as [[[]|e] st']; simpl;
    [exact H | now destruct H].
Qed.

Lemma example_source_defined doc st src st1 :
  match doc with
  | Some d => let* o := materialize d in ret (Some o)
  | None => ret None
  end st = (Ok src, st1) ->
  match doc with Some d => doc_defined d | None => True end ->
  extends st st1 /\ source_defined (heap st1) src.
Proof.
  intros Hrun Hdoc.
  destruct (example_source doc st) as (src' & st1' & Hrun' & Hext & Hall).
  rewrite Hrun in Hrun'. injection Hrun' as <- <-.
  split; [exact Hext|].
  destruct doc as [d|], src as [o|]; try contradiction;
    [|intros k v Hk; discriminate].
  destruct Hall as [Hko Ho]. intros k v Hk. simpl in Hk.
  assert (Hin : In k (keys d))
    by (rewrite <- Hko; apply assoc_get_keys; eauto).
  specialize (Ho k Hin). unfold prop_get in Ho. rewrite Hk in Ho.
  destruct Ho as (_ & _ & Hder & _). unfold defined_in. rewrite Hder.
  now apply Hdoc.
Qed.

Lemma loadExampleAndApply_sound vars r st :
  sound vars st -> proper vars (LoadExample r) ->
  sound vars (snd (loadExampleAndApply r st)).
Proof.
  intros Hsound Hproper. rewrite loadExampleAndApply_eq. unfold try_catch.
  assert (Hnone : forall s, source_defined (heap s) None)
    by (intros s k v Hk; discriminate).
  destruct r as [|doc].
  - cbn [throw]. now apply apply_source_sound.
  - unfold bind at 1.
    destruct (example_source doc st) as (src & st1 & Hsrc & Hext & _).
    rewrite Hsrc.
    destruct (example_source_defined _ _ _ _ Hsrc) as [_ Hdef].
    { destruct doc; [exact Hproper | exact I]. }
    pose proof (apply_source_sound vars src
                  "Example loaded (sanitized to configured keys)." st1
                  (sound_extends _ _ _ Hsound Hext) Hdef) as Hbody.
    destruct (apply_source src _ st1) as [[[]|e] st2]; simpl in Hbody;
      [exact Hbody|].
    destruct e; try exact Hbody; now apply apply_source_sound.
Qed.

Lemma resetToDefaults_sound vars st :
  sound vars st -> sound vars (snd (resetToDefaults st)).
Proof.
  intros Hsound.
  destruct Hsound as (Hc & Hw & Hk & Hd & doc & Hdoc & Hl & Hdd).
  assert (Hsound : sound vars st).
  { split; [exact Hc|]. split; [exact Hw|]. split; [exact Hk|].
    split; [exact Hd|]. now exists doc. }
  unfold resetToDefaults, loadUserState.
  unfold bind at 1, gets at 1. rewrite Hdoc.
  apply (bind_inv (sound vars)).
  - apply (bind_inv (sound vars)).
    + eapply sound_extends; [exact Hsound|].
      destruct (materialize_spec doc st) as (o & st1 & -> & Hext & _).
      exact Hext.
    + intros o st1 Hm H1.
      destruct (materialized _ _ _ _ Hm) as (_ & Hko & Ho).
      apply (bind_inv (sound vars)); [|intros _ st2 _ H2;
                                       now apply set_status_sound].
      unfold modify. cbn [snd]. apply sound_set_variables; [exact H1 | |].
      * rewrite Hko, <- Hc. exact Hl.
      * intros k Hin. rewrite Hko in Hin.
        destruct (Ho k Hin) as (_ & Hder & _).
        unfold defined_in. rewrite Hder. now apply Hdd.
  - intros _ st1 _ H1.
    apply (bind_inv (sound vars)); [now apply updatePreview_sound|].
    intros _ st2 _ H2. now apply renderControlsForVariables_sound.
Qed.

Lemma perform_sound vars a st :
  sound vars st -> proper vars a -> sound vars (snd (perform a st)).
Proof.
  intros Hsound Hproper. destruct a as [e|r| |term]; cbn [perform].
  - destruct Hproper as [Hin Hsec]. now apply handle_sound.
  - now apply loadExampleAndApply_sound.
  - now apply resetToDefaults_sound.
  - apply (bind_inv (sound vars)).
    + now apply set_currentSearchTerm_sound.
    + intros _ st1 _ H1. now apply renderControlsForVariables_sound.
Qed.

Lemma run_sound vars acts :
  forall st st', sound vars st -> Forall (proper vars) acts ->
                 run acts st = Some st' -> sound vars st'.
Proof.
  induction acts as [|a acts IH]; intros st st' Hsound Hall Hrun.
  - now injection Hrun as <-.
  - apply Forall_cons in Hall as [Ha Hall]. cbn [run] in Hrun.
    pose proof (perform_sound vars a st Hsound Ha) as Hp.
    destruct (perform a st) as [[[]|[]] st1]; simpl in Hp;
      try discriminate; exact (IH _ _ Hp Hall Hrun).
Qed.

(** *** Start-up establishes the invariant *)

Lemma apply_source_establishes vars src msg st :
  config_variables st = vars -> storage_writable st = true ->
  source_defined (heap st) src ->
  match apply_source src msg st with
  | (Ok _, st') => sound vars st'
  | (Throw _, st') =>
      config_variables st' = vars /\ storage_writable st' = true
  end.
Proof.
  intros Hc Hw Hsrc.
  pose proof (apply_source_from vars
                (fun s => config_variables s = vars
                          /\ storage_writable s = true) src msg st) as H.
  cbv beta in H.
  assert (Hrun : match apply_source src msg st with
                 | (Ok _, st') => sound vars st'
                 | (Throw _, st') =>
                     (config_variables st' = vars
                      /\ storage_writable st' = true) \/ sound vars st'
                 end).
  { apply H; auto. intros s s' Hs [cells ->]. exact Hs. }
  destruct (apply_source src msg st) as [[[]|e] st']; [exact Hrun|].
  destruct Hrun as [Hb | Hs]; [exact Hb | now apply sound_base].
Qed.

Lemma loadExampleAndApply_establishes vars r st st' :
  config_variables st = vars -> storage_writable st = true ->
  proper vars (LoadExample r) ->
  loadExampleAndApply r st = (Ok tt, st') ->
  sound vars st'.
Proof.
  intros Hc Hw Hproper. rewrite loadExampleAndApply_eq. unfold try_catch.
  assert (Hnone : forall s, source_defined (heap s) None)
    by (intros s k v Hk; discriminate).
  destruct r as [|doc].
  - cbn [throw]. intros Hrun.
    pose proof (apply_source_establishes vars None "Example loaded." st
                  Hc Hw (Hnone st)) as H.
    now rewrite Hrun in H.
  - unfold bind at 1.
    destruct (example_source doc st) as (src & st1 & Hsrc & Hext & _).
    rewrite Hsrc.
    destruct (example_source_defined _ _ _ _ Hsrc) as [_ Hdef].
    { destruct doc; [exact Hproper | exact I]. }
    assert (Hc1 : config_variables st1 = vars)
      by (destruct Hext as [c ->]; exact Hc).
    assert (Hw1 : storage_writable st1 = true)
      by (destruct Hext as [c ->]; exact Hw).
    pose proof (apply_source_establishes vars src
                  "Example loaded (sanitized to configured keys)." st1
                  Hc1 Hw1 Hdef) as Hbody.
    destruct (apply_source src _ st1) as [[[]|e] st2].
    + now intros [= <-].
    + destruct Hbody as [Hc2 Hw2]. intros Hrun.
      pose proof (apply_source_establishes vars None "Example loaded." st2
                    Hc2 Hw2 (Hnone st2)) as H.
      destruct e; try discriminate; now rewrite Hrun in H.
Qed.

Lemma cleanSectionKeys_keys vars doc k :
  In k (keys (cleanSectionKeys vars doc)) ->
  In k (keys doc) /\ is_section (descriptor vars k) = false.
Proof.
  induction doc as [|[k0 t] doc IH]; [intros []|].
  cbn [cleanSectionKeys].
  destruct (is_section (descriptor vars k0)) eqn:Hsec.
  - intros H. destruct (IH H). split; [now right | assumption].
  - intros [<-|H]; [split; [now left | exact Hsec]|].
    destruct (IH H). split; [now right | assumption].
Qed.

Lemma cleanSectionKeys_defined vars doc :
  doc_defined doc -> doc_defined (cleanSectionKeys vars doc).
Proof.
  intros Hdoc k Hk. destruct (cleanSectionKeys_keys _ _ _ Hk) as [Hin Hsec].
  unfold doc_get. rewrite cleanSectionKeys_get by exact Hsec.
  now apply Hdoc.
Qed.

Lemma init_sound cfg current example st st' c :
  storage_writable st = true ->
  (forall doc, storage_user st = Some doc -> doc_defined doc) ->
  loadConfig cfg current = Ok c ->
  proper (variables_of c) (LoadExample example) ->
  init cfg current example st = (Ok tt, st') ->
  sound (variables_of c) st'.
Proof.
  intros Hw Hstored Hcfg Hproper Hrun.
  set (vars := variables_of c) in *.
  unfold init in Hrun.
  apply bind_ok in Hrun as (c' & s & Hs & Hrun).
  unfold lift in Hs. rewrite Hcfg in Hs. injection Hs as <- <-.
  fold vars in Hrun.
  apply bind_ok in Hrun as ([] & s & Hs & Hrun). injection Hs as <-.
  apply bind_ok in Hrun as (vs & s & Hs & Hrun). injection Hs as <- <-.
  apply bind_ok in Hrun as (saved & s & Hs & Hrun). injection Hs as <- <-.
  apply bind_ok in Hrun as ([] & st1 & Hbody & Hrun). injection Hrun as <-.
  apply set_status_sound.
  cbn [storage_user config_variables set_config_variables] in Hbody.
  set (st0 := set_config_variables vars st) in *.
  destruct (storage_user st) as [doc|] eqn:Hsaved.
  2:{ apply (loadExampleAndApply_establishes vars example st0);
        [reflexivity | exact Hw | exact Hproper | exact Hbody]. }
  specialize (Hstored doc eq_refl).
  apply bind_ok in Hbody as (d & s & Hs & Hbody). injection Hs as <- <-.
  apply bind_ok in Hbody as ([] & sA & HA & Hbody).
  assert (HbA : config_variables sA = vars /\ storage_writable sA = true).
  { cbn [storage_defaults set_config_variables] in HA.
    destruct (storage_defaults st) as [dd|].
    - apply bind_ok in HA as (o & s & Hm & HA). injection HA as <-.
      destruct (materialized _ _ _ _ Hm) as ([cs ->] & _). now split.
    - injection HA as <-. now split. }
  destruct HbA as [HcA HwA].
  apply bind_ok in Hbody as (o & sB & Hm & Hbody).
  apply bind_ok in Hbody as ([] & s & Hs & Hbody). injection Hs as <-.
  apply bind_ok in Hbody as (v & sC & Hv & Hbody).
  apply bind_ok in Hbody as ([] & s & Hs & Hbody). injection Hs as <-.
  apply bind_ok in Hbody as (defs & s & Hs & Hbody). injection Hs as <- <-.
  destruct (materialized _ _ _ _ Hm) as ([c1 E1] & Hko & Ho).
  destruct (sanitized_extends _ _ _ _ Hv) as [c2 E2].
  assert (Hsrc : source_defined (heap (set_variables o sB)) (Some o)).
  { intros k x Hk. simpl in Hk.
    assert (Hin : In k (keys (cleanSectionKeys vars doc)))
      by (rewrite <- Hko; apply assoc_get_keys; eauto).
    specialize (Ho k Hin).
    unfold prop_get in Ho. rewrite Hk in Ho.
    destruct Ho as (_ & Hder & _). unfold defined_in.
    cbn [heap set_variables]. rewrite Hder.
    now apply (cleanSectionKeys_defined vars doc Hstored). }
  assert (HcB : config_variables (set_variables o sB) = vars)
    by (rewrite E1; exact HcA).
  assert (Hpre : presound vars (set_variables v sC)).
  { split; [rewrite E2; exact HcB|].
    split; [rewrite E2; simpl; rewrite E1; exact HwA|]. split.
    - rewrite <- HcB. exact (sanitized_schema _ _ _ _ Hv).
    - exact (sanitized_defined _ _ _ _ Hv Hsrc). }
  cbn [defaults set_variables] in Hbody.
  destruct (keys (defaults sC)).
  - destruct Hpre as (Hc & Hw' & _).
    eapply loadExampleAndApply_establishes; eauto.
  - assert (Hrest : exists st5,
              (updatePreview >> renderControlsForVariables)
                (set_variables v sC) = (Ok tt, st5)
              /\ st1 = set_status "Restored last used state." st5).
    { apply bind_ok in Hbody as ([] & st4 & Hup & Hbody).
      apply bind_ok in Hbody as ([] & st5 & Hrender & Hbody).
      injection Hbody as <-. exists st5. split; [|reflexivity].
      unfold bind. now rewrite Hup. }
    destruct Hrest as (st5 & Hrefresh & ->).
    apply set_status_sound.
    pose proof (refresh_sound vars _ Hpre) as H. now rewrite Hrefresh in H.
Qed.

(** X22. The editor never gains or loses a variable.  With a storage that
    accepts writes and holds parsed JSON if anything, and a configuration
    that loads, once [init] has returned, after any sequence of events
    taken one at a time (edits of the rendered controls, loads of the
    example, resets, searches; listeners returning or throwing),
    [variables] still owns exactly the keys of the configuration that are
    not sections, the name [__proto__] apart, none of them [undefined], so
    the document that is previewed, downloaded and persisted lists exactly
    these keys; and so does the persisted user state. *)
Theorem session_keeps_schema (cfg : fetched_config) (current : config)
  (example : fetched) (st st0 st1 : app) (acts : list action)
  (c : config) :
  storage_writable st = true ->
  (forall doc, storage_user st = Some doc -> doc_defined doc) ->
  loadConfig cfg current = Ok c ->
  proper (variables_of c) (LoadExample example) ->
  init cfg current example st = (Ok tt, st0) ->
  Forall (proper (variables_of c)) acts ->
  run acts st0 = Some st1 ->
  config_variables st1 = variables_of c
  /\ schema_keys st1
  /\ vars_defined st1
  /\ keys (snapshot (heap st1) (variables st1)) = keys (variables st1)
  /\ saved_ok st1.
Proof.
  intros Hw Hstored Hcfg Hproper Hrun Hacts Hsession.
  pose proof (init_sound _ _ _ _ _ _ Hw Hstored Hcfg Hproper Hrun) as H0.
  destruct (run_sound _ acts st0 st1 H0 Hacts Hsession)
    as (Hc & _ & Hk & Hd & Hs).
  split; [exact Hc|]. split; [unfold schema_keys; now rewrite Hc|].
  split; [exact Hd|]. split; [|exact Hs].
  apply snapshot_keys; [exact Hd | apply Hk].
Qed.

Lemma session_keeps_schema_witness :
  exists st1,
    run [Edit (ArrayInput "a" (jnum 2) 0 (Some 9%Z)); Reset; Search "b"]
        (snd (init demo_fetched_config demo_current
                   (FetchOk (Some demo_example)) (loaded [] None None)))
    = Some st1
    /\ schema_keys st1.
Proof.
  eexists. split; [vm_compute; reflexivity|].
  eapply (session_keeps_schema demo_fetched_config demo_current
            (FetchOk (Some demo_example)) (loaded [] None None)
            (snd (init demo_fetched_config demo_current
                       (FetchOk (Some demo_example)) (loaded [] None None)))
            _ [Edit (ArrayInput "a" (jnum 2) 0 (Some 9%Z)); Reset;
               Search "b"]
            (mkConfig (jstr "Demo") (TObj demo_config))).
  - reflexivity.
  - intros doc Hdoc. discriminate.
  - reflexivity.
  - intros k [<-|[]]. reflexivity.
  - vm_compute. reflexivity.
  - repeat constructor.
  - vm_compute. reflexivity.
Defined.

